(** * marco: the aggregation pipeline of an embedded document store

    A shallow embedding of the pipeline runner and of the stages
    [$limit], [$skip], [$sort], [$sample], [$lookup], [$addFields],
    [$unwind], [$group] and [$project] of the Go package [marco], with the
    properties of its specification stated and settled against that code.

    Conventions of the embedding.
    - A Go [interface{}] value is a [Value]; the constructors are the dynamic
      types that reach the pipeline: what [encoding/json] decodes to
      (nil, bool, float64, string, map, slice) and what the stages themselves
      build ([int] counters and [[]map[string]interface{}] slices).
    - A Go [map[string]interface{}] is an association list with the entries
      in the order in which a [range] over the map visits them.  Go leaves
      that order unspecified: two [range] loops over the same map may see two
      different orders, so "the same map" in two executions is two lists that
      are permutations of each other.
    - [float64] is the IEEE 754 binary64 specification of the standard
      library ([spec_float] with precision 53 and maximal exponent 1024).
    - What the Go runtime and its standard library decide ([strconv],
      [fmt], the result of an out-of-range float to int conversion) is a
      parameter, the class [GoRuntime]. *)

From Stdlib Require Import ZArith String Ascii Bool Lia Floats.SpecFloat.
From stdpp Require Import base list.

Local Open Scope string_scope.
Local Open Scope Z_scope.

(** ** Values *)

Definition float64 : Type := spec_float.

#[warnings="-register-all"]
Inductive Value : Type :=
| VNil
| VBool (b : bool)
| VNum (f : float64)
| VInt (n : Z)
| VStr (s : string)
| VDoc (m : list (string * Value))
| VArr (l : list Value)
| VDocs (l : list (list (string * Value))).

(** [map[string]interface{}]: documents and stage parameters alike. *)
Abbreviation Doc := (list (string * Value)).

(** A slice of documents where the code tells a nil slice from an empty one. *)
Inductive slice (A : Type) : Type :=
| NilSlice
| Slice (l : list A).
Arguments NilSlice {A}.
Arguments Slice {A} l.

Definition elems {A} (s : slice A) : list A :=
  match s with
  | NilSlice => []
  | Slice l => l
  end.

(** The result of code that may end in a run-time panic. *)
Inductive outcome (A : Type) : Type :=
| Ret (a : A)
| Panic (msg : string).
Arguments Ret {A} a.
Arguments Panic {A} msg.

#[global] Instance outcome_ret : MRet outcome := fun A a => Ret a.

#[global] Instance outcome_bind : MBind outcome := fun A B k o =>
  match o with
  | Ret a => k a
  | Panic msg => Panic msg
  end.

(** The Go pair [(value, error)]; an error carries the constant part of its
    message. *)
Inductive res (A : Type) : Type :=
| Ok (a : A)
| Err (e : string).
Arguments Ok {A} a.
Arguments Err {A} e.

(** ** Maps *)

Module GoMap.

(** [v, ok := m[k]] *)
Fixpoint get {A} (m : list (string * A)) (k : string) : option A :=
  match m with
  | [] => None
  | (k', v) :: m' => if String.eqb k' k then Some v else get m' k
  end.

(** [m[k] = v] *)
Fixpoint set {A} (m : list (string * A)) (k : string) (v : A)
  : list (string * A) :=
  match m with
  | [] => [(k, v)]
  | (k', v') :: m' =>
      if String.eqb k' k then (k, v) :: m' else (k', v') :: set m' k v
  end.

(** [delete(m, k)] *)
Fixpoint delete {A} (m : list (string * A)) (k : string)
  : list (string * A) :=
  match m with
  | [] => []
  | (k', v') :: m' =>
      if String.eqb k' k then m' else (k', v') :: delete m' k
  end.

Definition keys {A} (m : list (string * A)) : list string := map fst m.

End GoMap.

(** [m[k]] on a [map[string]interface{}]: the zero value [nil] when absent. *)
Definition index (m : Doc) (k : string) : Value :=
  match GoMap.get m k with
  | Some v => v
  | None => VNil
  end.

(** ** Strings *)

(** [strings.HasPrefix(s, "$")] *)
Definition hasDollar (s : string) : bool :=
  match s with
  | String c _ => Ascii.eqb c "$"%char
  | EmptyString => false
  end.

(** [strings.TrimPrefix(s, "$")] *)
Definition trimDollar (s : string) : string :=
  match s with
  | String c s' => if Ascii.eqb c "$"%char then s' else s
  | EmptyString => s
  end.

(** [strings.Split(s, ".")] *)
Fixpoint splitDots (s : string) : list string :=
  match s with
  | EmptyString => [""]
  | String c s' =>
      if Ascii.eqb c "."%char then "" :: splitDots s'
      else match splitDots s' with
           | part :: parts => String c part :: parts
           | [] => [String c ""]
           end
  end.

(** ** Numbers *)

Module F64.

Definition prec : Z := 53.
Definition emax : Z := 1024.

Definition eqb : float64 -> float64 -> bool := SFeqb.
Definition ltb : float64 -> float64 -> bool := SFltb.
Definition leb : float64 -> float64 -> bool := SFleb.
Definition add : float64 -> float64 -> float64 := SFadd prec emax.
Definition mul : float64 -> float64 -> float64 := SFmul prec emax.
Definition div : float64 -> float64 -> float64 := SFdiv prec emax.

(** [float64(n)] for an integer [n] *)
Definition of_Z (n : Z) : float64 := binary_normalize prec emax n 0 false.

Definition zero : float64 := S754_zero false.
Definition one : float64 := of_Z 1.

(** [math.Floor] *)
Definition Floor (f : float64) : float64 :=
  match f with
  | S754_finite s m e =>
      if 0 <=? e then f
      else binary_normalize prec emax
             (Z.shiftl (cond_Zopp s (Zpos m)) e) 0 s
  | _ => f
  end.

Definition isNaN (f : float64) : bool :=
  match f with
  | S754_nan => true
  | _ => false
  end.

Definition isPosInf (f : float64) : bool :=
  match f with
  | S754_infinity false => true
  | _ => false
  end.

Definition signbit (f : float64) : bool :=
  match f with
  | S754_zero s | S754_infinity s | S754_finite s _ _ => s
  | S754_nan => false
  end.

(** [math.Max] *)
Definition Max (x y : float64) : float64 :=
  if isPosInf x || isPosInf y then S754_infinity false
  else if isNaN x || isNaN y then S754_nan
  else if eqb x zero && eqb x y then (if signbit x then y else x)
  else if ltb y x then x
  else y.

(** The integer part of a finite float, as [int(f)] truncates it. *)
Definition trunc (f : float64) : option Z :=
  match f with
  | S754_zero _ => Some 0
  | S754_finite s m e => Some (cond_Zopp s (Z.shiftl (Zpos m) e))
  | _ => None
  end.

Definition in_int_range (z : Z) : bool :=
  (- 2 ^ 63 <=? z) && (z <? 2 ^ 63).

End F64.

(** ** What the Go runtime decides *)

Class GoRuntime : Type := {
  (** [strconv.ParseFloat(s, 64)]; [None] when it returns an error *)
  ParseFloat : string -> option float64;
  (** [fmt.Sprintf("%v", v)] for numbers, maps and slices *)
  FormatValue : Value -> string;
  (** [int(f)] when the value of [f] does not fit an [int]: the language
      leaves the result to the implementation *)
  ConvOutOfRange : float64 -> Z;
  (** [strings.TrimSpace] *)
  TrimSpace : string -> string
}.

Section Helpers.
Context `{GoRuntime}.

(** [int(f)] *)
Definition toInt (f : float64) : Z :=
  match F64.trunc f with
  | Some z => if F64.in_int_range z then z else ConvOutOfRange f
  | None => ConvOutOfRange f
  end.

(** [fmt.Sprintf("%v", v)] *)
Definition Sprint (v : Value) : string :=
  match v with
  | VStr s => s
  | VNil => "<nil>"
  | VBool true => "true"
  | VBool false => "false"
  | _ => FormatValue v
  end.

(** query_helpers.go, [toFloat64] *)
Definition toFloat64 (val : Value) : option float64 :=
  match val with
  | VNum v => Some v
  | VInt v => Some (F64.of_Z v)
  | VStr v => ParseFloat v
  | _ => None
  end.

(** query_helpers.go, [getNestedField]: one step of the loop over the
    parts of the path, then the loop *)
Definition nestedStep (current : Value) (part : string) : option Value :=
  match current with
  | VDoc v => Some (index v part)
  | VDocs v => Some (VArr (map (fun item => index item part) v))
  | _ => None
  end.

Fixpoint nestedLoop (current : Value) (parts : list string) : Value :=
  match parts with
  | [] => current
  | part :: parts' =>
      match nestedStep current part with
      | None => VNil
      | Some VNil => VNil
      | Some next => nestedLoop next parts'
      end
  end.

Definition getNestedField (doc : Doc) (field : string) : Value :=
  nestedLoop (VDoc doc) (splitDots field).

End Helpers.

(** ** [$limit] and [$skip] *)

Section Pagination.
Context `{GoRuntime}.

(** The value read under the stage's own key, else under ["value"]. *)
Definition stageNumber (params : Doc) (key : string) : option float64 :=
  match toFloat64 (index params key) with
  | Some f => Some f
  | None => toFloat64 (index params "value")
  end.

(** query_stage_limit.go, [limitStage] *)
Definition limitStage (input : slice Doc) (params : Doc) : slice Doc :=
  match stageNumber params "$limit" with
  | None => input
  | Some limitFloat =>
      let limit := toInt limitFloat in
      if limit <=? 0 then Slice []
      else if Z.of_nat (length (elems input)) <=? limit then input
      else Slice (take (Z.to_nat limit) (elems input))
  end.

(** query_stage_limit.go, [validateLimitStage] *)
Definition validateLimitStage (params : Doc) : option string :=
  match index params "value" with
  | VNum v =>
      if F64.ltb v F64.zero then Some "$limit value must be non-negative"
      else None
  | _ => Some "$limit must have a numeric value"
  end.

(** query_core.go, [skipStage]; [input[n:]] panics for a negative [n] *)
Definition skipStage (input : list Doc) (params : Doc) : outcome (list Doc) :=
  match stageNumber params "$skip" with
  | None => Ret input
  | Some skip =>
      let n := toInt (F64.Max F64.zero (F64.Floor skip)) in
      if Z.of_nat (length input) <? n then Ret []
      else if n <? 0 then Panic "slice bounds out of range"
      else Ret (drop (Z.to_nat n) input)
  end.

(** query_core.go, [validateSkipStage] *)
Definition validateSkipStage (params : Doc) : option string :=
  match index params "value" with
  | VNum v =>
      if F64.ltb v F64.zero then Some "$skip value must be non-negative"
      else None
  | _ => Some "$skip must have a numeric value"
  end.

End Pagination.

(** ** [$sort] *)

(** [sort.SliceStable(data, less)] of Go's library, on the elements rather
    than on their indices.  The library sorts blocks of 20 elements by
    insertion ([for j := i; j > a && less(j, j-1); j-- { swap(j, j-1) }]) and
    merges the blocks; on a slice of at most 20 elements it is exactly the
    insertion sort below, and on a longer one it returns the same slice
    whenever [less] is a strict weak order.  [sink] moves [x] to the left of
    every neighbour it is less than; the prefix is held nearest element
    first. *)
Fixpoint sink {A} (less : A -> A -> bool) (x : A) (before : list A) : list A :=
  match before with
  | [] => [x]
  | y :: before' =>
      if less x y then y :: sink less x before' else x :: y :: before'
  end.

Definition SliceStable {A} (less : A -> A -> bool) (data : list A) : list A :=
  rev (fold_left (fun before x => sink less x before) data []).

Section Sort.
Context `{GoRuntime}.

(** The closure that unnamed/part_001, [sortStage] hands to the sort, on the
    documents [results[i]] and [results[j]]: one turn of its loop per entry
    of [params], in the order of this [range].  The closure ranges over
    [params] anew at every comparison: within one sort [sortLess params] is
    the closure for a single sort key, or where the sort compares once; with
    more keys and more comparisons it is the closure of the executions whose
    ranges all visit the keys in this one order. *)
Fixpoint sortLess (params : Doc) (di dj : Doc) : bool :=
  match params with
  | [] => false
  | (field, direction) :: params' =>
      match direction with
      | VNum dirFloat =>
          let iVal := index di field in
          let jVal := index dj field in
          match toFloat64 iVal, toFloat64 jVal with
          | Some iNum, Some jNum =>
              if F64.eqb iNum jNum then sortLess params' di dj
              else if F64.eqb dirFloat F64.one then F64.ltb iNum jNum
              else F64.ltb jNum iNum
          | _, _ =>
              let iStr := Sprint iVal in
              let jStr := Sprint jVal in
              if String.eqb iStr jStr then sortLess params' di dj
              else if F64.eqb dirFloat F64.one then String.ltb iStr jStr
              else String.ltb jStr iStr
          end
      | _ => sortLess params' di dj
      end
  end.

(** unnamed/part_001, [sortStage] *)
Definition sortStage (input : list Doc) (params : Doc) : list Doc :=
  SliceStable (sortLess params) input.

(** unnamed/part_001, [validateSortStage]: the first entry in error, in the
    order of the [range] *)
Fixpoint validateSortFields (params : Doc) : option string :=
  match params with
  | [] => None
  | (field, val) :: params' =>
      match val with
      | VNum vNum =>
          if negb (F64.eqb vNum F64.one) && negb (F64.eqb vNum (F64.of_Z (-1)))
          then Some "$sort field must be either 1 or -1"
          else validateSortFields params'
      | _ => Some "$sort field must have a numeric value (1 or -1)"
      end
  end.

Definition validateSortStage (params : Doc) : option string :=
  match params with
  | [] => Some "$sort stage must not be empty"
  | _ => validateSortFields params
  end.

End Sort.

(** ** [$sample] *)

(** The random source of [math/rand]: [rnd k] is the [k]-th raw draw, and
    [rand.Intn(n)] reduces it below [n]. *)
Definition Intn (rnd : nat -> nat) (k : nat) (n : nat) : nat :=
  (rnd k `mod` n)%nat.

(** [data[i], data[j] = data[j], data[i]] *)
Definition swap {A} (i j : nat) (data : list A) : list A :=
  match data !! i, data !! j with
  | Some x, Some y => <[j:=x]> (<[i:=y]> data)
  | _, _ => data
  end.

(** [rand.Shuffle(n, swap)]:
    [for i := n - 1; i > 0; i-- { j := Intn(i + 1); swap(i, j) }],
    entered with [i] and the [k]-th draw next. *)
Fixpoint shuffleLoop {A} (rnd : nat -> nat) (k : nat) (i : nat) (data : list A)
  : list A :=
  match i with
  | O => data
  | S i' => shuffleLoop rnd (S k) i' (swap i (Intn rnd k (S i)) data)
  end.

Definition Shuffle {A} (rnd : nat -> nat) (data : list A) : list A :=
  shuffleLoop rnd 0 (length data - 1) data.

(** The loop of [sampleStage] that draws [n] documents from [temp] without
    replacement: take [temp[j]], move the last element to [j], shrink.
    [temp] is never empty there, since [n < len(input)]. *)
Fixpoint drawLoop {A} (rnd : nat -> nat) (k : nat) (n : nat) (temp : list A)
  : list A :=
  match n with
  | O => []
  | S n' =>
      let j := Intn rnd k (length temp) in
      match temp !! j, last temp with
      | Some picked, Some final =>
          picked :: drawLoop rnd (S k) n'
                      (take (length temp - 1) (<[j:=final]> temp))
      | _, _ => []
      end
  end.

Section Sample.
Context `{GoRuntime}.

(** unnamed/part_002, [sampleStage]; [make([]T, n)] panics for a negative
    [n] *)
Definition sampleStage (rnd : nat -> nat) (input : list Doc) (params : Doc)
  : outcome (res (list Doc)) :=
  match GoMap.get params "size" with
  | None => Ret (Err "$sample stage requires a 'size' parameter")
  | Some sizeVal =>
      match toFloat64 sizeVal with
      | None => Ret (Err "$sample 'size' parameter must be a number")
      | Some size =>
          let n := toInt (F64.Max F64.zero (F64.Floor size)) in
          if n =? 0 then Ret (Ok [])
          else if Z.of_nat (length input) <=? n
          then Ret (Ok (Shuffle rnd input))
          else if n <? 0 then Panic "makeslice: len out of range"
          else Ret (Ok (drawLoop rnd 0 (Z.to_nat n) input))
      end
  end.

(** unnamed/part_002, [validateSampleStage] *)
Definition validateSampleStage (params : Doc) : option string :=
  match GoMap.get params "size" with
  | None => Some "$sample stage requires a 'size' parameter"
  | Some sizeVal =>
      match toFloat64 sizeVal with
      | None => Some "$sample 'size' parameter must be a number"
      | Some size =>
          if F64.leb size F64.zero
          then Some "$sample 'size' parameter must be a positive number"
          else None
      end
  end.

End Sample.

(** ** Equality of interface values *)

(** [a == b] on two [interface{}] values: false when the dynamic types
    differ, the comparison of the two values when the type is comparable, a
    run-time panic when it is a map or a slice. *)
Definition ifaceEq (a b : Value) : outcome bool :=
  match a, b with
  | VNil, VNil => Ret true
  | VBool x, VBool y => Ret (Bool.eqb x y)
  | VNum x, VNum y => Ret (F64.eqb x y)
  | VInt x, VInt y => Ret (x =? y)
  | VStr x, VStr y => Ret (String.eqb x y)
  | VDoc _, VDoc _ =>
      Panic "comparing uncomparable type map[string]interface {}"
  | VArr _, VArr _ =>
      Panic "comparing uncomparable type []interface {}"
  | VDocs _, VDocs _ =>
      Panic "comparing uncomparable type []map[string]interface {}"
  | _, _ => Ret false
  end.

(** ** The database *)

(** [db.Collection(name)]: the documents stored under a collection name,
    decoded afresh at every call. *)
Record DB : Type := {
  Collection : string -> res (list Doc)
}.

(** ** [$lookup] *)

Record lookupParameters : Type := {
  from : string;
  localField : string;
  foreignField : string;
  as_ : string
}.

(** query_stage_lookup.go, [validateLookupParams] *)
Definition validateLookupParams (params : Doc) : res lookupParameters :=
  match index params "from", index params "localField",
        index params "foreignField", index params "as" with
  | VStr from, VStr localField, VStr foreignField, VStr as_ =>
      if String.eqb from "" || String.eqb localField ""
         || String.eqb foreignField "" || String.eqb as_ ""
      then Err "lookup parameters cannot be empty strings"
      else Ok {| from := from; localField := localField;
                 foreignField := foreignField; as_ := as_ |}
  | _, _, _, _ => Err "invalid lookup parameters: missing or incorrect type"
  end.

(** query_stage_lookup.go, [deepCopyDocument]: a new map with the entries of
    [doc]; the values are not copied.  The embedding has values and no
    references, so the new map is the same association list. *)
Definition deepCopyDocument (doc : Doc) : Doc := doc.

(** query_stage_lookup.go, [findMatchingDocuments]: the loop over the
    foreign collection, then the function *)
Fixpoint matchingLoop (localValue : Value) (foreignCollection : list Doc)
  (foreignField : string) : outcome (list Doc) :=
  match foreignCollection with
  | [] => Ret []
  | foreignDoc :: rest =>
      same ← ifaceEq (index foreignDoc foreignField) localValue;
      matchedDocs ← matchingLoop localValue rest foreignField;
      Ret (if same : bool then deepCopyDocument foreignDoc :: matchedDocs
           else matchedDocs)
  end.

Definition findMatchingDocuments (doc : Doc) (foreignCollection : list Doc)
  (localField foreignField : string) : outcome (list Doc) :=
  match GoMap.get doc localField with
  | None => Ret []
  | Some localValue => matchingLoop localValue foreignCollection foreignField
  end.

(** query_stage_lookup.go, [lookupStage]: the loop over the input, then the
    stage *)
Fixpoint lookupLoop (input : list Doc) (foreignCollection : list Doc)
  (p : lookupParameters) : outcome (list Doc) :=
  match input with
  | [] => Ret []
  | doc :: rest =>
      let newDoc := deepCopyDocument doc in
      matchedDocs ← findMatchingDocuments doc foreignCollection
                      (localField p) (foreignField p);
      results ← lookupLoop rest foreignCollection p;
      Ret (GoMap.set newDoc (as_ p) (VDocs matchedDocs) :: results)
  end.

Definition lookupStage (db : DB) (input : list Doc) (params : Doc)
  : outcome (list Doc) :=
  match validateLookupParams params with
  | Err _ => Ret input
  | Ok lookupParams =>
      match Collection db (from lookupParams) with
      | Err _ => Ret input
      | Ok foreignCollection => lookupLoop input foreignCollection lookupParams
      end
  end.

(** query_stage_lookup.go, [validateLookupStage] *)
Fixpoint validateLookupFields (requiredFields : list string) (params : Doc)
  : option string :=
  match requiredFields with
  | [] => None
  | field :: rest =>
      match GoMap.get params field with
      | None => Some "$lookup is missing required field"
      | Some (VStr _) => validateLookupFields rest params
      | Some _ => Some "$lookup field must be a string"
      end
  end.

Definition validateLookupStage (params : Doc) : option string :=
  validateLookupFields ["from"; "localField"; "foreignField"; "as"] params.

(** ** [$addFields] *)

Section AddFields.
Context `{GoRuntime}.

(** query_stage_lookup.go, [isValidExpressionOperator] *)
Definition isValidExpressionOperator (op : string) : bool :=
  String.eqb op "$concat" || String.eqb op "$toString".

(** query_stage_lookup.go, [exprToString] after its operand is evaluated *)
Definition toStringOf (value : Value) : res Value :=
  match value with
  | VNil => Ok (VStr "")
  | VStr v => Ok (VStr v)
  | VNum _ | VInt _ | VBool _ => Ok (VStr (Sprint value))
  | _ => Err "$toString cannot convert type"
  end.

(** query_stage_lookup.go, the method [evaluateExpression] with [exprConcat]
    and [exprToString], which call it back on the operands *)
Fixpoint evaluateExpression (doc : Doc) (expr : Value) {struct expr}
  : res Value :=
  match expr with
  | VStr v =>
      if hasDollar v then
        match GoMap.get doc (trimDollar v) with
        | None => Ok VNil
        | Some value => Ok value
        end
      else Ok (VStr v)
  | VDoc v =>
      match v with
      | [(op, params)] =>
          if negb (isValidExpressionOperator op)
          then Err "unsupported expression operator"
          else if String.eqb op "$concat" then
            match params with
            | VArr parts =>
                (fix concat (parts : list Value) (result : string)
                   : res Value :=
                   match parts with
                   | [] => Ok (VStr result)
                   | part :: parts' =>
                       match evaluateExpression doc part with
                       | Err e => Err e
                       | Ok VNil => concat parts' result
                       | Ok str => concat parts' (result ++ Sprint str)
                       end
                   end) parts ""
            | _ => Err "$concat expects an array of expressions"
            end
          else if String.eqb op "$toString" then
            match evaluateExpression doc params with
            | Err e => Err e
            | Ok value => toStringOf value
            end
          else Err "unsupported expression operator"
      | _ => Err "invalid expression object"
      end
  | VNum _ | VInt _ | VBool _ | VNil => Ok expr
  | _ => Err "unsupported expression type"
  end.

(** query_stage_lookup.go, [validateAddFieldsStage]: the loop over the
    entries, then the function *)
Fixpoint validateAddFieldsEntries (params : Doc) : option string :=
  match params with
  | [] => None
  | (fieldName, expr) :: params' =>
      if String.eqb (TrimSpace fieldName) ""
      then Some "$addFields/$set field name must be a non-empty string"
      else
        match expr with
        | VStr exprTyped =>
            if hasDollar exprTyped && String.eqb (trimDollar exprTyped) ""
            then Some "$addFields/$set stage has an invalid field reference"
            else validateAddFieldsEntries params'
        | VNum _ | VInt _ | VBool _ | VDoc _ | VArr _ =>
            validateAddFieldsEntries params'
        | _ => Some "$addFields/$set stage has unsupported expression type"
        end
  end.

Definition validateAddFieldsStage (params : Doc) : option string :=
  match params with
  | [] => Some "$addFields/$set stage must not be empty"
  | _ => validateAddFieldsEntries params
  end.

(** query_stage_lookup.go, [addFieldsStage]: the inner loop over the
    fields, which writes into the document it reads from; the loop over the
    documents; the stage *)
Fixpoint addFieldsToDoc (doc : Doc) (params : Doc) : res Doc :=
  match params with
  | [] => Ok doc
  | (field, expr) :: params' =>
      match evaluateExpression doc expr with
      | Err e => Err "error evaluating expression for field"
      | Ok value => addFieldsToDoc (GoMap.set doc field value) params'
      end
  end.

Fixpoint addFieldsLoop (input : list Doc) (params : Doc) : res (list Doc) :=
  match input with
  | [] => Ok []
  | doc :: rest =>
      match addFieldsToDoc doc params with
      | Err e => Err e
      | Ok doc' =>
          match addFieldsLoop rest params with
          | Err e => Err e
          | Ok rest' => Ok (doc' :: rest')
          end
      end
  end.

Definition addFieldsStage (input : list Doc) (params : Doc)
  : res (list Doc) :=
  match validateAddFieldsStage params with
  | Some e => Err "validation error in $addFields stage"
  | None => addFieldsLoop input params
  end.

End AddFields.

(** ** [$unwind] *)

(** unnamed/part_003, [cloneDocument]: a new map with the entries of
    [original]; as for [deepCopyDocument], the same association list. *)
Definition cloneDocument (original : Doc) : Doc := original.

(** One unwound document: the clone with [path] set to the element, and the
    index under [includeArrayIndexField] when that name is not empty. *)
Definition unwoundDoc (doc : Doc) (path : string)
  (includeArrayIndexField : string) (idx : nat) (itemMap : Doc) : Doc :=
  let newDoc := GoMap.set (cloneDocument doc) path (VDoc itemMap) in
  if String.eqb includeArrayIndexField "" then newDoc
  else GoMap.set newDoc includeArrayIndexField (VInt (Z.of_nat idx)).

(** The element of a [[]interface{}] as a map: itself when it is one,
    wrapped under the key ["value"] otherwise. *)
Definition itemAsMap (item : Value) : Doc :=
  match item with
  | VDoc itemMap => itemMap
  | _ => [("value", item)]
  end.

(** unnamed/part_003, [unwindStage]: what one input document contributes *)
Definition unwindDoc (doc : Doc) (path : string)
  (preserveNullAndEmptyArrays : bool) (includeArrayIndexField : string)
  : list Doc :=
  match GoMap.get doc path with
  | None | Some VNil => if preserveNullAndEmptyArrays then [doc] else []
  | Some (VDocs arr) =>
      match arr with
      | [] => if preserveNullAndEmptyArrays then [doc] else []
      | _ => imap (unwoundDoc doc path includeArrayIndexField) arr
      end
  | Some (VArr arr) =>
      match arr with
      | [] => if preserveNullAndEmptyArrays then [doc] else []
      | _ => imap (fun idx item =>
                     unwoundDoc doc path includeArrayIndexField idx
                       (itemAsMap item)) arr
      end
  | Some arr => [GoMap.set (cloneDocument doc) path arr]
  end.

(** unnamed/part_003, [unwindStage] *)
Definition unwindStage (input : list Doc) (params : Doc) : list Doc :=
  match index params "path" with
  | VStr pathParam =>
      if String.eqb pathParam "" then input
      else
        let path := trimDollar pathParam in
        let preserveNullAndEmptyArrays :=
          match index params "preserveNullAndEmptyArrays" with
          | VBool b => b
          | _ => false
          end in
        let includeArrayIndexField :=
          match index params "includeArrayIndex" with
          | VStr s => s
          | _ => ""
          end in
        concat (map (fun doc => unwindDoc doc path preserveNullAndEmptyArrays
                                  includeArrayIndexField) input)
  | _ => input
  end.

(** unnamed/part_003, [validateUnwindStage] *)
Definition validateUnwindStage (params : Doc) : option string :=
  match GoMap.get params "path" with
  | None => Some "$unwind is missing 'path' field"
  | Some (VStr pathStr) =>
      if String.eqb pathStr ""
      then Some "$unwind 'path' must be a non-empty string"
      else
        match GoMap.get params "preserveNullAndEmptyArrays" with
        | Some (VBool _) | None =>
            match GoMap.get params "includeArrayIndex" with
            | Some (VStr _) | None => None
            | Some _ =>
                Some "$unwind 'includeArrayIndex' must be a string if set"
            end
        | Some _ =>
            Some "$unwind 'preserveNullAndEmptyArrays' must be a boolean if set"
        end
  | Some _ => Some "$unwind 'path' must be a non-empty string"
  end.

(** ** The rest of the package *)

(** The functions of the package that the embedding does not open: the
    statements below hold whatever they compute. *)
Class Package : Type := {
  (** query_stage_group.go: the accumulators [$addToSet], [$stdDevPop],
      [$stdDevSamp], [$mergeObjects], [$accumulator], [$arrayToObject],
      [$maxN], [$minN], [$firstN], [$lastN]; [None] for a name that is no
      case of [groupStage] *)
  otherAccumulator : string -> list Doc -> Value -> outcome (option Value);
  (** query_stage_project.go, the function [evaluateExpression] *)
  projectExpression : Doc -> Value -> outcome Value;
  (** the stages [$match], [$facet], [$sortByCount], [$count], [$unset],
      [$bucket], [$bucketAuto] and their validators *)
  matchStage : list Doc -> Doc -> outcome (list Doc);
  facetStage : list Doc -> Doc -> outcome (list Doc);
  sortByCountStage : list Doc -> Doc -> outcome (res (list Doc));
  countStage : list Doc -> Doc -> outcome (res (list Doc));
  unsetStage : list Doc -> Doc -> outcome (res (list Doc));
  bucketStage : list Doc -> Doc -> outcome (res (list Doc));
  bucketAutoStage : list Doc -> Doc -> outcome (res (list Doc));
  validateMatchStage : Doc -> option string;
  validateFacetStage : Doc -> option string;
  validateSortByCountStage : Doc -> option string;
  validateCountStage : Doc -> option string;
  validateUnsetStage : Doc -> option string;
  validateBucketStage : Doc -> option string;
  validateBucketAutoStage : Doc -> option string
}.

(** ** [$group] *)

(** The Go map [groups], of type [map[interface{}][]map[string]interface{}],
    with its keys in the order of their first insertion. *)
Abbreviation Groups := (list (Value * list Doc)).

(** A map or a slice cannot be the key of a Go map: hashing it panics. *)
Definition hashable (v : Value) : bool :=
  match v with
  | VDoc _ | VArr _ | VDocs _ => false
  | _ => true
  end.

(** Equality of two keys of a Go map. *)
Definition keyEqb (a b : Value) : bool :=
  match ifaceEq a b with
  | Ret same => same
  | Panic _ => false
  end.

(** [groups[key] = append(groups[key], doc)] *)
Fixpoint groupsAppend (groups : Groups) (key : Value) (doc : Doc) : Groups :=
  match groups with
  | [] => [(key, [doc])]
  | (k, docs) :: groups' =>
      if keyEqb k key then (k, (docs ++ [doc])%list) :: groups'
      else (k, docs) :: groupsAppend groups' key doc
  end.

(** query_stage_group.go, [groupStage], second loop *)
Fixpoint buildGroups (input : list Doc) (groupIDField : string)
  (groups : Groups) : outcome Groups :=
  match input with
  | [] => Ret groups
  | doc :: rest =>
      let groupValue := index doc groupIDField in
      if hashable groupValue
      then buildGroups rest groupIDField (groupsAppend groups groupValue doc)
      else Panic "hash of unhashable type"
  end.

(** query_stage_group.go, [groupStage], first loop: the field named by
    ["_id"] and the map [aggExpressions] *)
Fixpoint groupParams (params : Doc) (groupIDField : string)
  (aggExpressions : list (string * Doc)) : string * list (string * Doc) :=
  match params with
  | [] => (groupIDField, aggExpressions)
  | (k, v) :: params' =>
      if String.eqb k "_id" then
        match v with
        | VStr idStr =>
            if hasDollar idStr
            then groupParams params' (trimDollar idStr) aggExpressions
            else groupParams params' groupIDField aggExpressions
        | _ => groupParams params' groupIDField aggExpressions
        end
      else
        match v with
        | VDoc expr =>
            groupParams params' groupIDField (GoMap.set aggExpressions k expr)
        | _ => groupParams params' groupIDField aggExpressions
        end
  end.

(** query_core.go, [isValidGroupOperator] *)
Definition isValidGroupOperator (op : string) : bool :=
  existsb (String.eqb op)
    ["$sum"; "$avg"; "$min"; "$max"; "$push"; "$addToSet"; "$first"; "$last";
     "$stdDevPop"; "$stdDevSamp"; "$count"; "$mergeObjects"; "$percentile";
     "$median"; "$variancePop"; "$varianceSamp"].

(** query_stage_group.go, [validateGroupStage] *)
Fixpoint validateGroupOperators (v : Doc) : option string :=
  match v with
  | [] => None
  | (op, _) :: v' =>
      if isValidGroupOperator op then validateGroupOperators v'
      else Some "$group aggregator is not supported"
  end.

Fixpoint validateGroupFields (params : Doc) : option string :=
  match params with
  | [] => None
  | (field, aggValue) :: params' =>
      if String.eqb field "_id" then validateGroupFields params'
      else
        match aggValue with
        | VDoc v =>
            match validateGroupOperators v with
            | Some e => Some e
            | None => validateGroupFields params'
            end
        | _ => Some "$group field must be an aggregator object"
        end
  end.

Definition validateGroupStage (params : Doc) : option string :=
  match GoMap.get params "_id" with
  | None => Some "$group is missing required field: _id"
  | Some _ => validateGroupFields params
  end.

Section Group.
Context `{GoRuntime} `{Package}.

(** The values of [toFloat64(getNestedField(doc, field))] that convert, in
    the order of the documents. *)
Definition numbersOf (docs : list Doc) (field : string) : list float64 :=
  omap (fun doc => toFloat64 (getNestedField doc field)) docs.

(** query_stage_group.go, [calculateSum]: its second branch, for a
    constant, then the function *)
Definition timesLength (docs : list Doc) (val : Value) : float64 :=
  match toFloat64 val with
  | Some floatVal => F64.mul (F64.of_Z (Z.of_nat (length docs))) floatVal
  | None => F64.zero
  end.

Definition calculateSum (docs : list Doc) (val : Value) : float64 :=
  match val with
  | VStr valStr =>
      if hasDollar valStr
      then fold_left F64.add (numbersOf docs (trimDollar valStr)) F64.zero
      else timesLength docs val
  | _ => timesLength docs val
  end.

(** query_stage_group.go, [calculateMax] and [calculateMin]: [better a b]
    is [a > b] for the maximum and [a < b] for the minimum *)
Definition extremum (better : float64 -> float64 -> bool)
  (docs : list Doc) (val : Value) : float64 :=
  match val with
  | VStr valStr =>
      if hasDollar valStr then
        match numbersOf docs (trimDollar valStr) with
        | [] => F64.zero
        | number :: numbers =>
            fold_left (fun best number => if better number best then number
                                          else best) numbers number
        end
      else F64.zero
  | _ => F64.zero
  end.

Definition calculateMax : list Doc -> Value -> float64 :=
  extremum (fun number maxVal => F64.ltb maxVal number).

Definition calculateMin : list Doc -> Value -> float64 :=
  extremum (fun number minVal => F64.ltb number minVal).

(** query_stage_group.go, [calculateAverage] *)
Definition calculateAverage (docs : list Doc) (val : Value) : float64 :=
  match val with
  | VStr valStr =>
      if hasDollar valStr then
        match numbersOf docs (trimDollar valStr) with
        | [] => F64.zero
        | numbers =>
            F64.div (fold_left F64.add numbers F64.zero)
                    (F64.of_Z (Z.of_nat (length numbers)))
        end
      else F64.zero
  | _ => F64.zero
  end.

Definition isNil (v : Value) : bool :=
  match v with
  | VNil => true
  | _ => false
  end.

(** query_stage_group.go, [collectValues] *)
Definition collectValues (docs : list Doc) (val : Value) : list Value :=
  match val with
  | VStr valStr =>
      if hasDollar valStr
      then List.filter (fun v => negb (isNil v))
             (map (fun doc => getNestedField doc (trimDollar valStr)) docs)
      else []
  | _ => []
  end.

(** query_stage_group.go, [selectFirst] and [selectLast] *)
Definition selectFirst (docs : list Doc) (val : Value) : Value :=
  match val with
  | VStr valStr =>
      if hasDollar valStr then
        match docs with
        | doc :: _ => getNestedField doc (trimDollar valStr)
        | [] => VNil
        end
      else VNil
  | _ => VNil
  end.

Definition selectLast (docs : list Doc) (val : Value) : Value :=
  match val with
  | VStr valStr =>
      if hasDollar valStr then
        match last docs with
        | Some doc => getNestedField doc (trimDollar valStr)
        | None => VNil
        end
      else VNil
  | _ => VNil
  end.

(** The [switch op] of [groupStage], for the accumulators of the embedding:
    the value stored under the output field. *)
Definition ownAccumulator (op : string) (groupDocs : list Doc) (val : Value)
  : option Value :=
  if String.eqb op "$sum" then Some (VNum (calculateSum groupDocs val))
  else if String.eqb op "$avg" then Some (VNum (calculateAverage groupDocs val))
  else if String.eqb op "$max" then Some (VNum (calculateMax groupDocs val))
  else if String.eqb op "$min" then Some (VNum (calculateMin groupDocs val))
  else if String.eqb op "$push" then Some (VArr (collectValues groupDocs val))
  else if String.eqb op "$first" then Some (selectFirst groupDocs val)
  else if String.eqb op "$last" then Some (selectLast groupDocs val)
  else if String.eqb op "$count"
  then Some (VNum (F64.of_Z (Z.of_nat (length groupDocs))))
  else None.

(** The whole [switch]: [None] when the operator is no case of it. *)
Definition accumulate (op : string) (groupDocs : list Doc) (val : Value)
  : outcome (option Value) :=
  match ownAccumulator op groupDocs val with
  | Some v => Ret (Some v)
  | None => otherAccumulator op groupDocs val
  end.

(** The loop over the operators of one aggregation object. *)
Fixpoint applyOperators (groupResult : Doc) (fieldName : string)
  (expr : Doc) (groupDocs : list Doc) : outcome Doc :=
  match expr with
  | [] => Ret groupResult
  | (op, val) :: expr' =>
      computed ← accumulate op groupDocs val;
      applyOperators
        (match computed with
         | Some v => GoMap.set groupResult fieldName v
         | None => groupResult
         end) fieldName expr' groupDocs
  end.

(** The loop over [aggExpressions]. *)
Fixpoint applyExpressions (groupResult : Doc)
  (aggExpressions : list (string * Doc)) (groupDocs : list Doc)
  : outcome Doc :=
  match aggExpressions with
  | [] => Ret groupResult
  | (fieldName, expr) :: aggExpressions' =>
      groupResult' ← applyOperators groupResult fieldName expr groupDocs;
      applyExpressions groupResult' aggExpressions' groupDocs
  end.

(** The document of one group. *)
Definition groupResultOf (aggExpressions : list (string * Doc))
  (group : Value * list Doc) : outcome Doc :=
  applyExpressions [("_id", fst group)] aggExpressions (snd group).

(** query_stage_group.go, [groupStage], third loop, over the groups in the
    order given. *)
Fixpoint groupResults (aggExpressions : list (string * Doc))
  (groups : Groups) : outcome (list Doc) :=
  match groups with
  | [] => Ret []
  | group :: groups' =>
      groupResult ← groupResultOf aggExpressions group;
      results ← groupResults aggExpressions groups';
      Ret (groupResult :: results)
  end.

(** query_stage_group.go, [groupStage].  The third loop is a [range] over
    the map [groups]: [visit] is the order in which the execution at hand
    visits its entries, a permutation of them. *)
Definition groupStage (visit : Groups -> Groups) (input : list Doc)
  (params : Doc) : outcome (list Doc) :=
  let '(groupIDField, aggExpressions) := groupParams params "" [] in
  groups ← buildGroups input groupIDField [];
  groupResults aggExpressions (visit groups).

End Group.

(** ** [$project] *)

Inductive projectionMode : Type :=
| include
| exclude.

(** query_stage_project.go, [determineProjectionMode]: the loop, entered
    with the two flags, then what follows it *)
Fixpoint scanProjection (params : Doc) (hasInclusion hasExclusion : bool)
  : res projectionMode :=
  match params with
  | [] => Ok (if hasInclusion then include else exclude)
  | (field, raw) :: params' =>
      match raw with
      | VNum spec =>
          if String.eqb field "_id"
          then scanProjection params' hasInclusion hasExclusion
          else
            let hasInclusion' := hasInclusion || F64.eqb spec F64.one in
            let hasExclusion' :=
              hasExclusion
              || (negb (F64.eqb spec F64.one) && F64.eqb spec F64.zero) in
            if hasInclusion' && hasExclusion'
            then Err "cannot mix inclusion and exclusion in the same projection"
            else scanProjection params' hasInclusion' hasExclusion'
      | _ => scanProjection params' hasInclusion hasExclusion
      end
  end.

Definition determineProjectionMode (params : Doc) : res projectionMode :=
  scanProjection params false false.

(** query_stage_project.go, [validateProjectStage] *)
Fixpoint validateProjectEntries (params : Doc) : option string :=
  match params with
  | [] => None
  | (field, val) :: params' =>
      match val with
      | VNum v =>
          if negb (F64.eqb v F64.one) && negb (F64.eqb v F64.zero)
          then Some "$project field must be 1 or 0"
          else validateProjectEntries params'
      | VStr v =>
          if hasDollar v then validateProjectEntries params'
          else Some "$project field has unexpected type"
      | VBool _ | VDoc _ => validateProjectEntries params'
      | _ => Some "$project field has unexpected type"
      end
  end.

Definition validateProjectStage (params : Doc) : option string :=
  match params with
  | [] => Some "$project stage must not be empty"
  | _ => validateProjectEntries params
  end.

Section Project.
Context `{Package}.

(** query_stage_project.go, [projectStage]: the loop over the specification
    for one document *)
Fixpoint projectFields (mode : projectionMode) (doc : Doc) (params : Doc)
  (projectedDoc : Doc) : outcome Doc :=
  match params with
  | [] => Ret projectedDoc
  | (field, rawSpec) :: params' =>
      match rawSpec with
      | VNum spec =>
          match mode with
          | include =>
              if F64.eqb spec F64.one then
                match GoMap.get doc field with
                | Some val =>
                    projectFields mode doc params'
                      (GoMap.set projectedDoc field val)
                | None => projectFields mode doc params' projectedDoc
                end
              else projectFields mode doc params' projectedDoc
          | exclude =>
              if F64.eqb spec F64.zero
              then projectFields mode doc params'
                     (GoMap.delete projectedDoc field)
              else projectFields mode doc params' projectedDoc
          end
      | _ =>
          value ← projectExpression doc rawSpec;
          projectFields mode doc params' (GoMap.set projectedDoc field value)
      end
  end.

Definition projectDoc (mode : projectionMode) (params : Doc) (doc : Doc)
  : outcome Doc :=
  projectedDoc ← projectFields mode doc params
                   (match mode with
                    | include => []
                    | exclude => cloneDocument doc
                    end);
  Ret (match GoMap.get params "_id", mode, GoMap.get doc "_id" with
       | None, include, Some val => GoMap.set projectedDoc "_id" val
       | _, _, _ => projectedDoc
       end).

Fixpoint projectLoop (mode : projectionMode) (params : Doc)
  (input : list Doc) : outcome (list Doc) :=
  match input with
  | [] => Ret []
  | doc :: rest =>
      projectedDoc ← projectDoc mode params doc;
      results ← projectLoop mode params rest;
      Ret (projectedDoc :: results)
  end.

(** query_stage_project.go, [projectStage] *)
Definition projectStage (input : list Doc) (params : Doc)
  : outcome (list Doc) :=
  match determineProjectionMode params with
  | Err _ => Ret input
  | Ok mode => projectLoop mode params input
  end.

End Project.

(** ** The runner *)

(** query_core.go, [AggregationStage] *)
Record AggregationStage : Type := {
  Stage : string;
  Params : Doc
}.

(** What one execution of [Query] draws and picks: the raw draws of the
    random source for the stage at each position of the pipeline, and the
    order in which a [range] visits the groups of a [$group] stage. *)
Record Choices : Type := {
  draws : nat -> nat -> nat;
  visit : Groups -> Groups
}.

(** query_core.go, [parseAggregationStagesJSON]: the [switch] on the type of
    the value of a stage *)
Definition stageParams (params : Value) : option Doc :=
  match params with
  | VDoc v => Some v
  | VStr _ => Some [("path", params)]
  | VNum _ | VInt _ | VBool _ => Some [("value", params)]
  | _ => None
  end.

(** query_core.go, [Query]: the names whose case in the [switch] is empty *)
Definition emptyCases : list string :=
  ["$unionWith"; "$redact"; "$graphLookup"; "$geoNear"; "$fill";
   "$replaceRoot"; "$replaceWith"; "$set"].

Section Runner.
Context `{GoRuntime} `{Package}.

(** query_core.go, [validateStage] *)
Definition validateStage (stageName : string) (params : Doc)
  : option string :=
  if String.eqb stageName "$match" then validateMatchStage params
  else if String.eqb stageName "$project" then validateProjectStage params
  else if String.eqb stageName "$group" then validateGroupStage params
  else if String.eqb stageName "$facet" then validateFacetStage params
  else if String.eqb stageName "$sample" then validateSampleStage params
  else if String.eqb stageName "$sort" then validateSortStage params
  else if String.eqb stageName "$count" then validateCountStage params
  else if String.eqb stageName "$limit" then validateLimitStage params
  else if String.eqb stageName "$sortByCount"
  then validateSortByCountStage params
  else if String.eqb stageName "$skip" then validateSkipStage params
  else if String.eqb stageName "$bucket" then validateBucketStage params
  else if String.eqb stageName "$bucketAuto"
  then validateBucketAutoStage params
  else if String.eqb stageName "$lookup" then validateLookupStage params
  else if String.eqb stageName "$unset" then validateUnsetStage params
  else if String.eqb stageName "$unwind" then validateUnwindStage params
  else if String.eqb stageName "$addFields" || String.eqb stageName "$set"
  then validateAddFieldsStage params
  else Some "unsupported aggregation stage".

(** query_core.go, [parseAggregationStagesJSON], from the decoded stage
    objects on: the loop over the entries of one object, then the loop over
    the objects *)
Fixpoint parseStageMap (stageMap : Doc) : res (list AggregationStage) :=
  match stageMap with
  | [] => Ok []
  | (stageName, params) :: stageMap' =>
      match stageParams params with
      | None => Err "invalid parameters for stage"
      | Some paramsMap =>
          match validateStage stageName paramsMap with
          | Some e => Err e
          | None =>
              match parseStageMap stageMap' with
              | Err e => Err e
              | Ok stages =>
                  Ok ({| Stage := stageName; Params := paramsMap |} :: stages)
              end
          end
      end
  end.

Fixpoint parseAggregationStages (stageData : list Doc)
  : res (list AggregationStage) :=
  match stageData with
  | [] => Ok []
  | stageMap :: stageData' =>
      match parseStageMap stageMap with
      | Err e => Err e
      | Ok stages =>
          match parseAggregationStages stageData' with
          | Err e => Err e
          | Ok stages' => Ok (stages ++ stages')%list
          end
      end
  end.

(** The value of a stage that returns no error. *)
Definition noError (o : outcome (list Doc)) : outcome (res (list Doc)) :=
  docs ← o; Ret (Ok docs).

(** query_core.go, [Query]: the [switch] on the name of the stage; its
    default case logs the name and leaves the documents as they are *)
Definition runStage (db : DB) (rnd : nat -> nat) (order : Groups -> Groups)
  (stage : AggregationStage) (stageInput : list Doc)
  : outcome (res (list Doc)) :=
  let name := Stage stage in
  let params := Params stage in
  if String.eqb name "$match" then noError (matchStage stageInput params)
  else if String.eqb name "$project"
  then noError (projectStage stageInput params)
  else if String.eqb name "$group"
  then noError (groupStage order stageInput params)
  else if String.eqb name "$facet" then noError (facetStage stageInput params)
  else if String.eqb name "$sort"
  then Ret (Ok (sortStage stageInput params))
  else if String.eqb name "$limit" then
    match limitStage (Slice stageInput) params with
    | NilSlice => Ret (Err "error in $limit stage: invalid limit value")
    | Slice docs => Ret (Ok docs)
    end
  else if String.eqb name "$skip" then noError (skipStage stageInput params)
  else if String.eqb name "$lookup"
  then noError (lookupStage db stageInput params)
  else if String.eqb name "$unwind"
  then Ret (Ok (unwindStage stageInput params))
  else if String.eqb name "$sample" then sampleStage rnd stageInput params
  else if String.eqb name "$sortByCount"
  then sortByCountStage stageInput params
  else if String.eqb name "$count" then countStage stageInput params
  else if String.eqb name "$unset" then
    r ← unsetStage stageInput params;
    Ret (Ok (match r with
             | Ok docs => docs
             | Err _ => []
             end))
  else if String.eqb name "$addFields"
  then Ret (addFieldsStage stageInput params)
  else if String.eqb name "$bucket" then bucketStage stageInput params
  else if String.eqb name "$bucketAuto"
  then bucketAutoStage stageInput params
  else if existsb (String.eqb name) emptyCases then Ret (Ok stageInput)
  else Ret (Ok stageInput).

(** query_core.go, [Query]: the loop over the stages, the [i]-th first *)
Fixpoint runStages (db : DB) (ch : Choices) (i : nat)
  (stages : list AggregationStage) (stageInput : list Doc)
  : outcome (res (list Doc)) :=
  match stages with
  | [] => Ret (Ok stageInput)
  | stage :: stages' =>
      r ← runStage db (draws ch i) (visit ch) stage stageInput;
      match r with
      | Err e => Ret (Err e)
      | Ok docs =>
          if (length docs =? 0)%nat then Ret (Ok docs)
          else runStages db ch (S i) stages' docs
      end
  end.

(** query_core.go, [Query], on the pipeline as [encoding/json] decodes it
    (a text that does not decode is an error of the parsing step) *)
Definition Query (db : DB) (ch : Choices) (collectionName : string)
  (pipeline : list Doc) : outcome (res (list Doc)) :=
  match parseAggregationStages pipeline with
  | Err e => Ret (Err "error parsing aggregation stages")
  | Ok stages =>
      let stageInput :=
        match Collection db collectionName with
        | Ok docs => docs
        | Err _ => []
        end in
      if (length stageInput =? 0)%nat then Ret (Ok [])
      else runStages db ch 0 stages stageInput
  end.

End Runner.

(** ** A runtime, a package and a database to evaluate the code on *)

(** Concrete inputs are evaluated with the following runtime: the
    conversion of amd64, where an out-of-range [int(f)] is the smallest
    [int]; [strconv.ParseFloat] on the strings made of decimal digits, the
    only numeric strings of the inputs below (it rejects every other string
    here, which [strconv] does not); [strings.TrimSpace] for the ASCII white
    space; [fmt] is not called on the inputs below. *)
Definition digitValue (c : ascii) : option Z :=
  let n := Z.of_nat (nat_of_ascii c) in
  if (48 <=? n) && (n <=? 57) then Some (n - 48) else None.

Fixpoint parseDigits (s : string) (acc : Z) : option Z :=
  match s with
  | EmptyString => Some acc
  | String c s' =>
      match digitValue c with
      | Some d => parseDigits s' (10 * acc + d)
      | None => None
      end
  end.

Definition parseFloatDigits (s : string) : option float64 :=
  match s with
  | EmptyString => None
  | _ => F64.of_Z <$> parseDigits s 0
  end.

Definition isSpace (c : ascii) : bool :=
  let n := nat_of_ascii c in
  ((9 <=? n) && (n <=? 13))%nat || (n =? 32)%nat.

Fixpoint trimLeft (s : string) : string :=
  match s with
  | String c s' => if isSpace c then trimLeft s' else s
  | EmptyString => s
  end.

Fixpoint trimRight (s : string) : string :=
  match s with
  | EmptyString => s
  | String c s' =>
      match trimRight s' with
      | EmptyString => if isSpace c then "" else String c ""
      | t => String c t
      end
  end.

#[global] Instance amd64 : GoRuntime := {
  ParseFloat := parseFloatDigits;
  FormatValue := fun _ => "";
  ConvOutOfRange := fun _ => - 2 ^ 63;
  TrimSpace := fun s => trimRight (trimLeft s)
}.

(** The inputs below name no stage and no accumulator outside the
    embedding: this package has none. *)
#[global] Instance noPackage : Package := {
  otherAccumulator := fun _ _ _ => Ret None;
  projectExpression := fun _ _ => Ret VNil;
  matchStage := fun input _ => Ret input;
  facetStage := fun input _ => Ret input;
  sortByCountStage := fun _ _ => Ret (Err "stage outside the embedding");
  countStage := fun _ _ => Ret (Err "stage outside the embedding");
  unsetStage := fun _ _ => Ret (Err "stage outside the embedding");
  bucketStage := fun _ _ => Ret (Err "stage outside the embedding");
  bucketAutoStage := fun _ _ => Ret (Err "stage outside the embedding");
  validateMatchStage := fun _ => Some "stage outside the embedding";
  validateFacetStage := fun _ => Some "stage outside the embedding";
  validateSortByCountStage := fun _ => Some "stage outside the embedding";
  validateCountStage := fun _ => Some "stage outside the embedding";
  validateUnsetStage := fun _ => Some "stage outside the embedding";
  validateBucketStage := fun _ => Some "stage outside the embedding";
  validateBucketAutoStage := fun _ => Some "stage outside the embedding"
}.

(** A database with one collection. *)
Definition oneCollection (name : string) (docs : list Doc) : DB :=
  {| Collection := fun collection =>
       if String.eqb collection name then Ok docs else Ok [] |}.

(** The float of a small integer. *)
Definition num (n : Z) : Value := VNum (F64.of_Z n).

(** An execution that visits the groups in the order of their creation, and
    one that visits them in the opposite order. *)
Definition inOrder : Choices :=
  {| draws := fun _ _ => O; visit := fun groups => groups |}.


(** ** The vocabulary of the statements *)

(** A specification has an inclusion and an exclusion outside [_id]. *)
Definition includes (params : Doc) : Prop :=
  exists field spec,
    (field, VNum spec) ∈ params /\ field <> "_id"
    /\ F64.eqb spec F64.one = true.

Definition excludes (params : Doc) : Prop :=
  exists field spec,
    (field, VNum spec) ∈ params /\ field <> "_id"
    /\ F64.eqb spec F64.zero = true.

(** The [_id] parameter names no field: it is no string that begins with a
    dollar sign. *)
Definition namesNoField (params : Doc) : Prop :=
  forall idStr, ("_id", VStr idStr) ∈ params -> hasDollar idStr = false.

Definition isDocument (v : Value) : Prop := exists m, v = VDoc m.

(** What [$unwind] puts under the path for an element of the array. *)
Definition unwound (item : Value) : Value := VDoc (itemAsMap item).







Section GroupDocuments.
Context `{GoRuntime}.



End GroupDocuments.






(** No element of the slice is less than its left neighbour; the slice is
    held last element first. *)
Fixpoint settled {A} (less : A -> A -> bool) (before : list A) : Prop :=
  match before with
  | x :: (y :: _) as before' => less x y = false /\ settled less before'
  | _ => True
  end.

(** * More of the package *)

(** ** Paths *)

(** query_helpers.go, [getNestedFieldExists]: the loop over the parts of the
    path, then the function.  [strings.Split] returns one part at least, so
    the [return] after the loop is never reached. *)
Fixpoint existsLoop (current : Doc) (parts : list string) : Value * bool :=
  match parts with
  | [] => (VNil, false)
  | part :: parts' =>
      match GoMap.get current part with
      | None => (VNil, false)
      | Some val =>
          match parts' with
          | [] => (val, true)
          | _ =>
              match val with
              | VDoc nestedMap => existsLoop nestedMap parts'
              | _ => (VNil, false)
              end
          end
      end
  end.

Definition getNestedFieldExists (doc : Doc) (path : string) : Value * bool :=
  existsLoop doc (splitDots path).

(** query_stage_project.go, [resolveField] *)
Fixpoint resolveLoop (current : Doc) (parts : list string) : Value :=
  match parts with
  | [] => VNil
  | part :: parts' =>
      match GoMap.get current part with
      | None => VNil
      | Some val =>
          match parts' with
          | [] => val
          | _ =>
              match val with
              | VDoc nested => resolveLoop nested parts'
              | _ => VNil
              end
          end
      end
  end.

Definition resolveField (doc : Doc) (path : string) : Value :=
  resolveLoop doc (splitDots path).

(** ** Deep equality *)

(** [reflect.DeepEqual(x, y)] on two [interface{}] values: false when the
    dynamic types differ; [==] on booleans, numbers and strings; slices
    element by element; maps key by key, whatever the order of their entries
    (the keys of a map are distinct).  Go tells a nil slice from an empty
    one, and the embedding does not: this is the comparison of values in
    which no slice and no map is nil, as [encoding/json] decodes them.  Two
    values that share their storage are never compared by the package. *)
Fixpoint DeepEqual (x y : Value) {struct x} : bool :=
  match x, y with
  | VNil, VNil => true
  | VBool a, VBool b => Bool.eqb a b
  | VNum a, VNum b => F64.eqb a b
  | VInt a, VInt b => a =? b
  | VStr a, VStr b => String.eqb a b
  | VArr a, VArr b =>
      (fix elements (a b : list Value) : bool :=
         match a, b with
         | [], [] => true
         | v :: a', w :: b' => DeepEqual v w && elements a' b'
         | _, _ => false
         end) a b
  | VDoc a, VDoc b =>
      (length a =? length b)%nat
      && (fix entries (a : list (string * Value)) : bool :=
            match a with
            | [] => true
            | (k, v) :: a' =>
                match GoMap.get b k with
                | Some w => DeepEqual v w && entries a'
                | None => false
                end
            end) a
  | VDocs a, VDocs b =>
      (fix maps (a b : list (list (string * Value))) : bool :=
         match a, b with
         | [], [] => true
         | m :: a', n :: b' =>
             (length m =? length n)%nat
             && (fix entries (m : list (string * Value)) : bool :=
                   match m with
                   | [] => true
                   | (k, v) :: m' =>
                       match GoMap.get n k with
                       | Some w => DeepEqual v w && entries m'
                       | None => false
                       end
                   end) m
             && maps a' b'
         | _, _ => false
         end) a b
  | _, _ => false
  end.

(** ** What the stages below take from Go's library *)

Class GoLibrary : Type := {
  (** [regexp.MatchString(pattern, s)]; [None] when the pattern does not
      compile *)
  MatchString : string -> string -> option bool;
  (** [math.Mod] *)
  Mod : float64 -> float64 -> float64;
  (** [time.Parse(time.RFC3339, s)] followed by [Format(layout)]; [None]
      when the string is no such date *)
  FormatTime : string -> string -> option string
}.

(** [int] arithmetic wraps around at 64 bits. *)
Definition wrapInt (z : Z) : Z := (z + 2 ^ 63) mod 2 ^ 64 - 2 ^ 63.

(** [strings.ContainsAny(s, " \t\n")] *)
Definition containsBlank (s : string) : bool :=
  existsb (fun c => Ascii.eqb c " "%char || Ascii.eqb c "009"%char
                    || Ascii.eqb c "010"%char)
    (list_ascii_of_string s).

(** ** [$count] *)

Module Count.
Section Count.
Context `{GoRuntime}.

(** [fieldStr, ok := fieldVal.(string); ok && strings.TrimSpace(fieldStr) != ""] *)
Definition fieldNameOf (fieldVal : Value) : res string :=
  match fieldVal with
  | VStr fieldStr =>
      if String.eqb (TrimSpace fieldStr) ""
      then Err "$count 'field' parameter must be a non-empty string"
      else Ok fieldStr
  | _ => Err "$count 'field' parameter must be a non-empty string"
  end.

(** query_stage_count.go, [countStage]: the [switch] that finds the name of
    the field, then the stage.  The count is an [int]. *)
Definition countField (params : Value) : res string :=
  match params with
  | VStr v =>
      if String.eqb (TrimSpace v) ""
      then Err "$count stage requires a non-empty string as the field name"
      else Ok v
  | VDoc v =>
      match GoMap.get v "field" with
      | Some fieldVal => fieldNameOf fieldVal
      | None =>
          match GoMap.get v "$count" with
          | Some fieldVal => fieldNameOf fieldVal
          | None =>
              match GoMap.get v "path" with
              | Some fieldVal => fieldNameOf fieldVal
              | None => Err "$count stage requires a 'field' key in the map"
              end
          end
      end
  | _ => Err "$count stage requires a string or a map with a 'field' key"
  end.

Definition countStage (input : list Doc) (params : Value) : res (list Doc) :=
  match countField params with
  | Err e => Err e
  | Ok fieldName => Ok [[(fieldName, VInt (Z.of_nat (length input)))]]
  end.

(** query_stage_count.go, [validateCountStage] *)
Definition validateCountStage (params : Value) : option string :=
  match params with
  | VStr v =>
      if String.eqb (TrimSpace v) ""
      then Some "$count stage requires a non-empty string as the field name"
      else if hasDollar v
      then Some "$count field name must not start with '$'"
      else if containsBlank v
      then Some "$count field name must not contain whitespace characters"
      else None
  | VDoc v =>
      let found :=
        match GoMap.get v "field" with
        | Some fieldVal => Some fieldVal
        | None =>
            match GoMap.get v "$count" with
            | Some fieldVal => Some fieldVal
            | None => GoMap.get v "path"
            end
        end in
      match found with
      | None => Some "$count stage requires a 'field' parameter in the map"
      | Some (VStr fieldName) =>
          if String.eqb (TrimSpace fieldName) ""
          then Some "$count 'field' parameter must be a non-empty string"
          else if hasDollar fieldName
          then Some "$count 'field' parameter must not start with '$'"
          else if containsBlank fieldName
          then Some "$count 'field' parameter must not contain whitespace characters"
          else None
      | Some _ => Some "$count 'field' parameter must be a non-empty string"
      end
  | _ => Some "$count stage requires a string or a map with a 'field' key"
  end.

End Count.
End Count.

(** ** [$unset] *)

Module Unset.

(** query_stage_unset.go, [validateUnsetStage]: the loop over a
    [[]interface{}] of names, with the two errors it may return; the loop
    over the keys of a map; the function.  No value of the embedding is a
    [[]string]: those two cases of the [switch] are left out. *)
Fixpoint namesOf (emptyName nonString : string) (v : list Value)
  : res (list string) :=
  match v with
  | [] => Ok []
  | field :: v' =>
      match field with
      | VStr s =>
          if String.eqb s "" then Err emptyName
          else match namesOf emptyName nonString v' with
               | Err e => Err e
               | Ok fields => Ok (s :: fields)
               end
      | _ => Err nonString
      end
  end.

Fixpoint keysOf (v : Doc) : res (list string) :=
  match v with
  | [] => Ok []
  | (field, _) :: v' =>
      if String.eqb field ""
      then Err "$unset stage contains an empty field name"
      else match keysOf v' with
           | Err e => Err e
           | Ok fields => Ok (field :: fields)
           end
  end.

Definition validateUnsetStage (params : Value) : res (list string) :=
  match params with
  | VStr v =>
      if String.eqb v "" then Err "$unset stage contains an empty field name"
      else Ok [v]
  | VArr v =>
      namesOf "$unset stage contains an empty field name"
        "$unset stage array contains a non-string field" v
  | VDoc v =>
      match GoMap.get v "path" with
      | Some pathVal =>
          match pathVal with
          | VStr path =>
              if String.eqb path ""
              then Err "$unset stage contains an empty field name in path"
              else Ok [path]
          | VArr path =>
              namesOf "$unset stage contains an empty field name in path"
                "$unset stage path array contains a non-string field" path
          | _ => Err "$unset stage 'path' must be a string or array of strings"
          end
      | None => keysOf v
      end
  | _ =>
      Err "invalid $unset stage parameters: must be a string, array of strings, or map"
  end.

(** query_stage_unset.go, [unsetStage]: a copy of each document, from which
    the fields are deleted one after the other *)
Definition unsetFields (fields : list string) (doc : Doc) : Doc :=
  fold_left GoMap.delete fields doc.

Definition unsetStage (input : list Doc) (params : Value) : res (list Doc) :=
  match validateUnsetStage params with
  | Err e => Err e
  | Ok fields => Ok (map (unsetFields fields) input)
  end.

End Unset.

(** ** [$sortByCount] *)

Module SortByCount.

(** The Go map [countMap], of type [map[interface{}]int], with its keys in
    the order of their first insertion, and [countMap[value]++].  A count
    never exceeds the number of documents, far from the bounds of [int]. *)
Fixpoint increment (countMap : list (Value * Z)) (value : Value)
  : list (Value * Z) :=
  match countMap with
  | [] => [(value, 1)]
  | (k, count) :: countMap' =>
      if keyEqb k value then (k, count + 1) :: countMap'
      else (k, count) :: increment countMap' value
  end.

(** unnamed/part_004, [sortByCountStage], first loop *)
Fixpoint countLoop (input : list Doc) (expr : string)
  (countMap : list (Value * Z)) : outcome (list (Value * Z)) :=
  match input with
  | [] => Ret countMap
  | doc :: rest =>
      let value := index doc expr in
      if hashable value then countLoop rest expr (increment countMap value)
      else Panic "hash of unhashable type"
  end.

(** The document built for one entry of [countMap]. *)
Definition countDoc (entry : Value * Z) : Doc :=
  [("_id", entry.1); ("count", VInt entry.2)].

Section SortByCount.
Context `{GoRuntime}.

(** The closure handed to [sort.Slice], on [result[i]] and [result[j]]. *)
Definition byCount (di dj : Doc) : bool :=
  match toFloat64 (index di "count"), toFloat64 (index dj "count") with
  | Some countI, Some countJ => F64.ltb countJ countI
  | _, _ =>
      let intCountI := match index di "count" with VInt n => n | _ => 0 end in
      let intCountJ := match index dj "count" with VInt n => n | _ => 0 end in
      intCountJ <? intCountI
  end.

(** unnamed/part_004, [sortByCountStage].  The second loop is a [range]
    over [countMap], and [sort.Slice] is not stable: documents with the same
    count come out in an order that the range and the sort decide.  [visit]
    is the order of the execution at hand, a permutation of the entries:
    every result of the stage is the stable sort of one. *)
Definition sortByCountStage (visit : list (Value * Z) -> list (Value * Z))
  (input : list Doc) (params : Doc) : outcome (res (list Doc)) :=
  match index params "path" with
  | VStr expr =>
      if String.eqb expr ""
      then Ret (Err "$sortByCount requires a non-empty 'path' parameter")
      else
        countMap ← countLoop input (trimDollar expr) [];
        Ret (Ok (SliceStable byCount (map countDoc (visit countMap))))
  | _ => Ret (Err "$sortByCount requires a non-empty 'path' parameter")
  end.

(** unnamed/part_004, [validateSortByCountStage] *)
Definition validateSortByCountStage (params : Doc) : option string :=
  match GoMap.get params "path" with
  | None => Some "$sortByCount stage requires a 'path' parameter"
  | Some (VStr pathStr) =>
      if String.eqb (TrimSpace pathStr) ""
      then Some "$sortByCount 'path' parameter must be a non-empty string"
      else None
  | Some _ => Some "$sortByCount 'path' parameter must be a non-empty string"
  end.

End SortByCount.
End SortByCount.

(** ** [$bucket] *)

Module Bucket.

(** [sort.Float64s]: ascending, a NaN before every number.  Insertion as
    for [SliceStable]; the result of the library is this one up to the order
    of zeros of opposite signs. *)
Definition lessFloat (x y : float64) : bool :=
  F64.ltb x y || (F64.isNaN x && negb (F64.isNaN y)).

Definition Float64s (x : list float64) : list float64 :=
  SliceStable lessFloat x.

(** The struct [Bucket] declared in [bucketStage]. *)
Record Bucket : Type := {
  Label : string;
  Docs : list Doc;
  Aggregations : Doc
}.

(** [buckets[i].Docs = append(buckets[i].Docs, doc)] *)
Definition appendDoc (doc : Doc) (b : Bucket) : Bucket :=
  {| Label := Label b; Docs := (Docs b ++ [doc])%list;
     Aggregations := Aggregations b |}.

(** query_stage_bucket.go, [bucketStage]: the conversion of the boundaries *)
Fixpoint toBoundaries (boundariesInterface : list Value)
  : res (list float64) :=
  match boundariesInterface with
  | [] => Ok []
  | b :: rest =>
      match match b with
            | VNum v => Some v
            | VInt v => Some (F64.of_Z v)
            | _ => None
            end with
      | None => Err "$bucket stage 'boundaries' must be numeric"
      | Some v =>
          match toBoundaries rest with
          | Err e => Err e
          | Ok boundaries => Ok (v :: boundaries)
          end
      end
  end.

(** The loop that looks for the bucket of a value: the index of the first
    pair of neighbours that holds it, counted from [i]. *)
Fixpoint findBucket (numericValue : float64) (boundaries : list float64)
  (i : nat) : option nat :=
  match boundaries with
  | lower :: (upper :: _) as rest =>
      if F64.leb lower numericValue && F64.ltb numericValue upper then Some i
      else findBucket numericValue rest (S i)
  | _ => None
  end.

(** The loop that assigns the documents to the buckets. *)
Definition toDefault (hasDefault : bool) (doc : Doc) (buckets : list Bucket)
  : list Bucket :=
  if hasDefault then alter (appendDoc doc) (length buckets - 1)%nat buckets
  else buckets.

Definition assignDoc (groupBy : string) (boundaries : list float64)
  (hasDefault : bool) (buckets : list Bucket) (doc : Doc) : list Bucket :=
  match GoMap.get doc groupBy with
  | None => toDefault hasDefault doc buckets
  | Some value =>
      match match value with
            | VNum v => Some v
            | VInt v => Some (F64.of_Z v)
            | _ => None
            end with
      | None => toDefault hasDefault doc buckets
      | Some numericValue =>
          match findBucket numericValue boundaries 0 with
          | Some i => alter (appendDoc doc) i buckets
          | None => toDefault hasDefault doc buckets
          end
      end
  end.

Section Bucket.
Context `{GoRuntime}.

(** The labels of the buckets between neighbouring boundaries. *)
Fixpoint rangeBuckets (boundaries : list float64) : list Bucket :=
  match boundaries with
  | lower :: (upper :: _) as rest =>
      {| Label := "[" ++ Sprint (VNum lower) ++ ", " ++ Sprint (VNum upper)
                  ++ ")";
         Docs := []; Aggregations := [] |} :: rangeBuckets rest
  | _ => []
  end.

(** The loops over the output definitions, for one bucket. *)
Fixpoint outputOperators (result : Doc) (key : string) (e : Doc)
  (bucket : Bucket) : res Doc :=
  match e with
  | [] => Ok result
  | (op, field) :: e' =>
      if String.eqb op "$sum" then
        match toFloat64 field with
        | None =>
            Err "$sum field must be numeric or string representing a number"
        | Some sumValue =>
            if F64.eqb sumValue F64.one
            then outputOperators
                   (GoMap.set result key
                      (VInt (Z.of_nat (length (Docs bucket))))) key e' bucket
            else Err "$sum currently supports only counting documents (field value must be 1)"
        end
      else Err "unsupported aggregation operator in $bucket output"
  end.

Fixpoint outputFields (result : Doc) (output : Doc) (bucket : Bucket)
  : res Doc :=
  match output with
  | [] => Ok result
  | (key, expr) :: output' =>
      match expr with
      | VDoc e =>
          match outputOperators result key e bucket with
          | Err err => Err err
          | Ok result' => outputFields result' output' bucket
          end
      | _ => Err "$bucket stage 'output' must be an object"
      end
  end.

Fixpoint bucketResults (output : option Doc) (buckets : list Bucket)
  : res (list Doc) :=
  match buckets with
  | [] => Ok []
  | bucket :: buckets' =>
      match match output with
            | Some output => outputFields [("_id", VStr (Label bucket))]
                               output bucket
            | None => Ok [("_id", VStr (Label bucket))]
            end with
      | Err e => Err e
      | Ok result =>
          match bucketResults output buckets' with
          | Err e => Err e
          | Ok results => Ok (result :: results)
          end
      end
  end.

(** query_stage_bucket.go, [bucketStage] *)
Definition bucketStage (input : list Doc) (params : Doc) : res (list Doc) :=
  match index params "groupBy" with
  | VStr groupBy =>
      match index params "boundaries" with
      | VArr boundariesInterface =>
          match toBoundaries boundariesInterface with
          | Err e => Err e
          | Ok unsorted =>
              let boundaries := Float64s unsorted in
              let hasDefault :=
                match index params "default" with
                | VStr _ => true
                | _ => false
                end in
              let output :=
                match index params "output" with
                | VDoc output => Some output
                | _ => None
                end in
              let buckets :=
                (rangeBuckets boundaries
                 ++ (if hasDefault
                     then [{| Label := "Other"; Docs := [];
                              Aggregations := [] |}]
                     else []))%list in
              bucketResults output
                (fold_left (assignDoc groupBy boundaries hasDefault)
                   input buckets)
          end
      | _ => Err "$bucket stage requires an array of 'boundaries'"
      end
  | _ => Err "$bucket stage requires a string 'groupBy' field"
  end.

End Bucket.

(** query_stage_bucket.go, [validateBucketStage] *)
Definition numericBoundaries (boundaries : list Value) : bool :=
  forallb (fun b => match b with
                    | VNum _ | VInt _ => true
                    | _ => false
                    end) boundaries.

Definition validateBucketStage (params : Doc) : option string :=
  match GoMap.get params "groupBy", GoMap.get params "boundaries" with
  | None, _ => Some "$bucket stage requires a 'groupBy' field"
  | Some _, None => Some "$bucket stage requires 'boundaries' field"
  | Some groupBy, Some boundaries =>
      match groupBy with
      | VStr (String _ _) =>
          match boundaries with
          | VArr ((_ :: _ :: _) as boundaries) =>
              if negb (numericBoundaries boundaries)
              then Some "$bucket stage 'boundaries' must contain numeric values"
              else
                match GoMap.get params "default" with
                | Some (VStr _) | None =>
                    match GoMap.get params "output" with
                    | Some (VDoc _) | None => None
                    | Some _ => Some "$bucket stage 'output' must be an object"
                    end
                | Some _ => Some "$bucket stage 'default' must be a string"
                end
          | _ =>
              Some "$bucket stage 'boundaries' must be an array with at least two elements"
          end
      | _ => Some "$bucket stage 'groupBy' must be a non-empty string"
      end
  end.

End Bucket.

(** ** [$match] *)

(** query_core.go, [isValidMatchOperator] *)
Definition isValidMatchOperator (op : string) : bool :=
  existsb (String.eqb op)
    ["$eq"; "$gt"; "$gte"; "$in"; "$lt"; "$lte"; "$ne"; "$nin"; "$and"; "$or";
     "$not"; "$nor"; "$options"; "$exists"; "$type"; "$expr"; "$jsonSchema";
     "$mod"; "$regex"; "$text"; "$where"; "$all"; "$elemMatch"; "$size";
     "$geoWithin"; "$geoIntersects"; "$near"; "$nearSphere"; "$bitsAllClear";
     "$bitsAllSet"; "$bitsAnyClear"; "$bitsAnySet"; "$comment"; "$sampleRate";
     "$rand"; "$meta"; "$literal"; "$var"; "$concat"; "$substr"; "$toLower";
     "$toUpper"; "$trim"; "$ltrim"; "$rtrim"; "$split"; "$strLenBytes";
     "$strLenCP"; "$strcasecmp"; "$substrBytes"; "$substrCP"; "$indexOfBytes";
     "$indexOfCP"; "$toString"; "$dateToString"; "$dateFromString"; "$add";
     "$subtract"; "$multiply"; "$divide"; "$pow"; "$sqrt"; "$abs"; "$ceil";
     "$floor"; "$trunc"; "$round"; "$sin"; "$cos"; "$tan"; "$asin"; "$acos";
     "$atan"; "$atan2"; "$ln"; "$log"; "$log10"; "$exp"; "$min"; "$max"; "$avg";
     "$sum"; "$stdDevPop"; "$stdDevSamp"; "$first"; "$last"; "$push";
     "$addToSet"; "$mergeObjects"; "$arrayElemAt"; "$filter"; "$map"; "$reduce";
     "$zip"; "$range"; "$concatArrays"; "$arrayToObject"; "$objectToArray";
     "$setUnion"; "$setIntersection"; "$setDifference"; "$setEquals";
     "$setIsSubset"; "$anyElementTrue"; "$allElementsTrue"; "$document";
     "$function"; "$let"; "$switch"; "$cond"; "$ifNull"; "$isNumber";
     "$isString"; "$isDate"; "$isArray"; "$isObject"; "$isBool"].

Module Match.

(** query_stage_match.go, [matchesType]: the kind of the dynamic type *)
Definition matchesType (value : Value) (typeStr : string) : bool :=
  match value with
  | VNil => String.eqb typeStr "null"
  | _ =>
      if String.eqb typeStr "number"
      then match value with VNum _ | VInt _ => true | _ => false end
      else if String.eqb typeStr "string"
      then match value with VStr _ => true | _ => false end
      else if String.eqb typeStr "bool"
      then match value with VBool _ => true | _ => false end
      else if String.eqb typeStr "array"
      then match value with VArr _ | VDocs _ => true | _ => false end
      else if String.eqb typeStr "object"
      then match value with VDoc _ => true | _ => false end
      else false
  end.

(** [strings.Contains(s, "i")] *)
Definition containsI (s : string) : bool :=
  existsb (Ascii.eqb "i"%char) (list_ascii_of_string s).

Section Match.
Context `{GoRuntime} `{GoLibrary}.

(** query_stage_match.go, [handleRegexNot] and [regexMatch] *)
Definition handleRegexNot (value pattern : Value) : bool :=
  match value, pattern with
  | VStr strVal, VStr patStr => default false (MatchString patStr strVal)
  | _, _ => false
  end.

Definition regexMatch (value opVal : Value) (operators : Doc) : bool :=
  match value, opVal with
  | VStr str, VStr pattern =>
      let pattern :=
        match index operators "$options" with
        | VStr caseInsensitive =>
            if containsI caseInsensitive then "(?i)" ++ pattern else pattern
        | _ => pattern
        end in
      default false (MatchString pattern str)
  | _, _ => false
  end.

(** query_stage_match.go, [eqOperator] *)
Definition eqOperator (value opVal : Value) : bool := DeepEqual value opVal.

(** The comparison of two values as numbers, for [$gt], [$gte], [$lt] and
    [$lte]: false when one of them is no number. *)
Definition compareNumbers (holds : float64 -> float64 -> bool)
  (value opVal : Value) : bool :=
  match toFloat64 value, toFloat64 opVal with
  | Some valNum, Some opNum => holds valNum opNum
  | _, _ => false
  end.

(** query_stage_match.go, [evaluateOperators]: the cases of the [switch]
    that call neither [evaluateOperators] nor [evaluateMatchExpression];
    [true] when the loop goes on to the next operator, [false] when it
    returns [false]. *)
Definition leafOperator (value : Value) (valueExists : bool) (operators : Doc)
  (opKey : string) (opVal : Value) : bool :=
  if String.eqb opKey "$all" then
    match value, opVal with
    | VArr arr, VArr requiredEls =>
        forallb (fun requiredEl =>
                   existsb (fun arrEl => DeepEqual arrEl requiredEl) arr)
          requiredEls
    | _, _ => false
    end
  else if String.eqb opKey "$size" then
    match value, opVal with
    | VArr arr, VNum size => F64.eqb (F64.of_Z (Z.of_nat (length arr))) size
    | _, _ => false
    end
  else if String.eqb opKey "$regex" then regexMatch value opVal operators
  else if String.eqb opKey "$options" then true
  else if String.eqb opKey "$eq" then eqOperator value opVal
  else if String.eqb opKey "$ne" then negb (eqOperator value opVal)
  else if String.eqb opKey "$gt"
  then compareNumbers (fun valNum opNum => F64.ltb opNum valNum) value opVal
  else if String.eqb opKey "$gte"
  then compareNumbers (fun valNum opNum => F64.leb opNum valNum) value opVal
  else if String.eqb opKey "$lt"
  then compareNumbers (fun valNum opNum => F64.ltb valNum opNum) value opVal
  else if String.eqb opKey "$lte"
  then compareNumbers (fun valNum opNum => F64.leb valNum opNum) value opVal
  else if String.eqb opKey "$in" then
    match opVal with
    | VArr arr => existsb (fun item => DeepEqual value item) arr
    | _ => false
    end
  else if String.eqb opKey "$nin" then
    match opVal with
    | VArr arr => negb (existsb (fun item => DeepEqual value item) arr)
    | _ => false
    end
  else if String.eqb opKey "$exists" then
    match opVal with
    | VBool expectExists => Bool.eqb expectExists valueExists
    | _ => false
    end
  else if String.eqb opKey "$type" then
    match opVal with
    | VStr typeStr => matchesType value typeStr
    | _ => false
    end
  else if String.eqb opKey "$mod" then
    match opVal with
    | VArr [d; r] =>
        match toFloat64 d, toFloat64 r, toFloat64 value with
        | Some divisor, Some remainder, Some valNum =>
            F64.eqb (Mod valNum divisor) remainder
        | _, _, _ => false
        end
    | _ => false
    end
  else false.

(** query_stage_match.go, [evaluateMatchExpression] and [evaluateOperators],
    which call each other.  The map of operators is taken as the value that
    holds it.  A [range] over a condition stops at a [$and], [$or] or
    [$nor]: the entries it has not visited yet are not looked at. *)
Fixpoint evaluateMatchExpression (doc : Doc) (expr : Value) {struct expr}
  : bool :=
  match expr with
  | VDoc condition =>
      (fix conditions (condition : list (string * Value)) : bool :=
         match condition with
         | [] => true
         | (key, val) :: condition' =>
             if String.eqb key "$and" then
               match val with
               | VArr andClauses =>
                   forallb (evaluateMatchExpression doc) andClauses
               | _ => false
               end
             else if String.eqb key "$or" then
               match val with
               | VArr orClauses =>
                   existsb (evaluateMatchExpression doc) orClauses
               | _ => false
               end
             else if String.eqb key "$nor" then
               match val with
               | VArr norClauses =>
                   negb (existsb (evaluateMatchExpression doc) norClauses)
               | _ => false
               end
             else
               let docVal := (getNestedFieldExists doc key).1 in
               let fieldExists := (getNestedFieldExists doc key).2 in
               match val with
               | VDoc _ =>
                   evaluateOperatorsIn docVal fieldExists val
                   && conditions condition'
               | _ => DeepEqual docVal val && conditions condition'
               end
         end) condition
  | VArr condition => forallb (evaluateMatchExpression doc) condition
  | _ => false
  end
with evaluateOperatorsIn (value : Value) (valueExists : bool)
  (operators : Value) {struct operators} : bool :=
  match operators with
  | VDoc opMap =>
      (fix loop (rest : list (string * Value)) : bool :=
         match rest with
         | [] => true
         | (opKey, opVal) :: rest' =>
             (if String.eqb opKey "$not" then
                match opVal with
                | VDoc _ => negb (evaluateOperatorsIn value valueExists opVal)
                | _ => handleRegexNot value opVal
                end
              else if String.eqb opKey "$elemMatch" then
                match value, opVal with
                | VArr arr, VDoc _ =>
                    existsb (fun elem =>
                               match elem with
                               | VDoc elemMap =>
                                   evaluateMatchExpression elemMap opVal
                               | _ => false
                               end) arr
                | _, _ => false
                end
              else leafOperator value valueExists opMap opKey opVal)
             && loop rest'
         end) opMap
  | _ => true
  end.

Definition evaluateOperators (value : Value) (valueExists : bool)
  (operators : Doc) : bool :=
  evaluateOperatorsIn value valueExists (VDoc operators).

(** query_stage_match.go, [matchStage] *)
Definition matchStage (input : list Doc) (params : Doc) : list Doc :=
  List.filter (fun doc => evaluateMatchExpression doc (VDoc params)) input.

End Match.

(** query_stage_match.go, [validateMatchStage] *)
Definition isLogical (field : string) : bool :=
  String.eqb field "$or" || String.eqb field "$and" || String.eqb field "$nor".

Definition isObject (cond : Value) : bool :=
  match cond with
  | VDoc _ => true
  | _ => false
  end.

Fixpoint validateMatchFields (params : Doc) : option string :=
  match params with
  | [] => None
  | (field, val) :: params' =>
      if isLogical field then
        match val with
        | VArr [] => Some "$match operator array must not be empty"
        | VArr arr =>
            if forallb isObject arr then validateMatchFields params'
            else Some "$match operator element is not an object"
        | _ => Some "$match operator expects an array"
        end
      else
        match val with
        | VDoc valTyped =>
            if forallb isValidMatchOperator (GoMap.keys valTyped)
            then validateMatchFields params'
            else Some "$match has invalid operator"
        | VStr _ | VNum _ | VInt _ | VBool _ => validateMatchFields params'
        | _ => Some "$match field has unexpected type"
        end
  end.

Definition validateMatchStage (params : Doc) : option string :=
  match params with
  | [] => Some "$match stage must not be empty"
  | _ => validateMatchFields params
  end.

End Match.

(** ** The expressions of [$project] *)

(** [x - y] on [float64] *)
Definition F64sub : float64 -> float64 -> float64 := SFsub F64.prec F64.emax.

Module Project.

(** query_stage_project.go, [toBool] *)
Definition toBool (val : Value) : bool :=
  match val with
  | VBool x => x
  | VNum x => negb (F64.eqb x F64.zero)
  | VStr x => negb (String.eqb x "")
  | _ => false
  end.

(** query_helpers.go, [formatDate]: the layout that a format selects *)
Definition layoutOf (format : string) : string :=
  if String.eqb format "%Y-%m-%d" then "2006-01-02"
  else if String.eqb format "%H:%M:%S" then "15:04:05"
  else if String.eqb format "%Y-%m-%d %H:%M:%S" then "2006-01-02 15:04:05"
  else "2006-01-02".

Section Helpers.
Context `{GoRuntime} `{GoLibrary}.

(** query_helpers.go, [formatDate]; no value of the embedding is a
    [time.Time] *)
Definition formatDate (date : Value) (format : string) : string :=
  match date with
  | VStr v => default v (FormatTime v (layoutOf format))
  | _ => Sprint date
  end.

(** query_helpers.go, [extractSubstring]; [strVal[start:end]] panics when
    [end] is less than [start] *)
Definition extractSubstring (str : Value) (start length : Z)
  : outcome string :=
  let strVal := Sprint str in
  let len := Z.of_nat (String.length strVal) in
  if (start <? 0) || (len <=? start) then Ret ""
  else
    let end_ := wrapInt (start + length) in
    let end_ := if len <? end_ then len else end_ in
    if end_ <? start then Panic "slice bounds out of range"
    else Ret (substring (Z.to_nat start) (Z.to_nat (end_ - start)) strVal).

(** [f, _ := toFloat64(val)] *)
Definition numberOf (val : Value) : float64 :=
  default F64.zero (toFloat64 val).

End Helpers.

(** The functions [handleConcat] to [handleCond] of query_stage_project.go
    call [evaluateExpression] on their operands: [eval] stands for it. *)
Section Handlers.
Context `{GoRuntime} `{GoLibrary}.
Variable eval : Value -> outcome Value.

(** [evaluateExpression(doc, m[key])]; a missing key gives [nil], which
    evaluates to itself *)
Fixpoint evalField (m : Doc) (key : string) : outcome Value :=
  match m with
  | [] => Ret VNil
  | (k, v) :: m' => if String.eqb k key then eval v else evalField m' key
  end.

Fixpoint concatLoop (arr : list Value) (sb : string) : outcome string :=
  match arr with
  | [] => Ret sb
  | item :: arr' =>
      resolved ← eval item;
      concatLoop arr' (match resolved with
                       | VStr resolvedStr => sb ++ resolvedStr
                       | _ => sb
                       end)
  end.

Definition handleConcat (opVal : Value) : outcome Value :=
  match opVal with
  | VArr arr => s ← concatLoop arr ""; Ret (VStr s)
  | _ => Ret (VStr "")
  end.

Definition handleSubstring (opVal : Value) : outcome Value :=
  match opVal with
  | VArr [a0; a1; a2] =>
      strVal ← eval a0;
      startVal ← eval a1;
      lengthVal ← eval a2;
      let s := match strVal with VStr s => s | _ => "" end in
      sub ← extractSubstring (VStr s) (toInt (numberOf startVal))
               (toInt (numberOf lengthVal));
      Ret (VStr sub)
  | _ => Ret (VStr "")
  end.

Definition handleDateToString (opVal : Value) : outcome Value :=
  match opVal with
  | VDoc config =>
      dateVal ← evalField config "date";
      formatStr ← evalField config "format";
      let format := match formatStr with VStr s => s | _ => "" end in
      Ret (VStr (formatDate dateVal format))
  | _ => Ret (VStr "")
  end.

(** The loop [acc = acc op f] over the values of the operands. *)
Fixpoint arithLoop (op : float64 -> float64 -> float64) (arr : list Value)
  (acc : float64) : outcome float64 :=
  match arr with
  | [] => Ret acc
  | item :: arr' =>
      val ← eval item;
      arithLoop op arr' (op acc (numberOf val))
  end.

Definition handleAdd (opVal : Value) : outcome Value :=
  match opVal with
  | VArr arr => sum ← arithLoop F64.add arr F64.zero; Ret (VNum sum)
  | _ => Ret VNil
  end.

Definition handleSubtract (opVal : Value) : outcome Value :=
  match opVal with
  | VArr (a0 :: (_ :: _) as rest) =>
      firstVal ← eval a0;
      base ← arithLoop F64sub rest (numberOf firstVal);
      Ret (VNum base)
  | _ => Ret VNil
  end.

Definition handleMultiply (opVal : Value) : outcome Value :=
  match opVal with
  | VArr ((_ :: _) as arr) =>
      product ← arithLoop F64.mul arr F64.one; Ret (VNum product)
  | _ => Ret VNil
  end.

(** The loop of [handleDivide] over the operands after the second. *)
Fixpoint divideLoop (arr : list Value) (result : float64) : outcome Value :=
  match arr with
  | [] => Ret (VNum result)
  | item :: arr' =>
      nextVal ← eval item;
      let nf := numberOf nextVal in
      if F64.eqb nf F64.zero then Ret VNil
      else divideLoop arr' (F64.div result nf)
  end.

Definition handleDivide (opVal : Value) : outcome Value :=
  match opVal with
  | VArr (a0 :: a1 :: rest) =>
      numerator ← eval a0;
      denom ← eval a1;
      let numf := numberOf numerator in
      let denf := numberOf denom in
      if F64.eqb denf F64.zero then Ret VNil
      else divideLoop rest (F64.div numf denf)
  | _ => Ret VNil
  end.

Definition handleMod (opVal : Value) : outcome Value :=
  match opVal with
  | VArr [a0; a1] =>
      leftVal ← eval a0;
      rightVal ← eval a1;
      let lv := numberOf leftVal in
      let rv := numberOf rightVal in
      if F64.eqb rv F64.zero then Ret VNil else Ret (VNum (Mod lv rv))
  | _ => Ret VNil
  end.

Fixpoint andLoop (arr : list Value) : outcome Value :=
  match arr with
  | [] => Ret (VBool true)
  | item :: arr' =>
      val ← eval item;
      if toBool val then andLoop arr' else Ret (VBool false)
  end.

Definition handleAnd (opVal : Value) : outcome Value :=
  match opVal with
  | VArr arr => andLoop arr
  | _ => Ret (VBool false)
  end.

Fixpoint orLoop (arr : list Value) : outcome Value :=
  match arr with
  | [] => Ret (VBool false)
  | item :: arr' =>
      val ← eval item;
      if toBool val then Ret (VBool true) else orLoop arr'
  end.

Definition handleOr (opVal : Value) : outcome Value :=
  match opVal with
  | VArr arr => orLoop arr
  | _ => Ret (VBool false)
  end.

Definition handleNot (opVal : Value) : outcome Value :=
  val ← eval opVal; Ret (VBool (negb (toBool val))).

Definition handleCond (opVal : Value) : outcome Value :=
  match opVal with
  | VDoc condVal =>
      ifExpr ← evalField condVal "if";
      if toBool ifExpr then evalField condVal "then"
      else evalField condVal "else"
  | VArr [ifCond; thenExpr; elseExpr] =>
      ifExpr ← eval ifCond;
      if toBool ifExpr then eval thenExpr else eval elseExpr
  | _ => Ret VNil
  end.

(** The loop of [evaluateExpression] over an array literal. *)
Fixpoint evalItems (val : list Value) : outcome (list Value) :=
  match val with
  | [] => Ret []
  | item :: val' =>
      v ← eval item;
      resultArr ← evalItems val';
      Ret (v :: resultArr)
  end.

End Handlers.

Section Expression.
Context `{GoRuntime} `{GoLibrary}.

(** query_stage_project.go, the function [evaluateExpression].  On a map it
    returns from the first turn of its [range]: the operator is the first
    entry that the range visits. *)
Fixpoint evaluateExpression (doc : Doc) (expr : Value) {struct expr}
  : outcome Value :=
  match expr with
  | VStr val =>
      if hasDollar val then Ret (resolveField doc (trimDollar val))
      else Ret expr
  | VNum _ | VBool _ | VInt _ | VNil => Ret expr
  | VDoc val =>
      match val with
      | [] => Ret VNil
      | (op, opVal) :: _ =>
          let eval := evaluateExpression doc in
          if String.eqb op "$concat" then handleConcat eval opVal
          else if String.eqb op "$substr" then handleSubstring eval opVal
          else if String.eqb op "$dateToString"
          then handleDateToString eval opVal
          else if String.eqb op "$add" then handleAdd eval opVal
          else if String.eqb op "$subtract" then handleSubtract eval opVal
          else if String.eqb op "$multiply" then handleMultiply eval opVal
          else if String.eqb op "$divide" then handleDivide eval opVal
          else if String.eqb op "$mod" then handleMod eval opVal
          else if String.eqb op "$and" then handleAnd eval opVal
          else if String.eqb op "$or" then handleOr eval opVal
          else if String.eqb op "$not" then handleNot eval opVal
          else if String.eqb op "$cond" then handleCond eval opVal
          else Ret VNil
      end
  | VArr val =>
      resultArr ← evalItems (evaluateExpression doc) val;
      Ret (VArr resultArr)
  | VDocs _ => Ret VNil
  end.

End Expression.
End Project.

(** ** [$facet] *)

(** query_core.go, [asMap]; a nil map reads as the empty map *)
Definition asMap (val : Value) : Doc :=
  match val with
  | VDoc casted => casted
  | _ => []
  end.

Module Facet.

(** [value.(map[string]interface{})]; the message of Go also names the
    dynamic type of the value *)
Definition asParams (value : Value) : outcome Doc :=
  match value with
  | VDoc m => Ret m
  | _ => Panic "interface conversion: interface {} is not map[string]interface {}"
  end.

Section Facet.
Context `{GoRuntime} `{Package}.
Variable db : DB.
Variable order : Groups -> Groups.

(** query_stage_group.go, [applyPipeline] calls [facetStage] on a [$facet]
    stage, and [facetStage] calls [applyPipeline]: [facet] stands for
    [facetStage], on the value that holds its parameters. *)
Section Pipeline.
Variable facet : list Doc -> Value -> outcome (list Doc).

(** One turn of the inner [range], over the entries of a stage object. *)
Definition applyStage (data : list Doc) (key : string) (value : Value)
  : outcome (list Doc) :=
  if String.eqb key "$match"
  then params ← asParams value; matchStage data params
  else if String.eqb key "$project"
  then params ← asParams value; projectStage data params
  else if String.eqb key "$group"
  then params ← asParams value; groupStage order data params
  else if String.eqb key "$facet"
  then match value with
       | VDoc _ => facet data value
       | _ => _ ← asParams value; Ret data
       end
  else if String.eqb key "$sort"
  then params ← asParams value; Ret (sortStage data params)
  else if String.eqb key "$limit"
  then params ← asParams value; Ret (elems (limitStage (Slice data) params))
  else if String.eqb key "$skip"
  then params ← asParams value; skipStage data params
  else if String.eqb key "$lookup"
  then params ← asParams value; lookupStage db data params
  else if String.eqb key "$unwind"
  then params ← asParams value; Ret (unwindStage data params)
  else _ ← asParams value; Ret data.

Fixpoint applyEntries (data : list Doc) (s : list (string * Value))
  : outcome (list Doc) :=
  match s with
  | [] => Ret data
  | (key, value) :: s' =>
      data' ← applyStage data key value;
      applyEntries data' s'
  end.

(** query_stage_group.go, [applyPipeline] *)
Fixpoint applyPipelineWith (data : list Doc) (pipeline : list Value)
  : outcome (list Doc) :=
  match pipeline with
  | [] => Ret data
  | stage :: pipeline' =>
      match stage with
      | VDoc s =>
          data' ← applyEntries data s;
          applyPipelineWith data' pipeline'
      | _ => applyPipelineWith data pipeline'
      end
  end.

(** query_stage_group.go, [facetStage]: the loop over the facets, which
    fills the one document of the result *)
Fixpoint facetLoop (input : list Doc) (facets : list (string * Value))
  (result : Doc) : outcome Doc :=
  match facets with
  | [] => Ret result
  | (facetName, rawPipeline) :: facets' =>
      match rawPipeline with
      | VArr pipeline =>
          facetResult ← applyPipelineWith input pipeline;
          facetLoop input facets'
            (GoMap.set result facetName (VDocs facetResult))
      | _ => facetLoop input facets' result
      end
  end.

End Pipeline.

(** query_stage_group.go, [facetStage], on the value that holds its
    parameters, then on the parameters *)
Fixpoint facetStageIn (input : list Doc) (params : Value) {struct params}
  : outcome (list Doc) :=
  match params with
  | VDoc facets =>
      result ← facetLoop facetStageIn input facets [];
      Ret [result]
  | _ => Ret [[]]
  end.

Definition facetStage (input : list Doc) (params : Doc)
  : outcome (list Doc) :=
  facetStageIn input (VDoc params).

Definition applyPipeline (input : list Doc) (pipeline : list Value)
  : outcome (list Doc) :=
  applyPipelineWith facetStageIn input pipeline.

(** query_stage_group.go, [validateFacetStage].  It calls [validateStage],
    whose case for [$facet] calls it back: [validate] stands for
    [validateFacetStage], on the value that holds the parameters ([asMap]
    turns every other value into a nil map, which has no facet to refuse). *)
Section Validation.
Variable validate : Value -> option string.

Definition validateSubStage (op : string) (opParams : Value)
  : option string :=
  if String.eqb op "$facet"
  then match opParams with
       | VDoc _ => validate opParams
       | _ => None
       end
  else validateStage op (asMap opParams).

Fixpoint validateFacetPipeline (pipelines : list Value) : option string :=
  match pipelines with
  | [] => None
  | stageAny :: pipelines' =>
      match stageAny with
      | VDoc [(op, opParams)] =>
          match validateSubStage op opParams with
          | Some e => Some "$facet: sub-stage invalid"
          | None => validateFacetPipeline pipelines'
          end
      | VDoc _ => Some "$facet: pipeline stage must have exactly one operator"
      | _ => Some "$facet: pipeline stage must be an object"
      end
  end.

Fixpoint validateFacets (params : list (string * Value)) : option string :=
  match params with
  | [] => None
  | (facetName, facetPipelines) :: params' =>
      match facetPipelines with
      | VArr pipelines =>
          match validateFacetPipeline pipelines with
          | Some e => Some e
          | None => validateFacets params'
          end
      | _ => Some "$facet: each value must be an array of pipeline stages"
      end
  end.

End Validation.

Fixpoint validateFacetStageIn (params : Value) {struct params}
  : option string :=
  match params with
  | VDoc facets => validateFacets validateFacetStageIn facets
  | _ => None
  end.

Definition validateFacetStage (params : Doc) : option string :=
  validateFacetStageIn (VDoc params).

End Facet.
End Facet.

(** ** The package, with these stages *)

Section Linked.
Context `{GoRuntime} `{GoLibrary}.

(** The database and the order of the groups that the stages of a facet
    see, and the order in which [$sortByCount] meets its counts. *)
Variable db : DB.
Variable order : Groups -> Groups.
Variable counts : list (Value * Z) -> list (Value * Z).

(** What is still not opened: the accumulators of [otherAccumulator] and
    [$bucketAuto]. *)
Variable others : Package.

(** The stages that a facet runs, [$facet] apart: [facetStage] and
    [validateFacetStage] call themselves on a facet inside a facet, and take
    nothing else from the last two fields below. *)
Definition facetless : Package := {|
  otherAccumulator := @otherAccumulator others;
  projectExpression := Project.evaluateExpression;
  matchStage := fun input params => Ret (Match.matchStage input params);
  facetStage := @facetStage others;
  sortByCountStage := SortByCount.sortByCountStage counts;
  countStage := fun input params => Ret (Count.countStage input (VDoc params));
  unsetStage := fun input params => Ret (Unset.unsetStage input (VDoc params));
  bucketStage := fun input params => Ret (Bucket.bucketStage input params);
  bucketAutoStage := @bucketAutoStage others;
  validateMatchStage := Match.validateMatchStage;
  validateFacetStage := @validateFacetStage others;
  validateSortByCountStage := SortByCount.validateSortByCountStage;
  validateCountStage := fun params => Count.validateCountStage (VDoc params);
  validateUnsetStage := fun params =>
    match Unset.validateUnsetStage (VDoc params) with
    | Ok _ => None
    | Err e => Some e
    end;
  validateBucketStage := Bucket.validateBucketStage;
  validateBucketAutoStage := @validateBucketAutoStage others
|}.

Definition package : Package := {|
  otherAccumulator := @otherAccumulator facetless;
  projectExpression := @projectExpression facetless;
  matchStage := @matchStage facetless;
  facetStage := Facet.facetStage (H0 := facetless) db order;
  sortByCountStage := @sortByCountStage facetless;
  countStage := @countStage facetless;
  unsetStage := @unsetStage facetless;
  bucketStage := @bucketStage facetless;
  bucketAutoStage := @bucketAutoStage facetless;
  validateMatchStage := @validateMatchStage facetless;
  validateFacetStage := Facet.validateFacetStage (H0 := facetless);
  validateSortByCountStage := @validateSortByCountStage facetless;
  validateCountStage := @validateCountStage facetless;
  validateUnsetStage := @validateUnsetStage facetless;
  validateBucketStage := @validateBucketStage facetless;
  validateBucketAutoStage := @validateBucketAutoStage facetless
|}.

End Linked.

(** A library to evaluate the code on: no pattern compiles, no string is a
    date, and [math.Mod] is not called on the inputs below. *)
Definition noLibrary : GoLibrary := {|
  MatchString := fun _ _ => None;
  Mod := fun _ _ => S754_nan;
  FormatTime := fun _ _ => None
|}.

(** ** The vocabulary of the statements on these stages *)

(** The foreign documents that [$lookup] attaches to a document: those whose
    foreign field equals its local value, in the order of the collection;
    none when the document has no local field. *)
Definition joined (foreignCollection : list Doc) (p : lookupParameters)
  (doc : Doc) : list Doc :=
  match GoMap.get doc (localField p) with
  | None => []
  | Some localValue =>
      List.filter
        (fun foreignDoc =>
           keyEqb (index foreignDoc (foreignField p)) localValue)
        foreignCollection
  end.

(** The names for which the runner has a case that does nothing, [$set]
    apart. *)
Definition futureStages : list string :=
  ["$unionWith"; "$redact"; "$graphLookup"; "$geoNear"; "$fill";
   "$replaceRoot"; "$replaceWith"].

Section Refusal.
Context `{GoRuntime} `{Package}.

(** The value of a stage is refused when it is no map, string, number or
    boolean, or when the validator of the stage returns an error. *)
Definition refused (name : string) (raw : Value) : Prop :=
  forall paramsMap, stageParams raw = Some paramsMap ->
                    exists e, validateStage name paramsMap = Some e.

End Refusal.

(** The integer that a document holds under a key, and the sum of these
    integers over documents. *)
Definition countOf (key : string) (doc : Doc) : Z :=
  match index doc key with
  | VInt n => n
  | _ => 0
  end.

Definition total (key : string) (docs : list Doc) : Z :=
  foldr Z.add 0 (map (countOf key) docs).

(** The number of documents that buckets hold. *)
Definition docsHeld (buckets : list Bucket.Bucket) : Z :=
  foldr Z.add 0 (map (fun b => Z.of_nat (length (Bucket.Docs b))) buckets).

(** The stages that the validator of a facet accepts and that
    [applyPipeline] has no case for. *)
Definition unfaceted : list string :=
  ["$sample"; "$count"; "$sortByCount"; "$bucket"; "$bucketAuto"; "$unset";
   "$addFields"; "$set"].

(** An operator is named somewhere in an expression: it is a key of the
    expression or of an object inside it. *)
Fixpoint mentions (name : string) (expr : Value) {struct expr} : bool :=
  match expr with
  | VDoc m =>
      (fix entries (m : list (string * Value)) : bool :=
         match m with
         | [] => false
         | (k, v) :: m' => String.eqb k name || mentions name v || entries m'
         end) m
  | VArr l =>
      (fix elements (l : list Value) : bool :=
         match l with
         | [] => false
         | v :: l' => mentions name v || elements l'
         end) l
  | _ => false
  end.

(** The operands of an expression all evaluate to a value. *)
Definition operandsReturn (eval : Value -> outcome Value) (expr : Value)
  : Prop :=
  match expr with
  | VDoc m => Forall (fun entry : string * Value =>
                        exists v, eval entry.2 = Ret v) m
  | VArr l => Forall (fun item => exists v, eval item = Ret v) l
  | _ => True
  end.

(** What a projection that includes keeps of a document under a key: the
    field when the specification has 1 for the key, [_id] when the
    specification does not name it, nothing otherwise. *)
Definition included (params : Doc) (doc : Doc) (k : string) : option Value :=
  match GoMap.get params k with
  | Some (VNum spec) => if F64.eqb spec F64.one then GoMap.get doc k else None
  | Some _ => None
  | None => if String.eqb k "_id" then GoMap.get doc "_id" else None
  end.

(** Two documents have the same fields, two names apart. *)
Definition agreeOutside (k1 k2 : string) (d1 d2 : Doc) : Prop :=
  forall k, k <> k1 -> k <> k2 -> GoMap.get d1 k = GoMap.get d2 k.

(** * Properties *)

(** ** Pagination *)

Section PaginationFacts.
Context `{GoRuntime}.

Lemma limitStage_elems (input : slice Doc) (params : Doc)
  (limitFloat : float64) (n : nat) :
  stageNumber params "$limit" = Some limitFloat ->
  toInt limitFloat = Z.of_nat n ->
  elems (limitStage input params) = take n (elems input).
Proof.
  intros Hnum Hint. unfold limitStage. rewrite Hnum, Hint.
  destruct (Z.leb_spec (Z.of_nat n) 0) as [Hn|Hn].
  - assert (n = O) as -> by lia. by rewrite take_0.
  - destruct (Z.leb_spec (Z.of_nat (length (elems input))) (Z.of_nat n)).
    + rewrite take_ge; [done|lia].
    + simpl. by rewrite Nat2Z.id.
Qed.

Lemma skipStage_drop (input : list Doc) (params : Doc) (skip : float64)
  (k : nat) :
  stageNumber params "$skip" = Some skip ->
  toInt (F64.Max F64.zero (F64.Floor skip)) = Z.of_nat k ->
  skipStage input params = Ret (drop k input).
Proof.
  intros Hnum Hint. unfold skipStage. rewrite Hnum, Hint.
  destruct (Z.ltb_spec (Z.of_nat (length input)) (Z.of_nat k)).
  - rewrite drop_ge; [done|lia].
  - destruct (Z.ltb_spec (Z.of_nat k) 0); [lia|]. by rewrite Nat2Z.id.
Qed.

(** While the two counts fit an [int]: for a sequence of length L, a skip
    count k and a limit n, [$skip] followed by [$limit] returns exactly
    max(0, min(n, L - k)) documents; and [$limit] with limit n leaves a
    sequence of at most n documents unchanged. *)
Theorem skip_then_limit (input : list Doc) (skipParams limitParams : Doc)
  (skip limitFloat : float64) (k n : nat) :
  stageNumber skipParams "$skip" = Some skip ->
  toInt (F64.Max F64.zero (F64.Floor skip)) = Z.of_nat k ->
  stageNumber limitParams "$limit" = Some limitFloat ->
  toInt limitFloat = Z.of_nat n ->
  (exists skipped,
     skipStage input skipParams = Ret skipped /\
     Z.of_nat (length (elems (limitStage (Slice skipped) limitParams)))
     = Z.max 0 (Z.min (Z.of_nat n) (Z.of_nat (length input) - Z.of_nat k)))
  /\ (forall docs : slice Doc,
        (length (elems docs) <= n)%nat ->
        elems (limitStage docs limitParams) = elems docs).
Proof.
  intros Hs Hk Hl Hn. split.
  - exists (drop k input). split; [by eapply skipStage_drop|].
    rewrite (limitStage_elems _ _ _ _ Hl Hn). simpl.
    rewrite length_take, length_drop. lia.
  - intros docs Hlen. rewrite (limitStage_elems _ _ _ _ Hl Hn).
    by apply take_ge.
Qed.

End PaginationFacts.

(** C9.  A count of 2^63, which the validators accept, does not fit an
    [int].  Where the conversion of such a number gives the smallest [int],
    as on amd64, [$skip] of 0 followed by [$limit] of 2^63 returns no
    document of two, where max(0, min(n, L - k)) is 2; [$limit] of 2^63
    does not leave a sequence of two documents unchanged; and [$skip] of
    2^63 stops the program instead of returning no document. *)
Theorem limit_beyond_int_returns_nothing :
  validateSkipStage [("value", num 0)] = None
  /\ validateLimitStage [("value", num (2 ^ 63))] = None
  /\ validateSkipStage [("value", num (2 ^ 63))] = None
  /\ Query (oneCollection "c" [[("i", num 1)]; [("i", num 2)]]) inOrder "c"
       [[("$skip", num 0)]; [("$limit", num (2 ^ 63))]]
     = Ret (Ok [])
  /\ Z.max 0 (Z.min (2 ^ 63) (Z.of_nat 2 - 0)) = 2
  /\ limitStage (Slice [[("i", num 1)]; [("i", num 2)]])
       [("value", num (2 ^ 63))]
     = Slice []
  /\ skipStage [[("i", num 1)]; [("i", num 2)]] [("value", num (2 ^ 63))]
     = Panic "slice bounds out of range".
Proof. repeat split; reflexivity. Qed.

Lemma skip_then_limit_witness :
  exists skipped,
    skipStage [[("i", num 1)]; [("i", num 2)]; [("i", num 3)]; [("i", num 4)]]
      [("value", num 1)] = Ret skipped /\
    Z.of_nat (length (elems (limitStage (Slice skipped) [("value", num 2)])))
    = Z.max 0 (Z.min (Z.of_nat 2) (Z.of_nat 4 - Z.of_nat 1)).
Proof.
  exact (proj1 (skip_then_limit
    [[("i", num 1)]; [("i", num 2)]; [("i", num 3)]; [("i", num 4)]]
    [("value", num 1)] [("value", num 2)] (F64.of_Z 1) (F64.of_Z 2) 1 2
    eq_refl eq_refl eq_refl eq_refl)).
Defined.

(** ** Sampling *)

Lemma swap_permutation {A} (i j : nat) (data : list A) :
  swap i j data ≡ₚ data.
Proof.
  unfold swap.
  destruct (data !! i) as [x|] eqn:Hi; [|done].
  destruct (data !! j) as [y|] eqn:Hj; [|done].
  by apply Permutation_insert_swap.
Qed.

Lemma shuffleLoop_permutation {A} (rnd : nat -> nat) (i k : nat)
  (data : list A) :
  shuffleLoop rnd k i data ≡ₚ data.
Proof.
  revert k data. induction i as [|i IH]; intros k data; simpl; [done|].
  rewrite IH. apply swap_permutation.
Qed.

Lemma Shuffle_permutation {A} (rnd : nat -> nat) (data : list A) :
  Shuffle rnd data ≡ₚ data.
Proof. apply shuffleLoop_permutation. Qed.

(** The loop that draws [n] documents out of more than [n] never meets an
    empty slice: it returns [n] documents. *)
Lemma drawLoop_length {A} (rnd : nat -> nat) (n k : nat) (temp : list A) :
  (n <= length temp)%nat -> length (drawLoop rnd k n temp) = n.
Proof.
  revert k temp. induction n as [|n IH]; intros k temp Hlen; [done|].
  simpl.
  assert (Intn rnd k (length temp) < length temp)%nat as Hj.
  { unfold Intn. apply Nat.mod_upper_bound. lia. }
  destruct (lookup_lt_is_Some_2 temp _ Hj) as [picked ->].
  destruct (last temp) as [final|] eqn:Hlast.
  - simpl. rewrite IH; [done|]. rewrite length_take, length_insert. lia.
  - apply last_None in Hlast. subst temp. simpl in Hlen. lia.
Qed.

Section SampleFacts.
Context `{GoRuntime}.

(** Whatever the random source draws, [$sample] returns a permutation of
    the input, every input document exactly once, when the count it derives
    from the size is at least the length of the input. *)
Theorem sample_whole_input (rnd : nat -> nat) (input : list Doc)
  (params : Doc) (sizeVal : Value) (size : float64) :
  GoMap.get params "size" = Some sizeVal ->
  toFloat64 sizeVal = Some size ->
  Z.of_nat (length input) <= toInt (F64.Max F64.zero (F64.Floor size)) ->
  exists sampled,
    sampleStage rnd input params = Ret (Ok sampled) /\ sampled ≡ₚ input.
Proof.
  intros Hget Hnum Hsize. unfold sampleStage. rewrite Hget, Hnum.
  destruct (Z.eqb_spec (toInt (F64.Max F64.zero (F64.Floor size))) 0)
    as [Hz|Hz].
  - exists []. split; [done|].
    destruct input; [done|]. simpl in Hsize. lia.
  - destruct (Z.leb_spec (Z.of_nat (length input))
                (toInt (F64.Max F64.zero (F64.Floor size)))); [|lia].
    eexists. split; [done|]. apply Shuffle_permutation.
Qed.

End SampleFacts.

(** C10.  A size of 2^63 passes the validator and is greater than the
    length of every input, and it does not fit an [int].  Where the
    conversion of such a number gives the smallest [int], as on amd64,
    [$sample] stops the program whatever the random source draws, instead
    of returning the input in a random order. *)
Theorem sample_beyond_int_panics (rnd : nat -> nat) (draws : nat -> nat -> nat)
  (order : Groups -> Groups) :
  validateSampleStage [("size", num (2 ^ 63))] = None
  /\ sampleStage rnd [[("i", num 1)]; [("i", num 2)]] [("size", num (2 ^ 63))]
     = Panic "makeslice: len out of range"
  /\ Query (oneCollection "c" [[("i", num 1)]; [("i", num 2)]])
       {| draws := draws; visit := order |} "c"
       [[("$sample", VDoc [("size", num (2 ^ 63))])]]
     = Panic "makeslice: len out of range".
Proof. repeat split; reflexivity. Qed.

Lemma sample_whole_input_witness :
  exists sampled,
    sampleStage (fun k => (7 * k + 3)%nat)
      [[("i", num 1)]; [("i", num 2)]; [("i", num 3)]]
      [("size", num 5)] = Ret (Ok sampled) /\
    sampled ≡ₚ [[("i", num 1)]; [("i", num 2)]; [("i", num 3)]].
Proof.
  apply (sample_whole_input (fun k => (7 * k + 3)%nat)
           [[("i", num 1)]; [("i", num 2)]; [("i", num 3)]]
           [("size", num 5)] (num 5) (F64.of_Z 5) eq_refl eq_refl).
  vm_compute. discriminate.
Defined.

(** ** The runner and [$limit] *)

Section RunnerFacts.
Context `{GoRuntime} `{Package}.

(** On its own, [limitStage] hands back its input when it finds no number:
    it never returns the nil slice that [Query] tests for. *)
Lemma limitStage_without_number (input : slice Doc) (params : Doc) :
  stageNumber params "$limit" = None -> limitStage input params = input.
Proof. intros Hnum. unfold limitStage. by rewrite Hnum. Qed.

Lemma limitStage_not_nil (input : list Doc) (params : Doc) :
  limitStage (Slice input) params <> NilSlice.
Proof.
  unfold limitStage. destruct (stageNumber params "$limit"); [|done].
  repeat case_match; done.
Qed.

(** The validator reads ["value"] and wants a [float64] there. *)
Lemma validateLimitStage_without_number (params : Doc) :
  stageNumber params "$limit" = None ->
  exists e, validateLimitStage params = Some e.
Proof.
  unfold stageNumber, validateLimitStage.
  destruct (toFloat64 (index params "$limit")); [done|].
  destruct (index params "value"); simpl; intros ?; simplify_eq; eauto.
Qed.

Lemma parseStageMap_bad_limit (stageMap : Doc) (raw : Value) :
  ("$limit", raw) ∈ stageMap ->
  (forall paramsMap, stageParams raw = Some paramsMap ->
                     stageNumber paramsMap "$limit" = None) ->
  exists e, parseStageMap stageMap = Err e.
Proof.
  intros Hin Hbad. induction stageMap as [|[stageName params] stageMap IH].
  - by apply elem_of_nil in Hin.
  - simpl. apply elem_of_cons in Hin as [Heq|Hin].
    + simplify_eq.
      destruct (stageParams params) as [paramsMap|] eqn:Hp; [|eauto].
      destruct (validateLimitStage_without_number paramsMap (Hbad _ eq_refl))
        as [e He].
      unfold validateStage. simpl. rewrite He. eauto.
    + destruct (IH Hin) as [e He]. rewrite He.
      repeat case_match; eauto.
Qed.

Lemma parse_bad_limit (pipeline : list Doc) (stageMap : Doc) (raw : Value) :
  stageMap ∈ pipeline ->
  ("$limit", raw) ∈ stageMap ->
  (forall paramsMap, stageParams raw = Some paramsMap ->
                     stageNumber paramsMap "$limit" = None) ->
  exists e, parseAggregationStages pipeline = Err e.
Proof.
  intros Hin Hstage Hbad. induction pipeline as [|stageMap' pipeline IH].
  - by apply elem_of_nil in Hin.
  - simpl. apply elem_of_cons in Hin as [<-|Hin].
    + destruct (parseStageMap_bad_limit _ _ Hstage Hbad) as [e ->]. eauto.
    + destruct (IH Hin) as [e ->]. case_match; eauto.
Qed.

(** C2.  When a [$limit] stage of the pipeline has a value from which no
    number can be read, neither under ["$limit"] nor under ["value"],
    [Query] returns an error and runs no stage. *)
Theorem unparsable_limit_is_fatal (db : DB) (ch : Choices)
  (collectionName : string) (pipeline : list Doc) (stageMap : Doc)
  (raw : Value) :
  stageMap ∈ pipeline ->
  ("$limit", raw) ∈ stageMap ->
  (forall paramsMap, stageParams raw = Some paramsMap ->
                     stageNumber paramsMap "$limit" = None) ->
  exists e, Query db ch collectionName pipeline = Ret (Err e).
Proof.
  intros Hin Hstage Hbad. unfold Query.
  destruct (parse_bad_limit _ _ _ Hin Hstage Hbad) as [e ->]. eauto.
Qed.

End RunnerFacts.

Lemma unparsable_limit_is_fatal_witness :
  exists e,
    Query (oneCollection "c" [[("i", num 1)]; [("i", num 2)]]) inOrder "c"
      [[("$skip", num 1)]; [("$limit", VStr "many")]] = Ret (Err e).
Proof.
  apply (unparsable_limit_is_fatal _ _ _ _ [("$limit", VStr "many")]
           (VStr "many")).
  - apply list_elem_of_In. simpl. auto.
  - apply list_elem_of_In. simpl. auto.
  - intros paramsMap [= <-]. reflexivity.
Defined.

(** ** [$set] and [$addFields] *)

Section SetFacts.
Context `{GoRuntime} `{Package}.

(** The runner has an empty case for ["$set"], and no stage changes the
    documents there. *)
Lemma runStage_set (db : DB) (rnd : nat -> nat) (order : Groups -> Groups)
  (params : Doc) (stageInput : list Doc) :
  runStage db rnd order {| Stage := "$set"; Params := params |} stageInput
  = Ret (Ok stageInput).
Proof. reflexivity. Qed.

Lemma runStage_addFields (db : DB) (rnd : nat -> nat)
  (order : Groups -> Groups) (params : Doc) (stageInput : list Doc) :
  runStage db rnd order {| Stage := "$addFields"; Params := params |}
    stageInput
  = Ret (addFieldsStage stageInput params).
Proof. reflexivity. Qed.

(** A [$set] stage that the validator accepts leaves the collection as it
    is. *)
Lemma set_is_skipped (db : DB) (ch : Choices) (collectionName : string)
  (params : Doc) (docs : list Doc) :
  validateAddFieldsStage params = None ->
  Collection db collectionName = Ok docs ->
  Query db ch collectionName [[("$set", VDoc params)]] = Ret (Ok docs).
Proof.
  intros Hvalid Hcoll. unfold Query. simpl. unfold validateStage. simpl.
  rewrite Hvalid, Hcoll. by destruct docs.
Qed.

(** The validator is the same for the two names. *)
Lemma validateStage_set (params : Doc) :
  validateStage "$set" params = validateStage "$addFields" params.
Proof. reflexivity. Qed.

End SetFacts.

(** C1.  On the collection [{a: 1}], the pipeline [{"$set": {b: "x"}}]
    returns the document unchanged, where [{"$addFields": {b: "x"}}] returns
    it with the field [b]: the two stages are not equivalent. *)
Theorem set_differs_from_addFields :
  Query (oneCollection "c" [[("a", num 1)]]) inOrder "c"
    [[("$set", VDoc [("b", VStr "x")])]]
  = Ret (Ok [[("a", num 1)]])
  /\ Query (oneCollection "c" [[("a", num 1)]]) inOrder "c"
       [[("$addFields", VDoc [("b", VStr "x")])]]
     = Ret (Ok [[("a", num 1); ("b", VStr "x")]]).
Proof. split; reflexivity. Qed.

(** ** [$lookup] *)

(** On a local value of a comparable type the join is the filter the
    specification describes. *)
Lemma matchingLoop_comparable (localValue : Value)
  (foreignCollection : list Doc) (foreignField : string) :
  hashable localValue = true ->
  matchingLoop localValue foreignCollection foreignField
  = Ret (List.filter
           (fun foreignDoc => keyEqb (index foreignDoc foreignField) localValue)
           foreignCollection).
Proof.
  intros Hcmp. induction foreignCollection as [|foreignDoc rest IH]; [done|].
  simpl. rewrite IH. unfold keyEqb.
  destruct (index foreignDoc foreignField), localValue; simpl; try done.
Qed.

(** C4.  A local value that is a nested document, equal to the value of the
    foreign document: [$lookup] does not collect the foreign document, the
    comparison panics; and so does the query. *)
Theorem lookup_nested_document_panics :
  lookupStage (oneCollection "orders" [[("k", VDoc [("a", num 1)])]])
    [[("k", VDoc [("a", num 1)])]]
    [("from", VStr "orders"); ("localField", VStr "k");
     ("foreignField", VStr "k"); ("as", VStr "found")]
  = Panic "comparing uncomparable type map[string]interface {}"
  /\ Query (oneCollection "orders" [[("k", VDoc [("a", num 1)])]]) inOrder
       "orders"
       [[("$lookup", VDoc [("from", VStr "orders"); ("localField", VStr "k");
                           ("foreignField", VStr "k"); ("as", VStr "found")])]]
     = Panic "comparing uncomparable type map[string]interface {}".
Proof. split; reflexivity. Qed.

(** ** [$sort] *)

(** C8.  The specification [{a: 1, b: 1}] and the documents [{a: 1, b: 2}],
    [{a: 2, b: 1}]: a sort whose closure visits [a] first leaves them in this
    order; sorting that result again by the same specification, the closure
    visiting [b] first this time, reverses them. *)
Theorem resort_changes_order :
  [("a", num 1); ("b", num 1)] ≡ₚ [("b", num 1); ("a", num 1)]
  /\ sortStage [[("a", num 1); ("b", num 2)]; [("a", num 2); ("b", num 1)]]
       [("a", num 1); ("b", num 1)]
     = [[("a", num 1); ("b", num 2)]; [("a", num 2); ("b", num 1)]]
  /\ sortStage
       (sortStage [[("a", num 1); ("b", num 2)]; [("a", num 2); ("b", num 1)]]
          [("a", num 1); ("b", num 1)])
       [("b", num 1); ("a", num 1)]
     = [[("a", num 2); ("b", num 1)]; [("a", num 1); ("b", num 2)]].
Proof. split; [apply perm_swap|split; reflexivity]. Qed.

(** ** [$project] *)

Lemma eqb_zero_not_one (spec : float64) :
  F64.eqb spec F64.zero = true -> F64.eqb spec F64.one = false.
Proof. destruct spec as [?|[]| |[] ? ?]; simpl; done. Qed.

Lemma includes_skip (field : string) (raw : Value) (params : Doc) :
  (forall spec, raw = VNum spec -> field = "_id") ->
  includes ((field, raw) :: params) -> includes params.
Proof.
  intros Hskip (f & s & Hin & Hid & Hs).
  apply elem_of_cons in Hin as [?|Hin]; simplify_eq.
  - destruct Hid. by eapply Hskip.
  - by exists f, s.
Qed.

Lemma excludes_skip (field : string) (raw : Value) (params : Doc) :
  (forall spec, raw = VNum spec -> field = "_id") ->
  excludes ((field, raw) :: params) -> excludes params.
Proof.
  intros Hskip (f & s & Hin & Hid & Hs).
  apply elem_of_cons in Hin as [?|Hin]; simplify_eq.
  - destruct Hid. by eapply Hskip.
  - by exists f, s.
Qed.

Lemma scanProjection_skip (field : string) (raw : Value) (params : Doc)
  (hasInclusion hasExclusion : bool) :
  (forall spec, raw = VNum spec -> field = "_id") ->
  scanProjection ((field, raw) :: params) hasInclusion hasExclusion
  = scanProjection params hasInclusion hasExclusion.
Proof.
  intros Hskip. simpl. destruct raw; try done.
  by rewrite (Hskip _ eq_refl).
Qed.

Lemma scanProjection_mixed (params : Doc) (hasInclusion hasExclusion : bool) :
  hasInclusion = true \/ includes params ->
  hasExclusion = true \/ excludes params ->
  hasInclusion && hasExclusion = false ->
  exists e, scanProjection params hasInclusion hasExclusion = Err e.
Proof.
  revert hasInclusion hasExclusion.
  induction params as [|[field raw] params IH];
    intros hasInclusion hasExclusion Hincl Hexcl Hnot.
  - destruct Hincl as [->|(? & ? & []%elem_of_nil & _)].
    destruct Hexcl as [->|(? & ? & []%elem_of_nil & _)]. done.
  - assert ((forall spec, raw = VNum spec -> field = "_id")
            \/ exists spec, raw = VNum spec /\ field <> "_id")
      as [Hskip|(spec & -> & Hfield)].
    { destruct raw; try (by left).
      destruct (String.eqb_spec field "_id"); [by left|right; eauto]. }
    + rewrite scanProjection_skip by done.
      apply IH; [| |done].
      * destruct Hincl; [by left|right]. by eapply includes_skip.
      * destruct Hexcl; [by left|right]. by eapply excludes_skip.
    + simpl. destruct (String.eqb_spec field "_id") as [?|_]; [done|].
      destruct ((hasInclusion || F64.eqb spec F64.one)
                && (hasExclusion
                    || negb (F64.eqb spec F64.one) && F64.eqb spec F64.zero))
        eqn:Hboth; [eauto|].
      apply IH; [| |done].
      * destruct Hincl as [->|(f & s & Hin & Hid & Hs)]; [by left|].
        apply elem_of_cons in Hin as [?|Hin]; simplify_eq.
        -- left. rewrite Hs. apply orb_true_r.
        -- right. by exists f, s.
      * destruct Hexcl as [->|(f & s & Hin & Hid & Hs)]; [by left|].
        apply elem_of_cons in Hin as [?|Hin]; simplify_eq.
        -- left. rewrite Hs, (eqb_zero_not_one _ Hs). apply orb_true_r.
        -- right. by exists f, s.
Qed.

Lemma validateProjectEntries_numeric (params : Doc) :
  (forall field val, (field, val) ∈ params ->
     exists spec, val = VNum spec
       /\ (F64.eqb spec F64.one = true \/ F64.eqb spec F64.zero = true)) ->
  validateProjectEntries params = None.
Proof.
  induction params as [|[field val] params IH]; intros Hnum; [done|].
  destruct (Hnum field val) as (spec & -> & Hspec); [left|].
  simpl. rewrite IH.
  - destruct Hspec as [->| ->]; [done|]. by rewrite andb_false_r.
  - intros f v Hin. apply (Hnum f v). by right.
Qed.

Section ProjectFacts.
Context `{GoRuntime} `{Package}.

(** C5, as the code has it.  A [$project] specification with a numeric 1
    and a numeric 0 on fields other than [_id] is no validation error: when
    the stage runs, it finds the mix and returns its input unchanged, and a
    specification made of numeric 1 and 0 entries passes the validator, so
    that the query returns the collection as it is. *)
Theorem mixed_projection_passes_through (db : DB) (ch : Choices)
  (collectionName : string) (input : list Doc) (params : Doc) :
  includes params ->
  excludes params ->
  projectStage input params = Ret input
  /\ ((forall field val, (field, val) ∈ params ->
         exists spec, val = VNum spec
           /\ (F64.eqb spec F64.one = true \/ F64.eqb spec F64.zero = true)) ->
      validateProjectStage params = None
      /\ (Collection db collectionName = Ok input ->
          Query db ch collectionName [[("$project", VDoc params)]]
          = Ret (Ok input))).
Proof.
  intros Hincl Hexcl.
  assert (exists e, determineProjectionMode params = Err e) as [e He].
  { apply scanProjection_mixed; auto. }
  assert (projectStage input params = Ret input) as Hstage.
  { unfold projectStage. by rewrite He. }
  split; [done|]. intros Hnum.
  assert (validateProjectStage params = None) as Hvalid.
  { unfold validateProjectStage.
    rewrite (validateProjectEntries_numeric _ Hnum).
    destruct params; [|done].
    by destruct Hincl as (? & ? & []%elem_of_nil & _). }
  split; [done|]. intros Hcoll.
  unfold Query. simpl. unfold validateStage. simpl.
  rewrite Hvalid, Hcoll. simpl.
  destruct input as [|doc input]; [done|]. simpl.
  unfold runStage. simpl. by rewrite Hstage.
Qed.

End ProjectFacts.

(** The collection [{a: 1, b: 2}] and the pipeline
    [{"$project": {a: 1, b: 0}}]: the validator accepts the stage and the
    query returns the collection, with no error. *)
Lemma mixed_projection_is_not_rejected :
  validateStage "$project" [("a", num 1); ("b", num 0)] = None
  /\ Query (oneCollection "c" [[("a", num 1); ("b", num 2)]]) inOrder "c"
       [[("$project", VDoc [("a", num 1); ("b", num 0)])]]
     = Ret (Ok [[("a", num 1); ("b", num 2)]]).
Proof. split; reflexivity. Qed.

Lemma mixed_projection_passes_through_witness :
  projectStage [[("a", num 1); ("b", num 2)]] [("a", num 1); ("b", num 0)]
  = Ret [[("a", num 1); ("b", num 2)]].
Proof.
  apply (mixed_projection_passes_through
           (oneCollection "c" [[("a", num 1); ("b", num 2)]]) inOrder "c").
  - exists "a", (F64.of_Z 1). split; [|done].
    apply list_elem_of_In. simpl. auto.
  - exists "b", (F64.of_Z 0). split; [|done].
    apply list_elem_of_In. simpl. auto.
Defined.

(** ** Maps: reading after writing *)

Lemma get_set_eq {A} (m : list (string * A)) (k : string) (v : A) :
  GoMap.get (GoMap.set m k v) k = Some v.
Proof.
  induction m as [|[k' v'] m IH]; simpl.
  - by rewrite String.eqb_refl.
  - destruct (String.eqb_spec k' k) as [->|Hne]; simpl.
    + by rewrite String.eqb_refl.
    + by destruct (String.eqb_spec k' k).
Qed.

Lemma get_set_ne {A} (m : list (string * A)) (k k' : string) (v : A) :
  k <> k' -> GoMap.get (GoMap.set m k v) k' = GoMap.get m k'.
Proof.
  intros Hne. induction m as [|[k0 v0] m IH]; simpl.
  - by destruct (String.eqb_spec k k').
  - destruct (String.eqb_spec k0 k) as [->|Hk0]; simpl.
    + by destruct (String.eqb_spec k k').
    + by rewrite IH.
Qed.

Lemma index_set_eq (m : Doc) (k : string) (v : Value) :
  index (GoMap.set m k v) k = v.
Proof. unfold index. by rewrite get_set_eq. Qed.

Lemma index_set_ne (m : Doc) (k k' : string) (v : Value) :
  k <> k' -> index (GoMap.set m k v) k' = index m k'.
Proof. intros Hne. unfold index. by rewrite get_set_ne. Qed.

(** ** Grouping *)

Lemma groupParams_no_field (params : Doc) (groupIDField : string)
  (aggExpressions : list (string * Doc)) :
  namesNoField params ->
  (groupParams params groupIDField aggExpressions).1 = groupIDField.
Proof.
  revert aggExpressions.
  induction params as [|[k v] params IH]; intros aggExpressions Hid; [done|].
  assert (namesNoField params) as Hid'.
  { intros idStr Hin. apply Hid. by right. }
  simpl. destruct (String.eqb_spec k "_id") as [->|Hk].
  - destruct v; auto. rewrite (Hid s); [auto|left].
  - destruct v; auto.
Qed.

(** Documents that all have the same hashable key, equal to itself, fall
    into one group, in their order. *)
Lemma buildGroups_one_key (input : list Doc) (groupIDField : string)
  (key : Value) (docs : list Doc) :
  hashable key = true ->
  keyEqb key key = true ->
  Forall (fun doc => index doc groupIDField = key) input ->
  buildGroups input groupIDField [(key, docs)]
  = Ret [(key, (docs ++ input)%list)].
Proof.
  intros Hhash Hrefl Hall. revert docs.
  induction Hall as [|doc input Hdoc _ IH]; intros docs.
  - by rewrite app_nil_r.
  - simpl. rewrite Hdoc, Hhash, Hrefl, IH. by rewrite <- app_assoc.
Qed.

Lemma buildGroups_single (input : list Doc) (groupIDField : string)
  (key : Value) :
  input <> [] ->
  hashable key = true ->
  keyEqb key key = true ->
  Forall (fun doc => index doc groupIDField = key) input ->
  buildGroups input groupIDField [] = Ret [(key, input)].
Proof.
  intros Hne Hhash Hrefl Hall. destruct Hall as [|doc input Hdoc Hall]; [done|].
  simpl. rewrite Hdoc, Hhash. by apply buildGroups_one_key.
Qed.

Section GroupFacts.
Context `{GoRuntime} `{Package}.

Lemma applyOperators_id (groupResult : Doc) (fieldName : string) (expr : Doc)
  (groupDocs : list Doc) (result : Doc) :
  fieldName <> "_id" ->
  applyOperators groupResult fieldName expr groupDocs = Ret result ->
  GoMap.get result "_id" = GoMap.get groupResult "_id".
Proof.
  intros Hfield. revert groupResult.
  induction expr as [|[op val] expr IH]; intros groupResult; simpl.
  - by intros [= ->].
  - destruct (accumulate op groupDocs val) as [[v|]|]; simpl; [| |done].
    + intros Hrest. rewrite (IH _ Hrest). by apply get_set_ne.
    + apply IH.
Qed.

Lemma applyExpressions_id (groupResult : Doc)
  (aggExpressions : list (string * Doc)) (groupDocs : list Doc)
  (result : Doc) :
  "_id" ∉ GoMap.keys aggExpressions ->
  applyExpressions groupResult aggExpressions groupDocs = Ret result ->
  GoMap.get result "_id" = GoMap.get groupResult "_id".
Proof.
  revert groupResult.
  induction aggExpressions as [|[fieldName expr] aggs IH];
    intros groupResult Hid; simpl.
  - by intros [= ->].
  - apply not_elem_of_cons in Hid as [Hfield Hid].
    destruct (applyOperators groupResult fieldName expr groupDocs)
      as [groupResult'|] eqn:Hops; simpl; [|done].
    intros Hrest. rewrite (IH _ Hid Hrest).
    by eapply applyOperators_id.
Qed.

End GroupFacts.

Lemma keys_set {A} (m : list (string * A)) (k k' : string) (v : A) :
  k' ∈ GoMap.keys (GoMap.set m k v) -> k' = k \/ k' ∈ GoMap.keys m.
Proof.
  unfold GoMap.keys. induction m as [|[k0 v0] m IH]; simpl.
  - intros ->%list_elem_of_singleton. by left.
  - destruct (String.eqb_spec k0 k) as [->|Hne]; simpl.
    + intros [->|Hin]%elem_of_cons; [by left|right; by right].
    + intros [->|Hin]%elem_of_cons; [right; by left|].
      destruct (IH Hin); [by left|right; by right].
Qed.

Lemma groupParams_keys (params : Doc) (groupIDField : string)
  (aggExpressions : list (string * Doc)) :
  "_id" ∉ GoMap.keys aggExpressions ->
  "_id" ∉ GoMap.keys (groupParams params groupIDField aggExpressions).2.
Proof.
  revert groupIDField aggExpressions.
  induction params as [|[k v] params IH]; intros groupIDField aggs Hid; [done|].
  simpl. destruct (String.eqb_spec k "_id") as [->|Hk].
  - destruct v; auto. destruct (hasDollar s); auto.
  - destruct v; auto. apply IH. intros [?|?]%keys_set; [congruence|done].
Qed.

Section GroupWithoutField.
Context `{GoRuntime} `{Package}.

(** C7, as the code has it.  When the [_id] parameter of [$group] is no
    string beginning with a dollar sign, the group key of a document is the
    value of its field with the empty name.  So when the input is not empty
    and no document has a value other than nil under the empty name, the
    stage outputs exactly one document: its [_id] is nil and its accumulators
    are computed over all the input documents, in their order. *)
Theorem group_without_field (order : Groups -> Groups) (input : list Doc)
  (params : Doc) :
  (forall groups, order groups ≡ₚ groups) ->
  namesNoField params ->
  input <> [] ->
  Forall (fun doc => index doc "" = VNil) input ->
  groupStage order input params
  = (groupResult ← applyExpressions [("_id", VNil)]
                     (groupParams params "" []).2 input;
     Ret [groupResult])
  /\ (forall groupResult,
        applyExpressions [("_id", VNil)] (groupParams params "" []).2 input
        = Ret groupResult ->
        GoMap.get groupResult "_id" = Some VNil).
Proof.
  intros Horder Hid Hne Hall. split.
  - unfold groupStage.
    pose proof (groupParams_no_field params "" [] Hid) as Hfield.
    destruct (groupParams params "" []) as [groupIDField aggExpressions].
    simpl in Hfield. subst groupIDField.
    rewrite (buildGroups_single input "" VNil) by done. simpl.
    pose proof (Horder [(VNil, input)]) as ->%Permutation_singleton_r.
    simpl. unfold groupResultOf. simpl.
    by destruct (applyExpressions _ _ _).
  - intros groupResult Hres.
    assert ("_id" ∉ GoMap.keys (groupParams params "" []).2) as Hkeys.
    { apply groupParams_keys. by intros ?%elem_of_nil. }
    by rewrite (applyExpressions_id _ _ _ _ Hkeys Hres).
Qed.

End GroupWithoutField.

Lemma group_without_field_witness :
  groupStage (fun groups => groups)
    [[("city", VStr "A"); ("age", num 10)];
     [("city", VStr "B"); ("age", num 5)]]
    [("_id", VNil); ("n", VDoc [("$sum", num 1)])]
  = Ret [[("_id", VNil); ("n", num 2)]].
Proof.
  refine (eq_trans
    (proj1 (group_without_field (fun groups => groups)
       [[("city", VStr "A"); ("age", num 10)];
        [("city", VStr "B"); ("age", num 5)]]
       [("_id", VNil); ("n", VDoc [("$sum", num 1)])] _ _ _ _)) _).
  - done.
  - intros idStr Hin. apply list_elem_of_In in Hin. simpl in Hin.
    destruct Hin as [Heq|[Heq|[]]]; discriminate Heq.
  - done.
  - repeat constructor.
  - reflexivity.
Defined.

(** The documents [{"": "x"}] and [{"": "y"}] and the constant [_id] nil:
    two groups, none with the [_id] nil. *)
Lemma group_by_empty_name :
  groupStage (fun groups => groups) [[("", VStr "x")]; [("", VStr "y")]]
    [("_id", VNil); ("n", VDoc [("$sum", num 1)])]
  = Ret [[("_id", VStr "x"); ("n", num 1)]; [("_id", VStr "y"); ("n", num 1)]].
Proof. reflexivity. Qed.

(** ** [$unwind], then [$group] with [$push] *)

Lemma unwound_document (elems : list Value) :
  Forall isDocument elems -> map unwound elems = elems.
Proof.
  induction 1 as [|item elems [m ->] _ IH]; [done|]. simpl. by rewrite IH.
Qed.

Lemma unwindStage_array (doc : Doc) (field : string) (elems : list Value) :
  GoMap.get doc field = Some (VArr elems) ->
  unwindStage [doc] [("path", VStr (String "$" field))]
  = map (fun item => GoMap.set doc field (unwound item)) elems.
Proof.
  intros Hget. unfold unwindStage. simpl. rewrite app_nil_r.
  unfold unwindDoc. rewrite Hget. destruct elems as [|item elems]; [done|].
  rewrite (imap_ext _ (const (fun item => GoMap.set doc field (unwound item))))
    by done.
  by rewrite imap_const.
Qed.

Section UnwindGroup.
Context `{GoRuntime} `{Package}.

Lemma getNestedField_top (doc : Doc) (field : string) :
  splitDots field = [field] ->
  index doc field <> VNil ->
  getNestedField doc field = index doc field.
Proof.
  intros Hsplit Hnil. unfold getNestedField. rewrite Hsplit. simpl.
  by destruct (index doc field).
Qed.

Lemma collectValues_unwound (doc : Doc) (field : string)
  (elems : list Value) :
  splitDots field = [field] ->
  collectValues (map (fun item => GoMap.set doc field (unwound item)) elems)
    (VStr (String "$" field))
  = map unwound elems.
Proof.
  intros Hsplit. unfold collectValues. simpl.
  induction elems as [|item elems IH]; [done|]. simpl.
  rewrite getNestedField_top, index_set_eq by (by rewrite ?index_set_eq).
  simpl. by rewrite IH.
Qed.

Lemma groupParams_push (params : Doc) (out field : string) :
  out <> "_id" ->
  params ≡ₚ [("_id", VStr "$_id");
             (out, VDoc [("$push", VStr (String "$" field))])] ->
  groupParams params "" []
  = ("_id", [(out, [("$push", VStr (String "$" field))])]).
Proof.
  intros Hout%String.eqb_neq Hperm. symmetry in Hperm.
  apply Permutation_length_2_inv in Hperm as [-> | ->]; simpl;
    by rewrite Hout.
Qed.

Lemma groupResults_single (aggExpressions : list (string * Doc))
  (group : Value * list Doc) :
  groupResults aggExpressions [group]
  = (groupResult ← groupResultOf aggExpressions group; Ret [groupResult]).
Proof. simpl. by destruct (groupResultOf aggExpressions group). Qed.

Lemma groupResultOf_push (out : string) (val : Value) (key : Value)
  (docs : list Doc) :
  out <> "_id" ->
  groupResultOf [(out, [("$push", val)])] (key, docs)
  = Ret [("_id", key); (out, VArr (collectValues docs val))].
Proof.
  intros Hout. unfold groupResultOf.
  change (applyExpressions [("_id", (key, docs).1)] [(out, [("$push", val)])]
            (key, docs).2)
    with (Ret (GoMap.set [("_id", key)] out
                 (VArr (collectValues docs val)))).
  unfold GoMap.set. by destruct (String.eqb_spec "_id" out).
Qed.

(** C6, as the code has it.  A document with a hashable [_id] and a
    non-empty array under a field: [$unwind] on the field, then [$group] by
    [_id] with [$push] of the field, gives one document that holds, in the
    order of the array, what [$unwind] made of each element: the element
    itself when it is a document, the element wrapped as [{"value": element}]
    when it is not.  So an array of documents comes back as it was. *)
Theorem unwind_then_push (order : Groups -> Groups) (doc : Doc)
  (field out : string) (idv : Value) (elems : list Value) (params : Doc) :
  (forall groups, order groups ≡ₚ groups) ->
  GoMap.get doc "_id" = Some idv ->
  hashable idv = true ->
  keyEqb idv idv = true ->
  GoMap.get doc field = Some (VArr elems) ->
  elems <> [] ->
  field <> "_id" ->
  splitDots field = [field] ->
  out <> "_id" ->
  params ≡ₚ [("_id", VStr "$_id");
             (out, VDoc [("$push", VStr (String "$" field))])] ->
  groupStage order
    (unwindStage [doc] [("path", VStr (String "$" field))]) params
  = Ret [[("_id", idv); (out, VArr (map unwound elems))]]
  /\ (Forall isDocument elems -> map unwound elems = elems).
Proof.
  intros Horder Hid Hhash Hrefl Hget Hne Hfield Hsplit Hout Hperm.
  split; [|apply unwound_document].
  rewrite (unwindStage_array _ _ _ Hget). unfold groupStage.
  rewrite (groupParams_push _ _ _ Hout Hperm).
  rewrite (buildGroups_single _ "_id" idv); [|by destruct elems|done|done|].
  - simpl.
    pose proof (Horder [(idv,
      map (fun item => GoMap.set doc field (unwound item)) elems)])
      as ->%Permutation_singleton_r.
    rewrite groupResults_single, groupResultOf_push by done.
    by rewrite collectValues_unwound.
  - clear Hne Hget. induction elems as [|item elems IH]; constructor; [|done].
    rewrite index_set_ne by done. unfold index. by rewrite Hid.
Qed.

End UnwindGroup.

Lemma unwind_then_push_witness :
  groupStage (fun groups => groups)
    (unwindStage
       [[("_id", VStr "d");
         ("items", VArr [VDoc [("sku", VStr "p")]; VDoc [("sku", VStr "q")]])]]
       [("path", VStr "$items")])
    [("_id", VStr "$_id"); ("items", VDoc [("$push", VStr "$items")])]
  = Ret [[("_id", VStr "d");
          ("items",
           VArr (map unwound
                   [VDoc [("sku", VStr "p")]; VDoc [("sku", VStr "q")]]))]].
Proof.
  apply (unwind_then_push (fun groups => groups)
           [("_id", VStr "d");
            ("items",
             VArr [VDoc [("sku", VStr "p")]; VDoc [("sku", VStr "q")]])]
           "items" "items" (VStr "d")); try done.
Defined.

(** The document [{_id: "d", tags: [1, 2]}]: the array that comes back holds
    two wrapped elements, no permutation of [[1, 2]]. *)
Lemma unwind_then_push_scalars :
  groupStage (fun groups => groups)
    (unwindStage [[("_id", VStr "d"); ("tags", VArr [num 1; num 2])]]
       [("path", VStr "$tags")])
    [("_id", VStr "$_id"); ("tags", VDoc [("$push", VStr "$tags")])]
  = Ret [[("_id", VStr "d");
          ("tags", VArr [VDoc [("value", num 1)]; VDoc [("value", num 2)]])]]
  /\ ~ [VDoc [("value", num 1)]; VDoc [("value", num 2)]]
       ≡ₚ [num 1; num 2].
Proof.
  split; [reflexivity|].
  intros Hperm.
  assert (VDoc [("value", num 1)] ∈ [num 1; num 2]) as Hin.
  { rewrite <- Hperm. left. }
  apply list_elem_of_In in Hin. simpl in Hin.
  destruct Hin as [Heq|[Heq|[]]]; discriminate Heq.
Qed.

(** ** The same map in two orders *)


Lemma get_None_keys {A} (m : list (string * A)) (k : string) :
  k ∉ GoMap.keys m -> GoMap.get m k = None.
Proof.
  induction m as [|[k' v'] m IH]; simpl; [done|].
  intros [Hne Hin]%not_elem_of_cons.
  destruct (String.eqb_spec k' k) as [->|_]; [done|]. auto.
Qed.







(** ** Two executions of [$group] *)







Section TwoGroupings.
Context `{GoRuntime} `{Package}.







End TwoGroupings.

(** ** Two executions of a pipeline *)




Section TwoExecutions.
Context `{GoRuntime} `{Package}.









End TwoExecutions.




(** ** What the sort keeps *)

Lemma SFcompare_antisym (x y : float64) :
  SFcompare y x = CompOpp <$> SFcompare x y.
Proof.
  destruct x as [[]|[]| |[] mx ex], y as [[]|[]| |[] my ey]; simpl;
    try done;
    rewrite (Z.compare_antisym ex ey); destruct (ex ?= ey)%Z; simpl; try done;
    repeat (apply (f_equal Some) || apply (f_equal CompOpp));
    symmetry; exact (Pos.compare_cont_antisym mx my Eq).
Qed.

Lemma F64_eqb_sym (x y : float64) : F64.eqb x y = F64.eqb y x.
Proof.
  unfold F64.eqb, SFeqb. rewrite (SFcompare_antisym x y).
  by destruct (SFcompare x y) as [[]|].
Qed.

Lemma F64_ltb_asym (x y : float64) :
  F64.ltb x y = true -> F64.ltb y x = false.
Proof.
  unfold F64.ltb, SFltb. rewrite (SFcompare_antisym x y).
  by destruct (SFcompare x y) as [[]|].
Qed.

Lemma String_ltb_asym (s1 s2 : string) :
  String.ltb s1 s2 = true -> String.ltb s2 s1 = false.
Proof.
  unfold String.ltb. rewrite (String.compare_antisym s1 s2).
  by destruct (String.compare s2 s1).
Qed.

Section SortFacts.
Context `{GoRuntime}.

(** With the keys visited in one order, the closure never puts two
    documents each before the other. *)
Lemma sortLess_asym (params : Doc) (di dj : Doc) :
  sortLess params di dj = true -> sortLess params dj di = false.
Proof.
  induction params as [|[field direction] params IH]; simpl; [done|].
  destruct direction as [| |dirFloat| | | | |]; try done.
  destruct (toFloat64 (index di field)) as [iNum|],
    (toFloat64 (index dj field)) as [jNum|];
    try (rewrite (String.eqb_sym (Sprint (index dj field)));
         destruct (String.eqb (Sprint (index di field))
                     (Sprint (index dj field))); [done|];
         destruct (F64.eqb dirFloat F64.one); apply String_ltb_asym).
  rewrite (F64_eqb_sym jNum iNum).
  destruct (F64.eqb iNum jNum); [done|].
  destruct (F64.eqb dirFloat F64.one); apply F64_ltb_asym.
Qed.

End SortFacts.

Section InsertionFacts.
Context {A : Type} (less : A -> A -> bool).

Lemma settled_tail (x : A) (before : list A) :
  settled less (x :: before) -> settled less before.
Proof. destruct before; simpl; tauto. Qed.

Lemma sink_settled (x : A) (before : list A) :
  (forall a b, less a b = true -> less b a = false) ->
  settled less before -> settled less (sink less x before).
Proof.
  intros Hasym. induction before as [|y before IH]; intros Hset; [done|].
  simpl. destruct (less x y) eqn:Hxy; [|done].
  specialize (IH (settled_tail _ _ Hset)).
  destruct before as [|z before]; simpl in *.
  - split; [by apply Hasym|done].
  - destruct (less x z); simpl; (split; [|done]); [tauto|by apply Hasym].
Qed.

Lemma insertion_settled (data before : list A) :
  (forall a b, less a b = true -> less b a = false) ->
  settled less before ->
  settled less (fold_left (fun before x => sink less x before) data before).
Proof.
  intros Hasym. revert before.
  induction data as [|x data IH]; intros before Hset; [done|].
  simpl. apply IH. by apply sink_settled.
Qed.

Lemma insertion_of_settled (data : list A) :
  settled less (rev data) ->
  fold_left (fun before x => sink less x before) data [] = rev data.
Proof.
  induction data as [|x data IH] using rev_ind; [done|].
  rewrite rev_app_distr, fold_left_app. simpl. intros Hset.
  rewrite IH by (by eapply settled_tail).
  destruct (rev data) as [|y before]; [done|]. simpl in *.
  by destruct Hset as [-> _].
Qed.

(** Sorting what is sorted changes nothing. *)
Lemma SliceStable_idempotent (data : list A) :
  (forall a b, less a b = true -> less b a = false) ->
  SliceStable less (SliceStable less data) = SliceStable less data.
Proof.
  intros Hasym. unfold SliceStable. f_equal.
  rewrite insertion_of_settled; rewrite rev_involutive; [done|].
  by apply insertion_settled.
Qed.

Lemma sink_filter (keep : A -> bool) (x : A) (before : list A) :
  (forall a b, keep a = true -> keep b = true -> less a b = false) ->
  List.filter keep (sink less x before) = List.filter keep (x :: before).
Proof.
  intros Htied. induction before as [|y before IH]; [done|].
  simpl in *. destruct (less x y) eqn:Hxy; [|done].
  simpl. rewrite IH.
  destruct (keep x) eqn:Hx, (keep y) eqn:Hy; try done.
  by rewrite Htied in Hxy.
Qed.

Lemma insertion_filter (keep : A -> bool) (data before : list A) :
  (forall a b, keep a = true -> keep b = true -> less a b = false) ->
  List.filter keep (fold_left (fun before x => sink less x before) data before)
  = (rev (List.filter keep data) ++ List.filter keep before)%list.
Proof.
  intros Htied. revert before.
  induction data as [|x data IH]; intros before; [done|].
  simpl. rewrite IH, sink_filter by done. simpl.
  destruct (keep x); [|done]. simpl. by rewrite <- app_assoc.
Qed.

(** Elements none of which is less than another keep their order. *)
Lemma SliceStable_stable (keep : A -> bool) (data : list A) :
  (forall a b, keep a = true -> keep b = true -> less a b = false) ->
  List.filter keep (SliceStable less data) = List.filter keep data.
Proof.
  intros Htied. unfold SliceStable.
  rewrite List.filter_rev, insertion_filter by done. simpl.
  by rewrite app_nil_r, rev_involutive.
Qed.

End InsertionFacts.

Section SortStageFacts.
Context `{GoRuntime}.

(** In the embedding, documents that the closure never orders keep their
    relative order, and a second sort that visits the keys in the order of
    the first changes nothing. *)
Lemma sortStage_stable (keep : Doc -> bool) (input : list Doc)
  (params : Doc) :
  (forall a b, keep a = true -> keep b = true -> sortLess params a b = false) ->
  List.filter keep (sortStage input params) = List.filter keep input.
Proof. apply SliceStable_stable. Qed.

Lemma sortStage_idempotent (input : list Doc) (params : Doc) :
  sortStage (sortStage input params) params = sortStage input params.
Proof. apply SliceStable_idempotent, sortLess_asym. Qed.

End SortStageFacts.

(** * More properties *)

(** ** What [$sort] returns *)

Section InsertionPermutation.
Context {A : Type} (less : A -> A -> bool).

Lemma sink_Permutation (x : A) (before : list A) :
  sink less x before ≡ₚ x :: before.
Proof.
  induction before as [|y before IH]; simpl; [done|].
  destruct (less x y); [|done]. rewrite IH. apply perm_swap.
Qed.

Lemma insertion_Permutation (data before : list A) :
  fold_left (fun before x => sink less x before) data before
  ≡ₚ (data ++ before)%list.
Proof.
  revert before. induction data as [|x data IH]; intros before; [done|].
  simpl. rewrite IH, sink_Permutation. by rewrite Permutation_middle.
Qed.

Lemma SliceStable_Permutation (data : list A) : SliceStable less data ≡ₚ data.
Proof.
  unfold SliceStable. rewrite <- Permutation_rev, insertion_Permutation.
  by rewrite app_nil_r.
Qed.

(** In a slice that is settled when read backwards, no element is less than
    the one before it. *)
Lemma settled_neighbours (l : list A) (i : nat) (a b : A) :
  settled less (rev l) ->
  l !! i = Some a -> l !! S i = Some b -> less b a = false.
Proof.
  revert i a b. induction l as [|z l IH] using rev_ind; intros i a b Hset.
  - intros Ha. by rewrite lookup_nil in Ha.
  - rewrite rev_app_distr in Hset. simpl in Hset.
    intros Ha Hb.
    destruct (decide (S i < length l)%nat) as [Hlt|Hge].
    + rewrite lookup_app_l in Ha by lia. rewrite lookup_app_l in Hb by lia.
      eapply IH; [|done..]. by eapply settled_tail.
    + assert (S i = length l) as Hi.
      { apply lookup_lt_Some in Hb. rewrite length_app in Hb. simpl in Hb.
        lia. }
      rewrite lookup_app_l in Ha by lia.
      rewrite lookup_app_r, Hi, Nat.sub_diag in Hb by lia.
      simpl in Hb. simplify_eq.
      assert (last l = Some a) as Hlast.
      { rewrite last_lookup. by replace (pred (length l)) with i by lia. }
      destruct l as [|y l _] using rev_ind; [done|].
      rewrite last_snoc in Hlast. simplify_eq.
      rewrite rev_app_distr in Hset. simpl in Hset. tauto.
Qed.

End InsertionPermutation.

Section SortedFacts.
Context `{GoRuntime}.

(** X1.  [$sort] on one key, of 20 documents at most (where
    [sort.SliceStable] is one insertion sort and the closure reads one key):
    it returns the documents of its input, each as often as it occurs there,
    in a sequence in which no document is ordered before the one that
    precedes it. *)
Theorem sort_orders_a_permutation (input : list Doc) (params : Doc) :
  (length params <= 1)%nat ->
  (length input <= 20)%nat ->
  sortStage input params ≡ₚ input
  /\ forall (i : nat) (a b : Doc),
       sortStage input params !! i = Some a ->
       sortStage input params !! S i = Some b ->
       sortLess params b a = false.
Proof.
  intros _ _. split; [apply SliceStable_Permutation|].
  intros i a b. apply settled_neighbours. unfold sortStage, SliceStable.
  rewrite rev_involutive. apply insertion_settled; [|done].
  apply sortLess_asym.
Qed.

End SortedFacts.

Lemma sort_orders_a_permutation_witness :
  sortStage [[("a", num 2)]; [("a", num 1)]] [("a", num 1)]
  ≡ₚ [[("a", num 2)]; [("a", num 1)]]
  /\ sortLess [("a", num 1)] [("a", num 2)] [("a", num 1)] = false.
Proof.
  destruct (sort_orders_a_permutation [[("a", num 2)]; [("a", num 1)]]
              [("a", num 1)]) as [Hperm Hordered]; [simpl; lia..|].
  split; [exact Hperm|]. by apply (Hordered 0%nat).
Defined.

(** ** Pages *)

Section PageFacts.
Context `{GoRuntime}.

(** X2.  A page and the rest: when [$limit] and [$skip] derive the same
    count from their numbers, the documents that [$limit] keeps, followed by
    the documents that [$skip] leaves, are the input. *)
Theorem limit_and_skip_split (input : list Doc) (limitParams skipParams : Doc)
  (limitFloat skip : float64) (n : nat) :
  stageNumber limitParams "$limit" = Some limitFloat ->
  toInt limitFloat = Z.of_nat n ->
  stageNumber skipParams "$skip" = Some skip ->
  toInt (F64.Max F64.zero (F64.Floor skip)) = Z.of_nat n ->
  exists rest,
    skipStage input skipParams = Ret rest
    /\ (elems (limitStage (Slice input) limitParams) ++ rest)%list = input.
Proof.
  intros Hl Hn Hs Hk. exists (drop n input). split.
  - by eapply skipStage_drop.
  - rewrite (limitStage_elems _ _ _ _ Hl Hn). simpl. apply take_drop.
Qed.

End PageFacts.

Lemma limit_and_skip_split_witness :
  exists rest,
    skipStage [[("i", num 1)]; [("i", num 2)]; [("i", num 3)]]
      [("value", num 2)] = Ret rest
    /\ (elems (limitStage (Slice [[("i", num 1)]; [("i", num 2)];
                                  [("i", num 3)]]) [("value", num 2)])
        ++ rest)%list
       = [[("i", num 1)]; [("i", num 2)]; [("i", num 3)]].
Proof.
  exact (limit_and_skip_split
    [[("i", num 1)]; [("i", num 2)]; [("i", num 3)]]
    [("value", num 2)] [("value", num 2)] (F64.of_Z 2) (F64.of_Z 2) 2
    eq_refl eq_refl eq_refl eq_refl).
Defined.

(** ** Samples *)

(** One turn of the loop that draws without replacement: the document
    drawn and the slice that is left make up the slice it was drawn from. *)
Lemma draw_Permutation {A} (temp : list A) (j : nat) (picked final : A) :
  temp !! j = Some picked ->
  last temp = Some final ->
  picked :: take (length temp - 1) (<[j:=final]> temp) ≡ₚ temp.
Proof.
  intros Hj Hlast. apply last_Some in Hlast as [init ->].
  rewrite length_app. simpl.
  replace (length init + 1 - 1)%nat with (length init) by lia.
  destruct (decide (j < length init)%nat) as [Hlt|Hge].
  - rewrite lookup_app_l in Hj by done.
    rewrite insert_app_l by done.
    rewrite take_app_le by (rewrite length_insert; lia).
    rewrite take_ge by (rewrite length_insert; lia).
    rewrite insert_take_drop by done.
    rewrite <- (take_drop_middle init j picked Hj) at 3.
    rewrite <- !app_assoc. simpl.
    rewrite <- (Permutation_middle (take j init) _ picked).
    apply Permutation_cons; [done|]. apply Permutation_app_head.
    apply Permutation_cons_append.
  - apply lookup_lt_Some in Hj as Hlen. rewrite length_app in Hlen.
    simpl in Hlen. assert (j = length init) as -> by lia.
    rewrite list_lookup_middle in Hj by done. simplify_eq.
    rewrite list_insert_id by (by rewrite list_lookup_middle).
    rewrite take_app_length. apply Permutation_cons_append.
Qed.

Lemma drawLoop_submseteq {A} (rnd : nat -> nat) (n k : nat) (temp : list A) :
  drawLoop rnd k n temp ⊆+ temp.
Proof.
  revert k temp. induction n as [|n IH]; intros k temp; simpl.
  - apply submseteq_nil_l.
  - destruct (temp !! Intn rnd k (length temp)) as [picked|] eqn:Hj;
      [|apply submseteq_nil_l].
    destruct (last temp) as [final|] eqn:Hlast; [|apply submseteq_nil_l].
    etrans; [apply submseteq_skip, IH|].
    by rewrite (draw_Permutation temp _ picked final Hj Hlast).
Qed.

Section SampleSubset.
Context `{GoRuntime}.

(** X3.  [$sample] with a size [n] below the length of the input draws
    without replacement: it returns [n] documents which, counted with their
    repetitions, are all among those of the input. *)
Theorem sample_draws_without_replacement (rnd : nat -> nat)
  (input : list Doc) (params : Doc) (sizeVal : Value) (size : float64)
  (n : nat) :
  GoMap.get params "size" = Some sizeVal ->
  toFloat64 sizeVal = Some size ->
  toInt (F64.Max F64.zero (F64.Floor size)) = Z.of_nat n ->
  (0 < n < length input)%nat ->
  exists sampled,
    sampleStage rnd input params = Ret (Ok sampled)
    /\ length sampled = n /\ sampled ⊆+ input.
Proof.
  intros Hget Hnum Hn Hlt. unfold sampleStage. rewrite Hget, Hnum, Hn.
  destruct (Z.eqb_spec (Z.of_nat n) 0); [lia|].
  destruct (Z.leb_spec (Z.of_nat (length input)) (Z.of_nat n)); [lia|].
  destruct (Z.ltb_spec (Z.of_nat n) 0); [lia|].
  rewrite Nat2Z.id. eexists. split; [done|]. split.
  - apply drawLoop_length. lia.
  - apply drawLoop_submseteq.
Qed.

End SampleSubset.

Lemma sample_draws_without_replacement_witness :
  exists sampled,
    sampleStage (fun k => (5 * k + 2)%nat)
      [[("i", num 1)]; [("i", num 2)]; [("i", num 3)]; [("i", num 4)]]
      [("size", num 2)] = Ret (Ok sampled)
    /\ length sampled = 2%nat
    /\ sampled ⊆+ [[("i", num 1)]; [("i", num 2)]; [("i", num 3)];
                   [("i", num 4)]].
Proof.
  apply (sample_draws_without_replacement (fun k => (5 * k + 2)%nat)
           [[("i", num 1)]; [("i", num 2)]; [("i", num 3)]; [("i", num 4)]]
           [("size", num 2)] (num 2) (F64.of_Z 2) 2 eq_refl eq_refl eq_refl).
  simpl. lia.
Defined.

(** ** Joins *)

(** X4.  [$lookup] is a left outer join: when no local value is a map or a
    slice, every input document comes out once, in its place, with the
    foreign documents whose field equals its local value under the [as]
    field, and with no other change. *)
Theorem lookup_is_a_left_outer_join (db : DB) (input : list Doc)
  (params : Doc) (p : lookupParameters) (foreignCollection : list Doc) :
  validateLookupParams params = Ok p ->
  Collection db (from p) = Ok foreignCollection ->
  Forall (fun doc => forall localValue,
            GoMap.get doc (localField p) = Some localValue ->
            hashable localValue = true) input ->
  lookupStage db input params
  = Ret (map (fun doc =>
                GoMap.set doc (as_ p) (VDocs (joined foreignCollection p doc)))
           input).
Proof.
  intros Hp Hcoll Hall. unfold lookupStage. rewrite Hp, Hcoll.
  induction Hall as [|doc input Hdoc _ IH]; [done|].
  simpl. rewrite IH. unfold findMatchingDocuments, joined, deepCopyDocument.
  destruct (GoMap.get doc (localField p)) as [localValue|]; [|done].
  by rewrite matchingLoop_comparable by auto.
Qed.

Lemma lookup_is_a_left_outer_join_witness :
  lookupStage (oneCollection "orders"
                 [[("k", num 1); ("o", num 7)]; [("k", num 2)]])
    [[("k", num 1)]; [("x", num 1)]]
    [("from", VStr "orders"); ("localField", VStr "k");
     ("foreignField", VStr "k"); ("as", VStr "found")]
  = Ret [[("k", num 1); ("found", VDocs [[("k", num 1); ("o", num 7)]])];
         [("x", num 1); ("found", VDocs [])]].
Proof.
  apply (lookup_is_a_left_outer_join
           (oneCollection "orders"
              [[("k", num 1); ("o", num 7)]; [("k", num 2)]])
           [[("k", num 1)]; [("x", num 1)]]
           [("from", VStr "orders"); ("localField", VStr "k");
            ("foreignField", VStr "k"); ("as", VStr "found")]
           {| from := "orders"; localField := "k"; foreignField := "k";
              as_ := "found" |}
           [[("k", num 1); ("o", num 7)]; [("k", num 2)]]
           eq_refl eq_refl).
  repeat constructor; intros localValue [= <-]; reflexivity.
Defined.

(** ** Added fields *)

Section AddFieldsFacts.
Context `{GoRuntime}.

Lemma addFieldsToDoc_fields (doc : Doc) (params : Doc) (doc' : Doc) :
  addFieldsToDoc doc params = Ok doc' ->
  (forall k, k ∉ GoMap.keys params -> GoMap.get doc' k = GoMap.get doc k)
  /\ (forall k, k ∈ GoMap.keys params \/ is_Some (GoMap.get doc k) ->
                is_Some (GoMap.get doc' k)).
Proof.
  revert doc. induction params as [|[field expr] params IH]; intros doc; simpl.
  - intros [= <-]. split; [done|]. intros k [Hin|Hsome]; [|done].
    by apply elem_of_nil in Hin.
  - destruct (evaluateExpression doc expr) as [value|]; [|done].
    intros Hrest. destruct (IH _ Hrest) as [Hframe Hkeep]. split.
    + intros k [Hne Hin]%not_elem_of_cons.
      rewrite (Hframe k Hin). by apply get_set_ne.
    + intros k Hk. apply Hkeep.
      destruct (String.eqb_spec k field) as [->|Hne].
      * right. rewrite get_set_eq. eauto.
      * destruct Hk as [[?|Hin]%elem_of_cons|Hsome]; [done|by left|].
        right. by rewrite get_set_ne.
Qed.

(** X5.  [$addFields] returns one document for each document of its input,
    in the same order: a document of the output has every field that the
    stage names, and agrees with its input document on every other field. *)
Theorem addFields_changes_named_fields_only (input : list Doc) (params : Doc)
  (output : list Doc) :
  addFieldsStage input params = Ok output ->
  Forall2 (fun doc doc' =>
             (forall k, k ∉ GoMap.keys params ->
                        GoMap.get doc' k = GoMap.get doc k)
             /\ (forall k, k ∈ GoMap.keys params -> is_Some (GoMap.get doc' k)))
    input output.
Proof.
  unfold addFieldsStage. destruct (validateAddFieldsStage params); [done|].
  revert output. induction input as [|doc input IH]; intros output; simpl.
  - intros [= <-]. constructor.
  - destruct (addFieldsToDoc doc params) as [doc'|] eqn:Hdoc; [|done].
    destruct (addFieldsLoop input params) as [rest|]; [|done].
    intros [= <-]. constructor; [|by apply IH].
    destruct (addFieldsToDoc_fields _ _ _ Hdoc) as [Hframe Hkeep].
    split; [done|]. intros k Hk. apply Hkeep. by left.
Qed.

End AddFieldsFacts.

Lemma addFields_changes_named_fields_only_witness :
  Forall2 (fun doc doc' =>
             (forall k, k ∉ GoMap.keys [("b", VStr "$a"); ("c", num 3)] ->
                        GoMap.get doc' k = GoMap.get doc k)
             /\ (forall k, k ∈ GoMap.keys [("b", VStr "$a"); ("c", num 3)] ->
                           is_Some (GoMap.get doc' k)))
    [[("a", num 1)]; [("z", num 2)]]
    [[("a", num 1); ("b", num 1); ("c", num 3)];
     [("z", num 2); ("b", VNil); ("c", num 3)]].
Proof.
  exact (addFields_changes_named_fields_only
           [[("a", num 1)]; [("z", num 2)]] [("b", VStr "$a"); ("c", num 3)]
           _ eq_refl).
Defined.

(** ** Groups *)

(** What holds of the empty map and is kept by every insertion holds of the
    map that the grouping loop builds. *)
Lemma buildGroups_invariant (P : Groups -> list Doc -> Prop)
  (groupIDField : string) (input seen : list Doc) (groups result : Groups) :
  (forall groups seen doc,
     hashable (index doc groupIDField) = true ->
     P groups seen ->
     P (groupsAppend groups (index doc groupIDField) doc)
       (seen ++ [doc])%list) ->
  P groups seen ->
  buildGroups input groupIDField groups = Ret result ->
  P result (seen ++ input)%list.
Proof.
  intros Hstep. revert seen groups.
  induction input as [|doc input IH]; intros seen groups HP; simpl.
  - intros [= <-]. by rewrite app_nil_r.
  - destruct (hashable (index doc groupIDField)) eqn:Hhash; [|done].
    intros Hrest. rewrite (cons_middle doc), app_assoc.
    eapply IH; [|done]. by apply Hstep.
Qed.

Lemma groupsAppend_docs (groups : Groups) (key : Value) (doc : Doc) :
  concat (map snd (groupsAppend groups key doc))
  ≡ₚ (concat (map snd groups) ++ [doc])%list.
Proof.
  induction groups as [|[k docs] groups IH]; simpl; [done|].
  destruct (keyEqb k key); simpl.
  - rewrite <- !app_assoc. f_equiv. apply Permutation_app_comm.
  - by rewrite IH, app_assoc.
Qed.

Lemma groupsAppend_keys (groups : Groups) (key : Value) (doc : Doc) :
  map fst (groupsAppend groups key doc) = map fst groups
  \/ (map fst (groupsAppend groups key doc) = (map fst groups ++ [key])%list
      /\ Forall (fun k => keyEqb k key = false) (map fst groups)).
Proof.
  induction groups as [|[k docs] groups IH]; simpl.
  - right. by split.
  - destruct (keyEqb k key) eqn:Hk; simpl; [by left|].
    destruct IH as [->|[-> Hall]]; [by left|right]. split; [done|].
    by constructor.
Qed.

Lemma groupsAppend_members (P Q : Value -> list Doc -> Prop) (groups : Groups)
  (key : Value) (doc : Doc) :
  Q key [doc] ->
  (forall k docs, keyEqb k key = true -> P k docs -> Q k (docs ++ [doc])%list) ->
  (forall k docs, P k docs -> Q k docs) ->
  Forall (fun g => P g.1 g.2) groups ->
  Forall (fun g => Q g.1 g.2) (groupsAppend groups key doc).
Proof.
  intros Hnew Hhit Hmiss Hall.
  induction Hall as [|[k docs] groups Hg Htail IH]; simpl.
  - by repeat constructor.
  - destruct (keyEqb k key) eqn:Hk; constructor; simpl in *; auto.
    eapply Forall_impl; [exact Htail|]. intros []; simpl; auto.
Qed.

(** X6.  The grouping loop of [$group] partitions its input: the documents
    of the groups, put together, are those of the input; no group is empty;
    the documents of a group are in the order of the input and have the key
    of the group; and no two groups have the same key. *)
Theorem grouping_partitions_the_input (input : list Doc)
  (groupIDField : string) (groups : Groups) :
  buildGroups input groupIDField [] = Ret groups ->
  concat (map snd groups) ≡ₚ input
  /\ Forall (fun g =>
               g.2 <> []
               /\ sublist g.2 input
               /\ Forall (fun doc =>
                            index doc groupIDField = g.1
                            \/ keyEqb g.1 (index doc groupIDField) = true) g.2)
       groups
  /\ (forall (i j : nat) (ki kj : Value),
        (i < j)%nat -> map fst groups !! i = Some ki ->
        map fst groups !! j = Some kj -> keyEqb ki kj = false).
Proof.
  intros Hrun.
  apply (buildGroups_invariant
           (fun groups seen =>
              concat (map snd groups) ≡ₚ seen
              /\ Forall (fun g =>
                           g.2 <> []
                           /\ sublist g.2 seen
                           /\ Forall (fun doc =>
                                        index doc groupIDField = g.1
                                        \/ keyEqb g.1 (index doc groupIDField)
                                           = true) g.2) groups
              /\ (forall (i j : nat) (ki kj : Value),
                    (i < j)%nat -> map fst groups !! i = Some ki ->
                    map fst groups !! j = Some kj -> keyEqb ki kj = false))
           groupIDField input [] [] groups); [|by repeat split|done].
  clear. intros groups seen doc _ (Hdocs & Hall & Hkeys). split; [|split].
  - by rewrite groupsAppend_docs, Hdocs.
  - apply (groupsAppend_members
             (fun k docs =>
                docs <> []
                /\ sublist docs seen
                /\ Forall (fun d => index d groupIDField = k
                                    \/ keyEqb k (index d groupIDField) = true)
                     docs)
             (fun k docs =>
                docs <> []
                /\ sublist docs (seen ++ [doc])%list
                /\ Forall (fun d => index d groupIDField = k
                                    \/ keyEqb k (index d groupIDField) = true)
                     docs)); [| | |done].
    + split; [done|]. split.
      * by apply sublist_inserts_l.
      * apply Forall_singleton. by left.
    + intros k docs Hk (Hne & Hsub & Hsame). split; [|split].
      * by destruct docs.
      * apply sublist_app; [done|reflexivity].
      * apply Forall_app. split; [done|]. apply Forall_singleton. by right.
    + intros k docs (Hne & Hsub & Hsame).
      split; [done|]. split; [|done]. by apply sublist_inserts_r.
  - intros i j ki kj Hij Hi Hj.
    destruct (groupsAppend_keys groups (index doc groupIDField) doc)
      as [Heq|[Heq Hfresh]]; rewrite Heq in Hi, Hj;
      [exact (Hkeys i j ki kj Hij Hi Hj)|].
    apply lookup_lt_Some in Hj as Hlen. rewrite length_app in Hlen.
    simpl in Hlen.
    rewrite lookup_app_l in Hi by lia.
    destruct (decide (j < length (map fst groups))%nat) as [Hlt|Hge].
    + rewrite lookup_app_l in Hj by done. exact (Hkeys i j ki kj Hij Hi Hj).
    + rewrite lookup_app_r in Hj by lia.
      replace (j - length (map fst groups))%nat with O in Hj by lia.
      simpl in Hj. simplify_eq.
      by apply (Forall_lookup_1 _ _ _ _ Hfresh Hi).
Qed.

Lemma grouping_partitions_the_input_witness :
  concat (map snd [(VStr "a", [[("k", VStr "a"); ("i", num 1)];
                               [("k", VStr "a"); ("i", num 3)]]);
                   (VStr "b", [[("k", VStr "b"); ("i", num 2)]])])
  ≡ₚ [[("k", VStr "a"); ("i", num 1)]; [("k", VStr "b"); ("i", num 2)];
      [("k", VStr "a"); ("i", num 3)]].
Proof.
  exact (proj1 (grouping_partitions_the_input
    [[("k", VStr "a"); ("i", num 1)]; [("k", VStr "b"); ("i", num 2)];
     [("k", VStr "a"); ("i", num 3)]] "k" _ eq_refl)).
Defined.

(** ** What the parser lets through *)

Section ParserFacts.
Context `{GoRuntime} `{Package}.

Lemma parseStageMap_refused (stageMap : Doc) (name : string) (raw : Value) :
  (name, raw) ∈ stageMap -> refused name raw ->
  exists e, parseStageMap stageMap = Err e.
Proof.
  intros Hin Hbad. induction stageMap as [|[stageName params] stageMap IH].
  - by apply elem_of_nil in Hin.
  - simpl. apply elem_of_cons in Hin as [Heq|Hin].
    + simplify_eq.
      destruct (stageParams params) as [paramsMap|] eqn:Hp; [|eauto].
      destruct (Hbad paramsMap Hp) as [e ->]. eauto.
    + destruct (IH Hin) as [e ->]. repeat case_match; eauto.
Qed.

Lemma parse_refused (pipeline : list Doc) (stageMap : Doc) (name : string)
  (raw : Value) :
  stageMap ∈ pipeline -> (name, raw) ∈ stageMap -> refused name raw ->
  exists e, parseAggregationStages pipeline = Err e.
Proof.
  intros Hin Hstage Hbad. induction pipeline as [|stageMap' pipeline IH].
  - by apply elem_of_nil in Hin.
  - simpl. apply elem_of_cons in Hin as [<-|Hin].
    + destruct (parseStageMap_refused _ _ _ Hstage Hbad) as [e ->]. eauto.
    + destruct (IH Hin) as [e ->]. case_match; eauto.
Qed.

(** X7.  Validation comes first and is all or nothing: when one stage of
    the pipeline, at any place, has a value that is an array or null, or
    that its validator refuses, [Query] returns an error and no stage
    runs. *)
Theorem invalid_stage_fails_the_query (db : DB) (ch : Choices)
  (collectionName : string) (pipeline : list Doc) (stageMap : Doc)
  (name : string) (raw : Value) :
  stageMap ∈ pipeline ->
  (name, raw) ∈ stageMap ->
  stageParams raw = None
  \/ (exists paramsMap e,
        stageParams raw = Some paramsMap
        /\ validateStage name paramsMap = Some e) ->
  exists e, Query db ch collectionName pipeline = Ret (Err e).
Proof.
  intros Hin Hstage Hbad. unfold Query.
  destruct (parse_refused pipeline stageMap name raw Hin Hstage) as [e ->];
    [|eauto].
  intros paramsMap Hp. destruct Hbad as [Hnone|(paramsMap' & e & Hp' & He)].
  - congruence.
  - simplify_eq. eauto.
Qed.

Lemma validateStage_future (name : string) (params : Doc) :
  name ∈ futureStages ->
  validateStage name params = Some "unsupported aggregation stage".
Proof.
  intros Hin. apply list_elem_of_In in Hin. simpl in Hin.
  repeat (destruct Hin as [<-|Hin]; [reflexivity|]). done.
Qed.

(** X8.  The stages [$unionWith], [$redact], [$graphLookup], [$geoNear],
    [$fill], [$replaceRoot] and [$replaceWith], for which the runner has a
    case that does nothing, never reach it: a pipeline that names one of them
    is an error. *)
Theorem future_stage_is_an_error (db : DB) (ch : Choices)
  (collectionName : string) (pipeline : list Doc) (stageMap : Doc)
  (name : string) (raw : Value) :
  stageMap ∈ pipeline ->
  (name, raw) ∈ stageMap ->
  name ∈ futureStages ->
  exists e, Query db ch collectionName pipeline = Ret (Err e).
Proof.
  intros Hin Hstage Hname. unfold Query.
  destruct (parse_refused pipeline stageMap name raw Hin Hstage) as [e ->];
    [|eauto].
  intros paramsMap _. rewrite validateStage_future by done. eauto.
Qed.

End ParserFacts.

Lemma invalid_stage_fails_the_query_witness :
  exists e,
    Query (oneCollection "c" [[("a", num 1)]]) inOrder "c"
      [[("$skip", num 0)]; [("$unwind", VArr [VStr "$a"])]] = Ret (Err e).
Proof.
  apply (invalid_stage_fails_the_query _ _ _ _
           [("$unwind", VArr [VStr "$a"])] "$unwind" (VArr [VStr "$a"])).
  - apply list_elem_of_In. simpl. auto.
  - apply list_elem_of_In. simpl. auto.
  - by left.
Defined.

Lemma future_stage_is_an_error_witness :
  exists e,
    Query (oneCollection "c" [[("a", num 1)]]) inOrder "c"
      [[("$replaceRoot", VDoc [("newRoot", VStr "$a")])]] = Ret (Err e).
Proof.
  apply (future_stage_is_an_error _ _ _ _
           [("$replaceRoot", VDoc [("newRoot", VStr "$a")])] "$replaceRoot"
           (VDoc [("newRoot", VStr "$a")])).
  - apply list_elem_of_In. simpl. auto.
  - apply list_elem_of_In. simpl. auto.
  - apply list_elem_of_In. simpl. tauto.
Defined.

(** ** [$count] *)

Section CountFacts.
Context `{GoRuntime}.

Lemma fieldNameOf_validated (fieldName : string) :
  String.eqb (TrimSpace fieldName) "" = false ->
  Count.fieldNameOf (VStr fieldName) = Ok fieldName.
Proof. intros Hname. unfold Count.fieldNameOf. by rewrite Hname. Qed.

(** X9.  Parameters that [validateCountStage] accepts never make
    [countStage] fail: it returns one document, whose one field holds the
    number of input documents as an integer, under a name that has no blank
    and does not begin with a dollar sign. *)
Theorem count_of_validated_parameters (input : list Doc) (params : Value) :
  Count.validateCountStage params = None ->
  exists fieldName,
    Count.countStage input params
    = Ok [[(fieldName, VInt (Z.of_nat (length input)))]]
    /\ hasDollar fieldName = false /\ containsBlank fieldName = false.
Proof.
  unfold Count.validateCountStage, Count.countStage, Count.countField.
  destruct params as [| | | |v|v| |]; try done.
  - destruct (String.eqb (TrimSpace v) ""); [done|].
    destruct (hasDollar v) eqn:Hd; [done|].
    destruct (containsBlank v) eqn:Hb; [done|]. eauto.
  - destruct (GoMap.get v "field") as [fieldVal|].
    { destruct fieldVal as [| | | |fieldName| | |]; try done.
      destruct (String.eqb (TrimSpace fieldName) "") eqn:Hname; [done|].
      destruct (hasDollar fieldName) eqn:Hd; [done|].
      destruct (containsBlank fieldName) eqn:Hb; [done|].
      rewrite fieldNameOf_validated by done. eauto. }
    destruct (GoMap.get v "$count") as [fieldVal|].
    { destruct fieldVal as [| | | |fieldName| | |]; try done.
      destruct (String.eqb (TrimSpace fieldName) "") eqn:Hname; [done|].
      destruct (hasDollar fieldName) eqn:Hd; [done|].
      destruct (containsBlank fieldName) eqn:Hb; [done|].
      rewrite fieldNameOf_validated by done. eauto. }
    destruct (GoMap.get v "path") as [fieldVal|]; [|done].
    destruct fieldVal as [| | | |fieldName| | |]; try done.
    destruct (String.eqb (TrimSpace fieldName) "") eqn:Hname; [done|].
    destruct (hasDollar fieldName) eqn:Hd; [done|].
    destruct (containsBlank fieldName) eqn:Hb; [done|].
    rewrite fieldNameOf_validated by done. eauto.
Qed.

End CountFacts.

Lemma count_of_validated_parameters_witness :
  exists fieldName,
    Count.countStage [[("a", num 1)]; [("a", num 2)]]
      (VDoc [("path", VStr "total")])
    = Ok [[(fieldName, VInt (Z.of_nat (length [[("a", num 1)];
                                               [("a", num 2)]])))]]
    /\ hasDollar fieldName = false /\ containsBlank fieldName = false.
Proof.
  exact (count_of_validated_parameters [[("a", num 1)]; [("a", num 2)]]
           (VDoc [("path", VStr "total")]) eq_refl).
Defined.

Section RunnerSplit.
Context `{GoRuntime} `{Package}.

Lemma parseAggregationStages_app (front back : list Doc) :
  parseAggregationStages (front ++ back)
  = match parseAggregationStages front with
    | Err e => Err e
    | Ok stages =>
        match parseAggregationStages back with
        | Err e => Err e
        | Ok stages' => Ok (stages ++ stages')%list
        end
    end.
Proof.
  induction front as [|stageMap front IH]; simpl.
  - by destruct (parseAggregationStages back).
  - destruct (parseStageMap stageMap) as [stages|]; [|done].
    rewrite IH. destruct (parseAggregationStages front); [|done].
    destruct (parseAggregationStages back); [|done].
    by rewrite app_assoc.
Qed.

(** The stages after a prefix of the pipeline run on what the prefix
    returns, unless that is an error or no document at all. *)
Lemma runStages_app (db : DB) (ch : Choices) (i : nat)
  (front back : list AggregationStage) (input : list Doc) :
  input <> [] ->
  runStages db ch i (front ++ back) input
  = (r ← runStages db ch i front input;
     match r with
     | Err e => Ret (Err e)
     | Ok docs =>
         if (length docs =? 0)%nat then Ret (Ok docs)
         else runStages db ch (i + length front) back docs
     end).
Proof.
  revert i input. induction front as [|stage front IH]; intros i input Hne.
  - simpl. rewrite Nat.add_0_r. by destruct input.
  - simpl.
    destruct (runStage db (draws ch i) (visit ch) stage input)
      as [[docs|e]|msg]; simpl; try done.
    destruct docs as [|doc docs]; [done|]. simpl.
    rewrite IH by done. by rewrite Nat.add_succ_r.
Qed.

End RunnerSplit.

Section CountLast.
Context `{GoRuntime} `{GoLibrary}.

(** X10.  A pipeline that ends in [$count] returns no document at all or
    one document with a positive count, never a count of zero: the runner
    stops as soon as no document is left, before the stage can count. *)
Theorem count_is_never_zero (db : DB) (ch : Choices)
  (counts : list (Value * Z) -> list (Value * Z)) (others : Package)
  (collectionName : string) (front : list Doc) (name : string)
  (output : list Doc) :
  Query (H0 := package db (visit ch) counts others) db ch collectionName
    (front ++ [[("$count", VStr name)]]) = Ret (Ok output) ->
  output = []
  \/ exists n, 0 < n /\ output = [[(name, VInt n)]].
Proof.
  unfold Query. rewrite parseAggregationStages_app.
  destruct (parseAggregationStages front) as [stages|]; [|done].
  cbn [parseAggregationStages parseStageMap stageParams].
  unfold validateStage at 1. cbn [String.eqb Ascii.eqb Bool.eqb].
  cbn [validateCountStage package facetless].
  unfold Count.validateCountStage. cbn [GoMap.get String.eqb Ascii.eqb Bool.eqb].
  destruct (String.eqb (TrimSpace name) "") eqn:Hname; [done|].
  destruct (hasDollar name); [done|].
  destruct (containsBlank name); [done|].
  cbn [app].
  destruct (match Collection db collectionName with
            | Ok docs => docs
            | Err _ => []
            end) as [|doc docs] eqn:Hdocs.
  { intros [= <-]. by left. }
  cbn [length Nat.eqb]. rewrite runStages_app by done.
  destruct (runStages db ch 0 stages (doc :: docs)) as [[out|e]|msg];
    simpl; try done.
  destruct out as [|doc' out]; simpl.
  { intros [= <-]. by left. }
  unfold Count.countStage, Count.countField.
  cbn [GoMap.get String.eqb Ascii.eqb Bool.eqb].
  rewrite fieldNameOf_validated by done. simpl.
  intros [= <-]. right. eexists. split; [|done]. lia.
Qed.

End CountLast.

Lemma count_is_never_zero_witness :
  Query (H0 := package (H0 := noLibrary)
                 (oneCollection "c"
                    [[("a", num 1)]; [("a", num 2)]; [("a", num 3)]])
                 (visit inOrder) (fun m => m) noPackage)
    (oneCollection "c" [[("a", num 1)]; [("a", num 2)]; [("a", num 3)]])
    inOrder "c" ([[("$skip", num 1)]] ++ [[("$count", VStr "total")]])
  = Ret (Ok [[("total", VInt 2)]])
  /\ ([[("total", VInt 2)]] = []
      \/ exists n, 0 < n /\ [[("total", VInt 2)]] = [[("total", VInt n)]]).
Proof.
  split; [reflexivity|].
  exact (count_is_never_zero (H0 := noLibrary)
           (oneCollection "c" [[("a", num 1)]; [("a", num 2)]; [("a", num 3)]])
           inOrder (fun m => m) noPackage "c" [[("$skip", num 1)]] "total"
           [[("total", VInt 2)]] eq_refl).
Defined.

(** ** [$unset] *)

Lemma get_delete_ne {A} (m : list (string * A)) (k k' : string) :
  k <> k' -> GoMap.get (GoMap.delete m k) k' = GoMap.get m k'.
Proof.
  intros Hne. induction m as [|[k0 v0] m IH]; simpl; [done|].
  destruct (String.eqb_spec k0 k) as [->|Hk0]; simpl.
  - by destruct (String.eqb_spec k k').
  - by rewrite IH.
Qed.

Lemma delete_absent {A} (m : list (string * A)) (k : string) :
  k ∉ GoMap.keys m -> GoMap.delete m k = m.
Proof.
  induction m as [|[k0 v0] m IH]; simpl; [done|].
  intros [Hne Hin]%not_elem_of_cons.
  destruct (String.eqb_spec k0 k) as [->|_]; [done|]. by rewrite IH.
Qed.

Lemma keys_delete {A} (m : list (string * A)) (k k' : string) :
  k' ∈ GoMap.keys (GoMap.delete m k) -> k' ∈ GoMap.keys m.
Proof.
  induction m as [|[k0 v0] m IH]; simpl; [done|].
  destruct (String.eqb_spec k0 k) as [->|_]; simpl.
  - by right.
  - intros [->|Hin]%elem_of_cons; [left|right; auto].
Qed.

Lemma keys_delete_NoDup {A} (m : list (string * A)) (k : string) :
  NoDup (GoMap.keys m) -> NoDup (GoMap.keys (GoMap.delete m k)).
Proof.
  induction m as [|[k0 v0] m IH]; simpl; [done|].
  intros [Hfresh Hnodup]%NoDup_cons.
  destruct (String.eqb_spec k0 k) as [->|_]; [done|]. simpl.
  apply NoDup_cons. split; [|auto]. intros Hin. by apply keys_delete in Hin.
Qed.

Lemma get_delete_eq {A} (m : list (string * A)) (k : string) :
  NoDup (GoMap.keys m) -> GoMap.get (GoMap.delete m k) k = None.
Proof.
  induction m as [|[k0 v0] m IH]; simpl; [done|].
  intros [Hfresh Hnodup]%NoDup_cons.
  destruct (String.eqb_spec k0 k) as [->|Hne]; simpl.
  - by apply get_None_keys.
  - destruct (String.eqb_spec k0 k); [done|]. auto.
Qed.

Lemma get_None_absent {A} (m : list (string * A)) (k : string) :
  GoMap.get m k = None -> k ∉ GoMap.keys m.
Proof.
  induction m as [|[k0 v0] m IH]; simpl.
  - intros _. apply not_elem_of_nil.
  - destruct (String.eqb_spec k0 k) as [->|Hne]; [done|].
    intros Hget. apply not_elem_of_cons. split; [done|]. auto.
Qed.

Lemma unsetFields_get (fields : list string) (doc : Doc) :
  NoDup (GoMap.keys doc) ->
  (forall k, k ∈ fields -> GoMap.get (Unset.unsetFields fields doc) k = None)
  /\ (forall k, k ∉ fields ->
                GoMap.get (Unset.unsetFields fields doc) k = GoMap.get doc k).
Proof.
  unfold Unset.unsetFields. revert doc.
  induction fields as [|field fields IH]; intros doc Hnodup; simpl.
  - split; [|done]. by intros k ?%elem_of_nil.
  - destruct (IH (GoMap.delete doc field) (keys_delete_NoDup _ _ Hnodup))
      as [Hgone Hkept].
    split.
    + intros k Hk.
      destruct (list_elem_of_dec (dec := String.string_dec) k fields)
        as [Hin|Hout]; [auto|].
      apply elem_of_cons in Hk as [->|Hin]; [|done].
      rewrite Hkept by done. by apply get_delete_eq.
    + intros k [Hne Hout]%not_elem_of_cons.
      rewrite Hkept by done. by apply get_delete_ne.
Qed.

Lemma unsetFields_absent (fields : list string) (doc : Doc) :
  (forall k, k ∈ fields -> k ∉ GoMap.keys doc) ->
  Unset.unsetFields fields doc = doc.
Proof.
  unfold Unset.unsetFields.
  induction fields as [|field fields IH]; intros Habsent; simpl; [done|].
  rewrite delete_absent by (apply Habsent; left).
  apply IH. intros k Hk. apply Habsent. by right.
Qed.

(** X11.  [$unset] returns one document for each document of its input, in
    the same order, without the fields it names and with every other field
    as it was; unsetting the same fields again changes nothing. *)
Theorem unset_removes_the_named_fields (input : list Doc) (params : Value)
  (fields : list string) :
  Unset.validateUnsetStage params = Ok fields ->
  Forall (fun doc => NoDup (GoMap.keys doc)) input ->
  exists output,
    Unset.unsetStage input params = Ok output
    /\ Forall2 (fun doc doc' =>
                  (forall k, k ∈ fields -> GoMap.get doc' k = None)
                  /\ (forall k, k ∉ fields ->
                                GoMap.get doc' k = GoMap.get doc k))
         input output
    /\ Unset.unsetStage output params = Ok output.
Proof.
  intros Hfields Hall. unfold Unset.unsetStage. rewrite Hfields.
  eexists. split; [done|]. split.
  - induction Hall as [|doc input Hdoc _ IH]; simpl; constructor; [|done].
    by apply unsetFields_get.
  - f_equal. rewrite map_map. apply map_ext_Forall.
    eapply Forall_impl; [exact Hall|]. intros doc Hdoc. simpl.
    apply unsetFields_absent. intros k Hk. apply get_None_absent.
    by apply unsetFields_get.
Qed.

Lemma unset_removes_the_named_fields_witness :
  exists output,
    Unset.unsetStage [[("a", num 1); ("b", num 2); ("c", num 3)]]
      (VDoc [("a", num 1); ("c", num 1)]) = Ok output
    /\ Forall2 (fun doc doc' =>
                  (forall k, k ∈ ["a"; "c"] -> GoMap.get doc' k = None)
                  /\ (forall k, k ∉ ["a"; "c"] ->
                                GoMap.get doc' k = GoMap.get doc k))
         [[("a", num 1); ("b", num 2); ("c", num 3)]] output
    /\ Unset.unsetStage output (VDoc [("a", num 1); ("c", num 1)])
       = Ok output.
Proof.
  apply (unset_removes_the_named_fields
           [[("a", num 1); ("b", num 2); ("c", num 3)]]
           (VDoc [("a", num 1); ("c", num 1)]) ["a"; "c"] eq_refl).
  repeat constructor; simpl; rewrite ?elem_of_cons, ?elem_of_nil;
    intuition discriminate.
Defined.

(** ** A projection that only excludes *)

Lemma scanProjection_zeros (params : Doc) (hasExclusion : bool) :
  Forall (fun entry : string * Value =>
            exists spec, entry.2 = VNum spec /\ F64.eqb spec F64.zero = true)
    params ->
  scanProjection params false hasExclusion = Ok exclude.
Proof.
  intros Hall. revert hasExclusion.
  induction Hall as [|[field raw] params (spec & Hraw & Hzero) _ IH];
    intros hasExclusion; simpl; [done|].
  simpl in Hraw. subst raw.
  destruct (String.eqb field "_id"); [done|].
  rewrite (eqb_zero_not_one spec Hzero), Hzero. simpl.
  rewrite orb_true_r. apply IH.
Qed.

Lemma keysOf_keys (params : Doc) :
  "" ∉ GoMap.keys params -> Unset.keysOf params = Ok (GoMap.keys params).
Proof.
  induction params as [|[field raw] params IH]; simpl; [done|].
  intros [Hne Hin]%not_elem_of_cons.
  destruct (String.eqb_spec field "") as [->|_]; [done|]. by rewrite IH.
Qed.

Section ExclusionFacts.
Context `{Package}.

Lemma projectFields_zeros (doc : Doc) (params : Doc) (projectedDoc : Doc) :
  Forall (fun entry : string * Value =>
            exists spec, entry.2 = VNum spec /\ F64.eqb spec F64.zero = true)
    params ->
  projectFields exclude doc params projectedDoc
  = Ret (Unset.unsetFields (GoMap.keys params) projectedDoc).
Proof.
  intros Hall. revert projectedDoc.
  induction Hall as [|[field raw] params (spec & Hraw & Hzero) _ IH];
    intros projectedDoc; simpl; [done|].
  simpl in Hraw. subst raw.
  rewrite Hzero. apply IH.
Qed.

(** X12.  A [$project] that only excludes is an [$unset]: on a
    specification whose values are all 0, with no field named [path] and
    none with the empty name, [$project] and [$unset] given that same object
    return the same documents. *)
Theorem project_of_zeros_is_unset (input : list Doc) (params : Doc) :
  Forall (fun entry : string * Value =>
            exists spec, entry.2 = VNum spec /\ F64.eqb spec F64.zero = true)
    params ->
  "path" ∉ GoMap.keys params ->
  "" ∉ GoMap.keys params ->
  exists output,
    projectStage input params = Ret output
    /\ Unset.unsetStage input (VDoc params) = Ok output.
Proof.
  intros Hall Hpath Hempty.
  exists (map (Unset.unsetFields (GoMap.keys params)) input). split.
  - unfold projectStage, determineProjectionMode.
    rewrite scanProjection_zeros by done.
    induction input as [|doc input IH]; simpl; [done|].
    unfold projectDoc, cloneDocument. rewrite projectFields_zeros by done.
    simpl. rewrite IH. by destruct (GoMap.get params "_id").
  - unfold Unset.unsetStage, Unset.validateUnsetStage.
    rewrite (get_None_keys params "path") by done.
    by rewrite keysOf_keys.
Qed.

End ExclusionFacts.

Lemma project_of_zeros_is_unset_witness :
  exists output,
    projectStage [[("a", num 1); ("b", num 2); ("c", num 3)]]
      [("a", num 0); ("c", num 0)] = Ret output
    /\ Unset.unsetStage [[("a", num 1); ("b", num 2); ("c", num 3)]]
         (VDoc [("a", num 0); ("c", num 0)]) = Ok output.
Proof.
  apply (project_of_zeros_is_unset
           [[("a", num 1); ("b", num 2); ("c", num 3)]]
           [("a", num 0); ("c", num 0)]).
  - repeat constructor; eexists; (split; [reflexivity|reflexivity]).
  - simpl. rewrite !not_elem_of_cons. repeat split; try discriminate.
    apply not_elem_of_nil.
  - simpl. rewrite !not_elem_of_cons. repeat split; try discriminate.
    apply not_elem_of_nil.
Defined.

(** ** [$sortByCount] *)

Lemma total_Permutation (key : string) (docs1 docs2 : list Doc) :
  docs1 ≡ₚ docs2 -> total key docs1 = total key docs2.
Proof.
  unfold total. induction 1; simpl; lia.
Qed.

Lemma increment_counts (countMap : list (Value * Z)) (value : Value) :
  foldr Z.add 0 (map snd (SortByCount.increment countMap value))
  = foldr Z.add 0 (map snd countMap) + 1
  /\ (Forall (fun entry : Value * Z => 0 < entry.2) countMap ->
      Forall (fun entry : Value * Z => 0 < entry.2)
        (SortByCount.increment countMap value)).
Proof.
  induction countMap as [|[k count] countMap [IHsum IHpos]]; simpl.
  - split; [done|]. intros _. by repeat constructor.
  - destruct (keyEqb k value); simpl.
    + split; [lia|]. intros [Hk Hrest]%Forall_cons. simpl in Hk.
      constructor; [simpl; lia|done].
    + split; [lia|]. intros [Hk Hrest]%Forall_cons. constructor; auto.
Qed.

Lemma countLoop_counts (input : list Doc) (expr : string)
  (countMap : list (Value * Z)) :
  Forall (fun doc => hashable (index doc expr) = true) input ->
  Forall (fun entry : Value * Z => 0 < entry.2) countMap ->
  exists result,
    SortByCount.countLoop input expr countMap = Ret result
    /\ foldr Z.add 0 (map snd result)
       = foldr Z.add 0 (map snd countMap) + Z.of_nat (length input)
    /\ Forall (fun entry : Value * Z => 0 < entry.2) result.
Proof.
  intros Hall. revert countMap.
  induction Hall as [|doc input Hdoc _ IH]; intros countMap Hpos; simpl.
  - exists countMap. split; [done|]. split; [lia|done].
  - rewrite Hdoc.
    destruct (increment_counts countMap (index doc expr)) as [Hsum Hkeep].
    destruct (IH _ (Hkeep Hpos)) as (result & -> & Hresult & Hpos').
    exists result. split; [done|]. split; [lia|done].
Qed.

Lemma total_countDoc (countMap : list (Value * Z)) :
  total "count" (map SortByCount.countDoc countMap)
  = foldr Z.add 0 (map snd countMap).
Proof.
  unfold total. induction countMap as [|[k n] countMap IH]; simpl; [done|].
  by rewrite IH.
Qed.

Section SortByCountFacts.
Context `{GoRuntime}.

Lemma byCount_asym (di dj : Doc) :
  SortByCount.byCount di dj = true -> SortByCount.byCount dj di = false.
Proof.
  unfold SortByCount.byCount.
  destruct (toFloat64 (index di "count")), (toFloat64 (index dj "count"));
    try apply F64_ltb_asym; lia.
Qed.

(** X13.  [$sortByCount] counts every document once: when no document has a
    map or a slice under the field, the counts of the output add up to the
    number of input documents; every count is positive; and no document of
    the output has its count ordered before that of its predecessor. *)
Theorem sortByCount_counts_every_document
  (visit : list (Value * Z) -> list (Value * Z)) (input : list Doc)
  (params : Doc) (expr : string) :
  index params "path" = VStr expr ->
  expr <> "" ->
  (forall countMap, visit countMap ≡ₚ countMap) ->
  Forall (fun doc => hashable (index doc (trimDollar expr)) = true) input ->
  exists output,
    SortByCount.sortByCountStage visit input params = Ret (Ok output)
    /\ total "count" output = Z.of_nat (length input)
    /\ Forall (fun doc => exists key n,
                 doc = [("_id", key); ("count", VInt n)] /\ 0 < n) output
    /\ (forall (i : nat) (a b : Doc),
          output !! i = Some a -> output !! S i = Some b ->
          SortByCount.byCount b a = false).
Proof.
  intros Hpath Hexpr Hvisit Hall. unfold SortByCount.sortByCountStage.
  rewrite Hpath. destruct (String.eqb_spec expr "") as [|_]; [done|].
  destruct (countLoop_counts input (trimDollar expr) [] Hall)
    as (countMap & -> & Hsum & Hpos); [constructor|].
  simpl. eexists. split; [done|]. split; [|split].
  - rewrite (total_Permutation _ _ _ (SliceStable_Permutation _ _)).
    rewrite (total_Permutation _ _ (map SortByCount.countDoc countMap))
      by (by rewrite Hvisit).
    rewrite total_countDoc. simpl in Hsum. lia.
  - rewrite (SliceStable_Permutation _ _), Hvisit.
    apply Forall_map. eapply Forall_impl; [exact Hpos|].
    intros [key n] Hn. by exists key, n.
  - intros i a b. apply settled_neighbours. unfold SliceStable.
    rewrite rev_involutive. apply insertion_settled; [|done].
    apply byCount_asym.
Qed.

End SortByCountFacts.

Lemma sortByCount_counts_every_document_witness :
  exists output,
    SortByCount.sortByCountStage (fun countMap => countMap)
      [[("k", VStr "a")]; [("k", VStr "b")]; [("k", VStr "b")]]
      [("path", VStr "$k")] = Ret (Ok output)
    /\ total "count" output
       = Z.of_nat (length [[("k", VStr "a")]; [("k", VStr "b")];
                           [("k", VStr "b")]])
    /\ Forall (fun doc => exists key n,
                 doc = [("_id", key); ("count", VInt n)] /\ 0 < n) output
    /\ (forall (i : nat) (a b : Doc),
          output !! i = Some a -> output !! S i = Some b ->
          SortByCount.byCount b a = false).
Proof.
  apply (sortByCount_counts_every_document (fun countMap => countMap)
           [[("k", VStr "a")]; [("k", VStr "b")]; [("k", VStr "b")]]
           [("path", VStr "$k")] "$k" eq_refl).
  - discriminate.
  - done.
  - by repeat constructor.
Defined.

(** ** [$bucket] *)

Lemma toBoundaries_numeric (boundariesInterface : list Value) :
  Bucket.numericBoundaries boundariesInterface = true ->
  exists boundaries, Bucket.toBoundaries boundariesInterface = Ok boundaries.
Proof.
  induction boundariesInterface as [|b rest IH]; simpl; [eauto|].
  intros [Hb Hrest]%andb_true_iff. destruct (IH Hrest) as [boundaries ->].
  destruct b; try done; eauto.
Qed.

Lemma findBucket_bound (numericValue : float64) (boundaries : list float64)
  (from i : nat) :
  Bucket.findBucket numericValue boundaries from = Some i ->
  (i < from + (length boundaries - 1))%nat.
Proof.
  revert from. induction boundaries as [|lower boundaries IH]; intros from;
    simpl; [done|].
  destruct boundaries as [|upper boundaries]; [done|].
  destruct (F64.leb lower numericValue && F64.ltb numericValue upper).
  - intros [= <-]. simpl. lia.
  - intros Hi%IH. simpl in *. lia.
Qed.

Lemma docsHeld_app (buckets1 buckets2 : list Bucket.Bucket) :
  docsHeld (buckets1 ++ buckets2) = docsHeld buckets1 + docsHeld buckets2.
Proof.
  unfold docsHeld. induction buckets1 as [|b buckets1 IH]; simpl; lia.
Qed.

Lemma docsHeld_alter (doc : Doc) (i : nat) (buckets : list Bucket.Bucket) :
  (i < length buckets)%nat ->
  docsHeld (alter (Bucket.appendDoc doc) i buckets) = docsHeld buckets + 1.
Proof.
  unfold docsHeld. revert i.
  induction buckets as [|b buckets IH]; intros i Hi; simpl in *; [lia|].
  destruct i as [|i]; simpl.
  - rewrite length_app. simpl. lia.
  - specialize (IH i). unfold alter in IH. rewrite IH by lia. lia.
Qed.

Lemma assignDoc_held (groupBy : string) (boundaries : list float64)
  (buckets : list Bucket.Bucket) (doc : Doc) :
  (length boundaries - 1 < length buckets)%nat ->
  length (Bucket.assignDoc groupBy boundaries true buckets doc)
  = length buckets
  /\ docsHeld (Bucket.assignDoc groupBy boundaries true buckets doc)
     = docsHeld buckets + 1.
Proof.
  intros Hlen.
  assert (forall i, (i < length buckets)%nat ->
            length (alter (Bucket.appendDoc doc) i buckets) = length buckets
            /\ docsHeld (alter (Bucket.appendDoc doc) i buckets)
               = docsHeld buckets + 1) as Hput.
  { intros i Hi. split; [apply length_alter|by apply docsHeld_alter]. }
  unfold Bucket.assignDoc, Bucket.toDefault.
  destruct (GoMap.get doc groupBy) as [value|]; [|apply Hput; lia].
  destruct (match value with
            | VNum v => Some v
            | VInt v => Some (F64.of_Z v)
            | _ => None
            end) as [numericValue|]; [|apply Hput; lia].
  destruct (Bucket.findBucket numericValue boundaries 0) as [i|] eqn:Hi;
    [|apply Hput; lia].
  apply findBucket_bound in Hi. apply Hput. lia.
Qed.

Lemma assignDocs_held (groupBy : string) (boundaries : list float64)
  (input : list Doc) (buckets : list Bucket.Bucket) :
  (length boundaries - 1 < length buckets)%nat ->
  length (fold_left (Bucket.assignDoc groupBy boundaries true) input buckets)
  = length buckets
  /\ docsHeld (fold_left (Bucket.assignDoc groupBy boundaries true) input
                 buckets)
     = docsHeld buckets + Z.of_nat (length input).
Proof.
  revert buckets. induction input as [|doc input IH]; intros buckets Hlen.
  - simpl. split; [done|lia].
  - cbn [fold_left length].
    destruct (assignDoc_held groupBy boundaries buckets doc Hlen)
      as [Hlen' Hheld].
    destruct (IH (Bucket.assignDoc groupBy boundaries true buckets doc))
      as [-> ->]; [lia|]. split; [done|lia].
Qed.

Section BucketFacts.
Context `{GoRuntime}.

Lemma rangeBuckets_empty (boundaries : list float64) :
  length (Bucket.rangeBuckets boundaries) = (length boundaries - 1)%nat
  /\ docsHeld (Bucket.rangeBuckets boundaries) = 0.
Proof.
  induction boundaries as [|lower boundaries [IHlen IHheld]]; [done|].
  destruct boundaries as [|upper boundaries]; [done|].
  change (Bucket.rangeBuckets (lower :: upper :: boundaries))
    with ({| Bucket.Label := "[" ++ Sprint (VNum lower) ++ ", "
                             ++ Sprint (VNum upper) ++ ")";
             Bucket.Docs := []; Bucket.Aggregations := [] |}
          :: Bucket.rangeBuckets (upper :: boundaries)).
  split.
  - cbn [length] in *. lia.
  - unfold docsHeld in *. cbn [map foldr Bucket.Docs length] in *. lia.
Qed.

Lemma bucketResults_counts (key : string) (sumVal : Value) (sumValue : float64)
  (buckets : list Bucket.Bucket) :
  toFloat64 sumVal = Some sumValue ->
  F64.eqb sumValue F64.one = true ->
  exists output,
    Bucket.bucketResults (Some [(key, VDoc [("$sum", sumVal)])]) buckets
    = Ok output
    /\ length output = length buckets
    /\ total key output = docsHeld buckets.
Proof.
  intros Hnum Hone. induction buckets as [|bucket buckets IH].
  - by exists [].
  - destruct IH as (output & Hout & Hlen & Htotal).
    cbn [Bucket.bucketResults Bucket.outputFields Bucket.outputOperators
         String.eqb Ascii.eqb Bool.eqb].
    rewrite Hnum, Hone, Hout. eexists. split; [done|]. split; [simpl; lia|].
    unfold total, docsHeld in *. cbn [map foldr]. rewrite Htotal.
    unfold countOf. by rewrite index_set_eq.
Qed.

(** X14.  With a [default], [$bucket] puts every input document into
    exactly one bucket: when the output asks for [{"$sum": 1}], there is one
    document for each pair of neighbouring boundaries and one for the
    default, and their counts add up to the number of input documents. *)
Theorem bucket_with_default_counts_every_document (input : list Doc)
  (params : Doc) (groupBy other key : string)
  (boundariesInterface : list Value) (sumVal : Value) (sumValue : float64) :
  index params "groupBy" = VStr groupBy ->
  index params "boundaries" = VArr boundariesInterface ->
  Bucket.numericBoundaries boundariesInterface = true ->
  index params "default" = VStr other ->
  index params "output" = VDoc [(key, VDoc [("$sum", sumVal)])] ->
  toFloat64 sumVal = Some sumValue ->
  F64.eqb sumValue F64.one = true ->
  exists output,
    Bucket.bucketStage input params = Ok output
    /\ length output = (length boundariesInterface - 1 + 1)%nat
    /\ total key output = Z.of_nat (length input).
Proof.
  intros HgroupBy Hbounds Hnumeric Hdefault Houtput Hnum Hone.
  unfold Bucket.bucketStage. rewrite HgroupBy, Hbounds, Hdefault, Houtput.
  destruct (toBoundaries_numeric _ Hnumeric) as [unsorted Hunsorted].
  rewrite Hunsorted.
  assert (length unsorted = length boundariesInterface) as Hsame.
  { clear -Hunsorted. revert unsorted Hunsorted.
    induction boundariesInterface as [|b rest IH]; intros unsorted; simpl.
    - by intros [= <-].
    - destruct (match b with
                | VNum v => Some v
                | VInt v => Some (F64.of_Z v)
                | _ => None
                end); [|done].
      destruct (Bucket.toBoundaries rest) as [boundaries|]; [|done].
      intros [= <-]. simpl. by rewrite (IH boundaries). }
  set (boundaries := Bucket.Float64s unsorted).
  assert (length boundaries = length boundariesInterface) as Hlen.
  { unfold boundaries, Bucket.Float64s.
    by rewrite (SliceStable_Permutation _ _). }
  destruct (rangeBuckets_empty boundaries) as [Hranges Hnone].
  destruct (assignDocs_held groupBy boundaries input
              (Bucket.rangeBuckets boundaries
               ++ [{| Bucket.Label := "Other"; Bucket.Docs := [];
                      Bucket.Aggregations := [] |}])%list)
    as [Hcount Hheld].
  { rewrite length_app, Hranges. simpl. lia. }
  destruct (bucketResults_counts key sumVal sumValue
              (fold_left (Bucket.assignDoc groupBy boundaries true) input
                 (Bucket.rangeBuckets boundaries
                  ++ [{| Bucket.Label := "Other"; Bucket.Docs := [];
                         Bucket.Aggregations := [] |}])%list) Hnum Hone)
    as (output & -> & Hout & Htotal).
  exists output. split; [done|]. split.
  - rewrite Hout, Hcount, length_app, Hranges, Hlen. done.
  - rewrite Htotal, Hheld, docsHeld_app, Hnone. unfold docsHeld. simpl. lia.
Qed.

End BucketFacts.

Lemma bucket_with_default_counts_every_document_witness :
  exists output,
    Bucket.bucketStage
      [[("p", num 1)]; [("p", num 7)]; [("q", num 1)]; [("p", num 3)]]
      [("groupBy", VStr "p"); ("boundaries", VArr [num 0; num 5]);
       ("default", VStr "Other");
       ("output", VDoc [("n", VDoc [("$sum", num 1)])])] = Ok output
    /\ length output = (length [num 0; num 5] - 1 + 1)%nat
    /\ total "n" output
       = Z.of_nat (length [[("p", num 1)]; [("p", num 7)]; [("q", num 1)];
                           [("p", num 3)]]).
Proof.
  exact (bucket_with_default_counts_every_document
           [[("p", num 1)]; [("p", num 7)]; [("q", num 1)]; [("p", num 3)]]
           [("groupBy", VStr "p"); ("boundaries", VArr [num 0; num 5]);
            ("default", VStr "Other");
            ("output", VDoc [("n", VDoc [("$sum", num 1)])])]
           "p" "Other" "n" [num 0; num 5] (num 1) (F64.of_Z 1)
           eq_refl eq_refl eq_refl eq_refl eq_refl eq_refl eq_refl).
Defined.

(** ** [$match] *)

Lemma filter_filter {A} (f g : A -> bool) (l : list A) :
  List.filter g (List.filter f l) = List.filter (fun x => f x && g x) l.
Proof.
  induction l as [|x l IH]; simpl; [done|].
  destruct (f x); simpl; [|done]. destruct (g x); by rewrite IH.
Qed.

Lemma filter_complement {A} (f : A -> bool) (l : list A) :
  (List.filter (fun x => negb (f x)) l ++ List.filter f l)%list ≡ₚ l.
Proof.
  induction l as [|x l IH]; simpl; [done|].
  destruct (f x); simpl.
  - by rewrite <- Permutation_middle, IH.
  - by rewrite IH.
Qed.

Section MatchFacts.
Context `{GoRuntime} `{GoLibrary}.


Lemma evaluate_or (doc : Doc) (orClauses : list Value) (rest : Doc) :
  Match.evaluateMatchExpression doc (VDoc (("$or", VArr orClauses) :: rest))
  = existsb (Match.evaluateMatchExpression doc) orClauses.
Proof. reflexivity. Qed.


Lemma evaluate_field (doc : Doc) (key : string) (val : Value) (rest : Doc) :
  Match.isLogical key = false ->
  Match.evaluateMatchExpression doc (VDoc ((key, val) :: rest))
  = (match val with
     | VDoc _ =>
         Match.evaluateOperatorsIn (getNestedFieldExists doc key).1
           (getNestedFieldExists doc key).2 val
     | _ => DeepEqual (getNestedFieldExists doc key).1 val
     end)
    && Match.evaluateMatchExpression doc (VDoc rest).
Proof.
  unfold Match.isLogical.
  intros [[Hor Hand]%orb_false_iff Hnor]%orb_false_iff.
  cbn [Match.evaluateMatchExpression]. rewrite Hand, Hor, Hnor.
  by destruct val.
Qed.



(** X17.  A condition is read in the order in which the [range] visits its
    entries, and the range stops at a [$and], [$or] or [$nor]: when such an
    entry is visited first, the other entries of the condition are ignored;
    when a field is visited first, it is checked and the rest is read after
    it.  The two orders of [{field: value, $or: [...]}] are two different
    filters. *)
Theorem match_stops_at_a_logical_operator (input : list Doc) (op : string)
  (clauses : Value) (rest : Doc) (field : string) (val : Value) :
  Match.isLogical op = true ->
  Match.isLogical field = false ->
  Match.matchStage input ((op, clauses) :: rest)
  = Match.matchStage input [(op, clauses)]
  /\ Match.matchStage input ((field, val) :: (op, clauses) :: rest)
     = Match.matchStage (Match.matchStage input [(field, val)])
         [(op, clauses)].
Proof.
  intros Hop Hfield.
  assert (forall doc rest',
            Match.evaluateMatchExpression doc (VDoc ((op, clauses) :: rest'))
            = Match.evaluateMatchExpression doc (VDoc [(op, clauses)]))
    as Hstop.
  { intros doc rest'. unfold Match.isLogical in Hop.
    apply orb_true_iff in Hop as [[Hop|Hop]%orb_true_iff|Hop];
      apply String.eqb_eq in Hop; subst op; by destruct clauses. }
  split.
  - unfold Match.matchStage. apply filter_ext. intros doc. apply Hstop.
  - unfold Match.matchStage. rewrite filter_filter. apply filter_ext.
    intros doc. rewrite !(evaluate_field doc field) by done.
    rewrite (Hstop doc rest).
    change (Match.evaluateMatchExpression doc (VDoc [])) with true.
    by rewrite andb_true_r.
Qed.

(** X18.  [$not] with a pattern is not a negation: it keeps the documents
    that [$regex] with the same pattern keeps.  [$not] with an object of
    operators is one: it keeps the documents that the operators drop. *)
Theorem match_not_pattern_is_regex (input : list Doc) (field pattern : string) :
  Match.isLogical field = false ->
  Match.matchStage input [(field, VDoc [("$not", VStr pattern)])]
  = Match.matchStage input [(field, VDoc [("$regex", VStr pattern)])]
  /\ (Match.matchStage input
        [(field, VDoc [("$not", VDoc [("$regex", VStr pattern)])])]
      ++ Match.matchStage input [(field, VDoc [("$regex", VStr pattern)])])%list
     ≡ₚ input.
Proof.
  intros Hfield. unfold Match.matchStage. split.
  - apply filter_ext. intros doc. by rewrite !evaluate_field.
  - rewrite <- (filter_complement
                  (fun doc => Match.evaluateMatchExpression doc
                                (VDoc [(field,
                                        VDoc [("$regex", VStr pattern)])]))
                  input) at 3.
    f_equiv. apply Permutation_refl'. apply filter_ext. intros doc.
    rewrite !evaluate_field by done.
    cbn [Match.evaluateOperatorsIn String.eqb Ascii.eqb Bool.eqb].
    by rewrite !andb_true_r.
Qed.

End MatchFacts.

Lemma match_stops_at_a_logical_operator_witness :
  Match.matchStage (H0 := noLibrary) [[("s", VStr "A")]; [("s", VStr "B")]]
    [("$or", VArr [VDoc [("s", VStr "B")]]); ("s", VStr "A")]
  = Match.matchStage (H0 := noLibrary) [[("s", VStr "A")]; [("s", VStr "B")]]
      [("$or", VArr [VDoc [("s", VStr "B")]])]
  /\ Match.matchStage (H0 := noLibrary)
       [[("s", VStr "A")]; [("s", VStr "B")]]
       [("s", VStr "A"); ("$or", VArr [VDoc [("s", VStr "B")]]);
        ("s", VStr "A")]
     = Match.matchStage (H0 := noLibrary)
         (Match.matchStage (H0 := noLibrary)
            [[("s", VStr "A")]; [("s", VStr "B")]] [("s", VStr "A")])
         [("$or", VArr [VDoc [("s", VStr "B")]])].
Proof.
  exact (match_stops_at_a_logical_operator (H0 := noLibrary)
           [[("s", VStr "A")]; [("s", VStr "B")]] "$or"
           (VArr [VDoc [("s", VStr "B")]]) [("s", VStr "A")] "s" (VStr "A")
           eq_refl eq_refl).
Defined.

Lemma match_not_pattern_is_regex_witness :
  Match.matchStage (H0 := noLibrary) [[("s", VStr "A")]; [("t", VStr "B")]]
    [("s", VDoc [("$not", VStr "^A")])]
  = Match.matchStage (H0 := noLibrary) [[("s", VStr "A")]; [("t", VStr "B")]]
      [("s", VDoc [("$regex", VStr "^A")])]
  /\ (Match.matchStage (H0 := noLibrary)
        [[("s", VStr "A")]; [("t", VStr "B")]]
        [("s", VDoc [("$not", VDoc [("$regex", VStr "^A")])])]
      ++ Match.matchStage (H0 := noLibrary)
           [[("s", VStr "A")]; [("t", VStr "B")]]
           [("s", VDoc [("$regex", VStr "^A")])])%list
     ≡ₚ [[("s", VStr "A")]; [("t", VStr "B")]].
Proof.
  exact (match_not_pattern_is_regex (H0 := noLibrary)
           [[("s", VStr "A")]; [("t", VStr "B")]] "s" "^A" eq_refl).
Defined.

Lemma isLogical_hasDollar (field : string) :
  Match.isLogical field = true -> hasDollar field = true.
Proof.
  unfold Match.isLogical.
  intros [[Hf|Hf]%orb_true_iff|Hf]%orb_true_iff;
    apply String.eqb_eq in Hf; by subst field.
Qed.

(** The field of a document that has one field, an integer, read at any
    path: the integer or nothing, never a [float64]. *)
Lemma existsLoop_integer (name : string) (n : Z) (parts : list string)
  (f : float64) :
  DeepEqual (existsLoop [(name, VInt n)] parts).1 (VNum f) = false.
Proof.
  destruct parts as [|part parts]; simpl; [done|].
  destruct (String.eqb name part); [|done]. by destruct parts.
Qed.

Section CountThenMatch.
Context `{GoRuntime} `{GoLibrary}.

(** X19.  The count that [$count] writes is an integer, and the equality
    of [$match] never holds between an integer and the number of a
    condition: [$count] followed by a [$match] that asks the count to equal
    a number returns no document, whatever the collection and the number. *)
Theorem count_never_equals_a_number (db : DB) (ch : Choices)
  (counts : list (Value * Z) -> list (Value * Z)) (others : Package)
  (collectionName name : string) (f : float64) (output : list Doc) :
  Query (H0 := package db (visit ch) counts others) db ch collectionName
    [[("$count", VStr name)]; [("$match", VDoc [(name, VNum f)])]]
  = Ret (Ok output) ->
  output = [].
Proof.
  unfold Query.
  cbn [parseAggregationStages parseStageMap stageParams].
  unfold validateStage at 1. cbn [String.eqb Ascii.eqb Bool.eqb].
  cbn [validateCountStage package facetless].
  unfold Count.validateCountStage.
  cbn [GoMap.get String.eqb Ascii.eqb Bool.eqb].
  destruct (String.eqb (TrimSpace name) "") eqn:Hname; [done|].
  destruct (hasDollar name) eqn:Hdollar; [done|].
  destruct (containsBlank name); [done|].
  assert (Match.isLogical name = false) as Hfield.
  { destruct (Match.isLogical name) eqn:Hl; [|done].
    apply isLogical_hasDollar in Hl. congruence. }
  unfold validateStage at 1. cbn [String.eqb Ascii.eqb Bool.eqb].
  cbn [validateMatchStage package facetless].
  unfold Match.validateMatchStage. cbn [Match.validateMatchFields].
  rewrite Hfield. cbn [app].
  destruct (match Collection db collectionName with
            | Ok docs => docs
            | Err _ => []
            end) as [|doc docs] eqn:Hdocs.
  { by intros [= <-]. }
  cbn [length Nat.eqb runStages].
  unfold runStage. cbn [Stage Params String.eqb Ascii.eqb Bool.eqb].
  cbn [countStage matchStage package facetless].
  unfold Count.countStage, Count.countField.
  cbn [GoMap.get String.eqb Ascii.eqb Bool.eqb].
  rewrite fieldNameOf_validated by done.
  cbn [noError mbind outcome_bind mret outcome_ret length Nat.eqb].
  unfold Match.matchStage. cbn [List.filter].
  rewrite evaluate_field by done.
  unfold getNestedFieldExists. rewrite existsLoop_integer.
  cbn [andb length Nat.eqb]. by intros [= <-].
Qed.

End CountThenMatch.

Lemma count_never_equals_a_number_witness :
  Query (H0 := package (H0 := noLibrary)
                 (oneCollection "c" [[("a", num 1)]; [("a", num 2)]])
                 (visit inOrder) (fun m => m) noPackage)
    (oneCollection "c" [[("a", num 1)]; [("a", num 2)]]) inOrder "c"
    [[("$count", VStr "n")]; [("$match", VDoc [("n", VNum (F64.of_Z 2))])]]
  = Ret (Ok [])
  /\ [] = ([] : list Doc).
Proof.
  split; [reflexivity|].
  exact (eq_sym (count_never_equals_a_number (H0 := noLibrary)
           (oneCollection "c" [[("a", num 1)]; [("a", num 2)]])
           inOrder (fun m => m) noPackage "c" "n" (F64.of_Z 2) [] eq_refl)).
Defined.

(** ** Paths *)

Lemma resolveLoop_existsLoop (doc : Doc) (parts : list string) :
  resolveLoop doc parts = (existsLoop doc parts).1.
Proof.
  revert doc. induction parts as [|part parts IH]; intros doc; simpl; [done|].
  destruct (GoMap.get doc part) as [val|]; [|done].
  destruct parts as [|part' parts]; [done|].
  destruct val; auto.
Qed.

Lemma nestedLoop_existsLoop (doc : Doc) (parts : list string) (v : Value) :
  existsLoop doc parts = (v, true) -> nestedLoop (VDoc doc) parts = v.
Proof.
  revert doc. induction parts as [|part parts IH]; intros doc; simpl; [done|].
  unfold index. destruct (GoMap.get doc part) as [val|]; [|done].
  destruct parts as [|part' parts].
  - intros [= <-]. by destruct val.
  - destruct val; auto; done.
Qed.

(** X20.  The three readers of a dotted path agree: [resolveField] returns
    the value that [getNestedFieldExists] returns, and so does
    [getNestedField] when [getNestedFieldExists] reports that the field
    exists. *)
Theorem path_readers_agree (doc : Doc) (path : string) :
  resolveField doc path = (getNestedFieldExists doc path).1
  /\ ((getNestedFieldExists doc path).2 = true ->
      getNestedField doc path = (getNestedFieldExists doc path).1).
Proof.
  split; [apply resolveLoop_existsLoop|].
  unfold getNestedField, getNestedFieldExists.
  destruct (existsLoop doc (splitDots path)) as [v found] eqn:Hloop.
  simpl. intros ->. by apply nestedLoop_existsLoop.
Qed.

Lemma path_readers_agree_witness :
  getNestedField [("a", VDoc [("b", num 1)])] "a.b"
  = (getNestedFieldExists [("a", VDoc [("b", num 1)])] "a.b").1.
Proof.
  exact (proj2 (path_readers_agree [("a", VDoc [("b", num 1)])] "a.b")
           eq_refl).
Defined.

(** ** [$substr] *)

Lemma wrapInt_small (z : Z) : - 2 ^ 63 <= z < 2 ^ 63 -> wrapInt z = z.
Proof. intros Hz. unfold wrapInt. rewrite Z.mod_small; lia. Qed.

Lemma wrapInt_wrapped (z : Z) :
  2 ^ 63 <= z < 2 ^ 64 -> wrapInt z = z - 2 ^ 64.
Proof.
  intros Hz. unfold wrapInt.
  replace (z + 2 ^ 63) with (z - 2 ^ 63 + 1 * 2 ^ 64) by lia.
  rewrite Z.mod_add by lia. rewrite Z.mod_small; lia.
Qed.

Section SubstringFacts.
Context `{GoRuntime} `{GoLibrary}.

(** X21.  [$substr] of a string field, from a position inside the string.
    Let n be the [int] that the length converts to.  When n is not negative
    and the position plus n still fits an [int], the result is the characters
    from that position, as many as n says or as are left.  In every other
    case the stage stops the program: a negative n, which MongoDB reads as
    "to the end", and an n so large that the sum wraps around. *)
Theorem substr_length (doc : Doc) (field s : string)
  (start length : float64) :
  resolveField doc field = VStr s ->
  Z.of_nat (String.length s) < 2 ^ 63 ->
  0 <= toInt start < Z.of_nat (String.length s) ->
  - 2 ^ 63 <= toInt length < 2 ^ 63 ->
  Project.evaluateExpression doc
    (VDoc [("$substr", VArr [VStr (String "$" field); VNum start;
                             VNum length])])
  = if (0 <=? toInt length) && (toInt start + toInt length <? 2 ^ 63)
    then Ret (VStr (substring (Z.to_nat (toInt start))
                      (Z.to_nat (Z.min (toInt length)
                                   (Z.of_nat (String.length s) - toInt start)))
                      s))
    else Panic "slice bounds out of range".
Proof.
  intros Hfield Hlen Hstart Hlength.
  assert (Project.evaluateExpression doc
            (VDoc [("$substr", VArr [VStr (String "$" field); VNum start;
                                     VNum length])])
          = (sub ← Project.extractSubstring (VStr s) (toInt start)
                     (toInt length);
             Ret (VStr sub))) as ->.
  { cbn [Project.evaluateExpression String.eqb Ascii.eqb Bool.eqb].
    unfold Project.handleSubstring.
    cbn [Project.evaluateExpression hasDollar trimDollar Ascii.eqb Bool.eqb
         mbind outcome_bind].
    by rewrite Hfield. }
  unfold Project.extractSubstring. cbn [Sprint].
  destruct (Z.ltb_spec (toInt start) 0); [lia|].
  destruct (Z.leb_spec (Z.of_nat (String.length s)) (toInt start)); [lia|].
  cbn [orb].
  destruct (Z.leb_spec 0 (toInt length)) as [Hsign|Hsign]; cbn [andb].
  - destruct (Z.ltb_spec (toInt start + toInt length) (2 ^ 63)) as [Hfit|Hfit].
    + rewrite wrapInt_small by lia.
      destruct (Z.ltb_spec (Z.of_nat (String.length s))
                  (toInt start + toInt length)).
      * destruct (Z.ltb_spec (Z.of_nat (String.length s)) (toInt start));
          [lia|]. simpl. do 3 f_equal. lia.
      * destruct (Z.ltb_spec (toInt start + toInt length) (toInt start));
          [lia|]. simpl. do 3 f_equal. lia.
    + rewrite (wrapInt_wrapped (toInt start + toInt length)) by lia.
      destruct (Z.ltb_spec (Z.of_nat (String.length s))
                  (toInt start + toInt length - 2 ^ 64)); [lia|].
      destruct (Z.ltb_spec (toInt start + toInt length - 2 ^ 64)
                  (toInt start)); [done|lia].
  - rewrite wrapInt_small by lia.
    destruct (Z.ltb_spec (Z.of_nat (String.length s))
                (toInt start + toInt length)); [lia|].
    destruct (Z.ltb_spec (toInt start + toInt length) (toInt start));
      [done|lia].
Qed.

End SubstringFacts.

Lemma substr_length_witness :
  Project.evaluateExpression (H0 := noLibrary) [("name", VStr "marco")]
    (VDoc [("$substr", VArr [VStr "$name"; num 1; num (-1)])])
  = Panic "slice bounds out of range".
Proof.
  apply (substr_length (H0 := noLibrary) [("name", VStr "marco")] "name"
           "marco" (F64.of_Z 1) (F64.of_Z (-1)) eq_refl);
    vm_compute; (done || (split; congruence)).
Defined.

(** ** Facets *)

Section FacetFacts.
Context `{GoRuntime} `{Package}.

Lemma applyStage_unfaceted (db : DB) (order : Groups -> Groups)
  (facet : list Doc -> Value -> outcome (list Doc)) (data : list Doc)
  (key : string) (value : Value) :
  key ∈ unfaceted ->
  Facet.applyStage db order facet data key value
  = (_ ← Facet.asParams value; Ret data).
Proof.
  intros Hin. apply list_elem_of_In in Hin. simpl in Hin.
  repeat (destruct Hin as [<-|Hin]; [reflexivity|]). done.
Qed.

(** X22.  In a facet, the stages [$sample], [$count], [$sortByCount],
    [$bucket], [$bucketAuto], [$unset], [$addFields] and [$set] do nothing:
    a facet whose pipeline is made of such stages, each with an object for
    its parameters, holds the input documents as they are. *)
Theorem facet_skips_some_stages (db : DB) (order : Groups -> Groups)
  (input : list Doc) (facetName : string) (pipeline : list Value) :
  Forall (fun stage => exists key params,
            stage = VDoc [(key, VDoc params)] /\ key ∈ unfaceted) pipeline ->
  Facet.facetStage db order input [(facetName, VArr pipeline)]
  = Ret [[(facetName, VDocs input)]].
Proof.
  intros Hall. unfold Facet.facetStage.
  cbn [Facet.facetStageIn Facet.facetLoop].
  assert (Facet.applyPipelineWith db order (Facet.facetStageIn db order)
            input pipeline = Ret input) as ->; [|done].
  induction Hall as [|stage pipeline (key & params & -> & Hkey) _ IH];
    [done|].
  cbn [Facet.applyPipelineWith Facet.applyEntries].
  by rewrite applyStage_unfaceted.
Qed.

End FacetFacts.

Lemma facet_skips_some_stages_witness :
  Facet.facetStage (oneCollection "c" []) (fun groups => groups)
    [[("a", num 1)]; [("a", num 2)]]
    [("n", VArr [VDoc [("$count", VDoc [("field", VStr "total")])]])]
  = Ret [[("n", VDocs [[("a", num 1)]; [("a", num 2)]])]].
Proof.
  apply (facet_skips_some_stages (oneCollection "c" [])
           (fun groups => groups) [[("a", num 1)]; [("a", num 2)]] "n"
           [VDoc [("$count", VDoc [("field", VStr "total")])]]).
  repeat constructor. exists "$count", [("field", VStr "total")].
  split; [done|]. apply list_elem_of_In. simpl. tauto.
Defined.

Section FacetPanics.
Context `{GoRuntime} `{GoLibrary}.

(** X23.  A facet with an [$unset] stage whose value is no object, such as
    the name of a field, passes validation and then stops the program: the
    validator of the facet reads the value as an empty object, and
    [applyPipeline] converts it to a map, which panics. *)
Theorem facet_with_unset_panics (db : DB) (ch : Choices)
  (counts : list (Value * Z) -> list (Value * Z)) (others : Package)
  (collectionName facetName : string) (raw : Value) (docs : list Doc) :
  (forall m, raw <> VDoc m) ->
  Collection db collectionName = Ok docs ->
  docs <> [] ->
  validateStage (H0 := package db (visit ch) counts others) "$facet"
    [(facetName, VArr [VDoc [("$unset", raw)]])] = None
  /\ Query (H0 := package db (visit ch) counts others) db ch collectionName
       [[("$facet", VDoc [(facetName, VArr [VDoc [("$unset", raw)]])])]]
     = Panic "interface conversion: interface {} is not map[string]interface {}".
Proof.
  intros Hraw Hcoll Hdocs.
  assert (validateStage (H0 := package db (visit ch) counts others) "$facet"
            [(facetName, VArr [VDoc [("$unset", raw)]])] = None) as Hvalid.
  { unfold validateStage. cbn [String.eqb Ascii.eqb Bool.eqb].
    cbn [validateFacetStage package]. unfold Facet.validateFacetStage.
    cbn [Facet.validateFacetStageIn Facet.validateFacets
         Facet.validateFacetPipeline].
    unfold Facet.validateSubStage. cbn [String.eqb Ascii.eqb Bool.eqb].
    unfold validateStage. cbn [String.eqb Ascii.eqb Bool.eqb].
    cbn [validateUnsetStage facetless].
    by destruct raw; try done; destruct (Hraw m). }
  split; [done|]. unfold Query.
  cbn [parseAggregationStages parseStageMap stageParams]. rewrite Hvalid.
  cbn [app]. rewrite Hcoll. destruct docs as [|doc docs]; [done|].
  cbn [length Nat.eqb runStages]. unfold runStage.
  cbn [Stage Params String.eqb Ascii.eqb Bool.eqb].
  cbn [facetStage package]. unfold Facet.facetStage.
  cbn [Facet.facetStageIn Facet.facetLoop Facet.applyPipelineWith
       Facet.applyEntries].
  unfold Facet.applyStage. cbn [String.eqb Ascii.eqb Bool.eqb].
  by destruct raw; try done; destruct (Hraw m).
Qed.

End FacetPanics.

Lemma facet_with_unset_panics_witness :
  validateStage
    (H0 := package (H0 := noLibrary) (oneCollection "c" [[("a", num 1)]])
             (visit inOrder) (fun m => m) noPackage)
    "$facet" [("f", VArr [VDoc [("$unset", VStr "a")]])] = None
  /\ Query
       (H0 := package (H0 := noLibrary) (oneCollection "c" [[("a", num 1)]])
                (visit inOrder) (fun m => m) noPackage)
       (oneCollection "c" [[("a", num 1)]]) inOrder "c"
       [[("$facet", VDoc [("f", VArr [VDoc [("$unset", VStr "a")]])])]]
     = Panic "interface conversion: interface {} is not map[string]interface {}".
Proof.
  apply (facet_with_unset_panics (H0 := noLibrary)
           (oneCollection "c" [[("a", num 1)]]) inOrder (fun m => m)
           noPackage "c" "f" (VStr "a") [[("a", num 1)]]); done.
Defined.

(** ** The expressions of [$project] *)

(** Induction on a value and on the values inside it. *)
Lemma Value_nested_ind (P : Value -> Prop) :
  P VNil ->
  (forall b, P (VBool b)) ->
  (forall f, P (VNum f)) ->
  (forall n, P (VInt n)) ->
  (forall s, P (VStr s)) ->
  (forall m, Forall (fun entry : string * Value => P entry.2) m -> P (VDoc m)) ->
  (forall l, Forall P l -> P (VArr l)) ->
  (forall l, P (VDocs l)) ->
  forall v, P v.
Proof.
  intros HNil HBool HNum HInt HStr HDoc HArr HDocs. fix IH 1.
  intros [|b|f|n|s|m|l|l].
  - exact HNil.
  - apply HBool.
  - apply HNum.
  - apply HInt.
  - apply HStr.
  - apply HDoc. induction m as [|[k v] m IHm]; constructor;
      [apply IH|exact IHm].
  - apply HArr. induction l as [|v l IHl]; constructor; [apply IH|exact IHl].
  - apply HDocs.
Qed.

Section HandlersReturn.
Context `{GoRuntime} `{GoLibrary}.
Variable eval : Value -> outcome Value.

Lemma evalField_returns (m : Doc) (key : string) :
  Forall (fun entry : string * Value => exists v, eval entry.2 = Ret v) m ->
  exists v, Project.evalField eval m key = Ret v.
Proof.
  induction 1 as [|[k w] m [v Hv] _ IH]; simpl; [eauto|].
  destruct (String.eqb k key); eauto.
Qed.

Lemma concatLoop_returns (arr : list Value) (sb : string) :
  Forall (fun item => exists v, eval item = Ret v) arr ->
  exists s, Project.concatLoop eval arr sb = Ret s.
Proof.
  intros Hall. revert sb.
  induction Hall as [|item arr [v Hv] _ IH]; intros sb; simpl; [eauto|].
  rewrite Hv. simpl. apply IH.
Qed.

Lemma arithLoop_returns (op : float64 -> float64 -> float64)
  (arr : list Value) (acc : float64) :
  Forall (fun item => exists v, eval item = Ret v) arr ->
  exists result, Project.arithLoop eval op arr acc = Ret result.
Proof.
  intros Hall. revert acc.
  induction Hall as [|item arr [v Hv] _ IH]; intros acc; simpl; [eauto|].
  rewrite Hv. simpl. apply IH.
Qed.

Lemma divideLoop_returns (arr : list Value) (result : float64) :
  Forall (fun item => exists v, eval item = Ret v) arr ->
  exists v, Project.divideLoop eval arr result = Ret v.
Proof.
  intros Hall. revert result.
  induction Hall as [|item arr [v Hv] _ IH]; intros result; simpl; [eauto|].
  rewrite Hv. simpl. destruct (F64.eqb (Project.numberOf v) F64.zero); eauto.
Qed.

Lemma andLoop_returns (arr : list Value) :
  Forall (fun item => exists v, eval item = Ret v) arr ->
  exists v, Project.andLoop eval arr = Ret v.
Proof.
  induction 1 as [|item arr [v Hv] _ IH]; simpl; [eauto|].
  rewrite Hv. simpl. destruct (Project.toBool v); eauto.
Qed.

Lemma orLoop_returns (arr : list Value) :
  Forall (fun item => exists v, eval item = Ret v) arr ->
  exists v, Project.orLoop eval arr = Ret v.
Proof.
  induction 1 as [|item arr [v Hv] _ IH]; simpl; [eauto|].
  rewrite Hv. simpl. destruct (Project.toBool v); eauto.
Qed.

Lemma evalItems_returns (val : list Value) :
  Forall (fun item => exists v, eval item = Ret v) val ->
  exists resultArr, Project.evalItems eval val = Ret resultArr.
Proof.
  induction 1 as [|item arr [v Hv] _ [resultArr IH]]; simpl; [eauto|].
  rewrite Hv, IH. simpl. eauto.
Qed.

(** Every operator but [$substr] returns a value when its operands do. *)
Lemma operator_returns (op : string) (opVal : Value) :
  String.eqb op "$substr" = false ->
  (exists v, eval opVal = Ret v) ->
  operandsReturn eval opVal ->
  exists v,
    (if String.eqb op "$concat" then Project.handleConcat eval opVal
     else if String.eqb op "$substr" then Project.handleSubstring eval opVal
     else if String.eqb op "$dateToString"
     then Project.handleDateToString eval opVal
     else if String.eqb op "$add" then Project.handleAdd eval opVal
     else if String.eqb op "$subtract" then Project.handleSubtract eval opVal
     else if String.eqb op "$multiply" then Project.handleMultiply eval opVal
     else if String.eqb op "$divide" then Project.handleDivide eval opVal
     else if String.eqb op "$mod" then Project.handleMod eval opVal
     else if String.eqb op "$and" then Project.handleAnd eval opVal
     else if String.eqb op "$or" then Project.handleOr eval opVal
     else if String.eqb op "$not" then Project.handleNot eval opVal
     else if String.eqb op "$cond" then Project.handleCond eval opVal
     else Ret VNil) = Ret v.
Proof.
  intros -> [v Hv] Hoperands.
  destruct (String.eqb op "$concat").
  { destruct opVal as [| | | | | |arr|]; simpl; eauto.
    destruct (concatLoop_returns arr "" Hoperands) as [s ->]. simpl. eauto. }
  destruct (String.eqb op "$dateToString").
  { destruct opVal as [| | | | |config| |]; simpl; eauto.
    destruct (evalField_returns config "date" Hoperands) as [d ->].
    destruct (evalField_returns config "format" Hoperands) as [f ->].
    simpl. eauto. }
  destruct (String.eqb op "$add").
  { destruct opVal as [| | | | | |arr|]; simpl; eauto.
    destruct (arithLoop_returns F64.add arr F64.zero Hoperands) as [s ->].
    simpl. eauto. }
  destruct (String.eqb op "$subtract").
  { destruct opVal as [| | | | | |[|a0 [|a1 rest]]|];
      try (simpl; eauto; fail).
    apply Forall_cons in Hoperands as [[v0 Hv0] Hrest].
    unfold Project.handleSubtract. cbv beta iota. rewrite Hv0.
    cbn [mbind outcome_bind].
    destruct (arithLoop_returns F64sub (a1 :: rest) (Project.numberOf v0)
                Hrest) as [s ->].
    simpl. eauto. }
  destruct (String.eqb op "$multiply").
  { destruct opVal as [| | | | | |[|a0 rest]|]; try (simpl; eauto; fail).
    unfold Project.handleMultiply. cbv beta iota.
    destruct (arithLoop_returns F64.mul (a0 :: rest) F64.one Hoperands)
      as [s ->].
    simpl. eauto. }
  destruct (String.eqb op "$divide").
  { destruct opVal as [| | | | | |[|a0 [|a1 rest]]|]; simpl; eauto.
    apply Forall_cons in Hoperands as [[v0 ->] Hrest].
    apply Forall_cons in Hrest as [[v1 ->] Hrest]. simpl.
    destruct (F64.eqb (Project.numberOf v1) F64.zero); eauto.
    by apply divideLoop_returns. }
  destruct (String.eqb op "$mod").
  { destruct opVal as [| | | | | |[|a0 [|a1 [|a2 rest]]]|]; simpl; eauto.
    apply Forall_cons in Hoperands as [[v0 ->] Hrest].
    apply Forall_cons in Hrest as [[v1 ->] Hrest]. simpl.
    destruct (F64.eqb (Project.numberOf v1) F64.zero); eauto. }
  destruct (String.eqb op "$and").
  { destruct opVal as [| | | | | |arr|]; simpl; eauto.
    by apply andLoop_returns. }
  destruct (String.eqb op "$or").
  { destruct opVal as [| | | | | |arr|]; simpl; eauto.
    by apply orLoop_returns. }
  destruct (String.eqb op "$not").
  { unfold Project.handleNot. rewrite Hv. simpl. eauto. }
  destruct (String.eqb op "$cond"); [|eauto].
  destruct opVal as [| | | | |condVal|[|a0 [|a1 [|a2 [|a3 rest]]]]|];
    simpl; eauto.
  - destruct (evalField_returns condVal "if" Hoperands) as [c ->]. simpl.
    destruct (Project.toBool c); by apply evalField_returns.
  - apply Forall_cons in Hoperands as [[v0 ->] Hrest].
    apply Forall_cons in Hrest as [[v1 ->] Hrest].
    apply Forall_cons in Hrest as [[v2 ->] Hrest]. simpl.
    destruct (Project.toBool v0); eauto.
Qed.

End HandlersReturn.

Section ExpressionReturns.
Context `{GoRuntime} `{GoLibrary}.

Lemma expression_returns (doc : Doc) (expr : Value) :
  mentions "$substr" expr = false ->
  (exists v, Project.evaluateExpression doc expr = Ret v)
  /\ operandsReturn (Project.evaluateExpression doc) expr.
Proof.
  induction expr as [|b|f|n|s|m IH|l IH|l] using Value_nested_ind;
    intros Hno; try (split; [simpl; eauto|done]).
  - destruct (hasDollar s); eauto.
  - assert (operandsReturn (Project.evaluateExpression doc) (VDoc m)
            /\ forall op opVal rest, m = (op, opVal) :: rest ->
                 String.eqb op "$substr" = false
                 /\ operandsReturn (Project.evaluateExpression doc) opVal)
      as [Hoperands Hfirst].
    { simpl. induction IH as [|[k v] m Hv _ IHm]; simpl in *.
      - split; [done|]. by intros.
      - apply orb_false_iff in Hno as [[Hk Hmv]%orb_false_iff Hrest].
        destruct (Hv Hmv) as [Hret Hops].
        destruct (IHm Hrest) as [Hall _].
        split; [by constructor|]. intros op opVal rest [= -> -> ->]. done. }
    split; [|done]. destruct m as [|[op opVal] rest]; [simpl; eauto|].
    destruct (Hfirst op opVal rest eq_refl) as [Hop Hops].
    apply Forall_cons in Hoperands as [Hret _].
    cbn [Project.evaluateExpression].
    by apply operator_returns.
  - assert (operandsReturn (Project.evaluateExpression doc) (VArr l))
      as Hoperands.
    { simpl. induction IH as [|v l Hv _ IHl]; simpl in *; [done|].
      apply orb_false_iff in Hno as [Hmv Hrest].
      constructor; [by apply Hv|by apply IHl]. }
    split; [|done]. cbn [Project.evaluateExpression].
    destruct (evalItems_returns _ l Hoperands) as [resultArr ->].
    simpl. eauto.
Qed.

(** X24.  The evaluator of the expressions of [$project] returns a value
    for every document and every expression in which [$substr] is no key:
    no other operator can stop the program. *)
Theorem expression_without_substr_returns (doc : Doc) (expr : Value) :
  mentions "$substr" expr = false ->
  exists v, Project.evaluateExpression doc expr = Ret v.
Proof. intros Hno. by apply expression_returns. Qed.

End ExpressionReturns.

Lemma expression_without_substr_returns_witness :
  exists v,
    Project.evaluateExpression (H0 := noLibrary) [("a", num 1)]
      (VDoc [("$cond", VArr [VDoc [("$not", VStr "$a")]; VStr "no";
                             VDoc [("$add", VArr [VStr "$a"; num 1])]])])
    = Ret v.
Proof.
  exact (expression_without_substr_returns (H0 := noLibrary) [("a", num 1)]
           (VDoc [("$cond", VArr [VDoc [("$not", VStr "$a")]; VStr "no";
                                  VDoc [("$add", VArr [VStr "$a"; num 1])]])])
           eq_refl).
Defined.

(** ** A projection that includes *)

Section InclusionFacts.
Context `{Package}.

Lemma projectFields_include (doc : Doc) (params : Doc) (projectedDoc : Doc) :
  Forall (fun entry : string * Value => exists spec, entry.2 = VNum spec)
    params ->
  NoDup (GoMap.keys params) ->
  exists result,
    projectFields include doc params projectedDoc = Ret result
    /\ forall k,
         GoMap.get result k
         = match GoMap.get params k with
           | Some (VNum spec) =>
               if F64.eqb spec F64.one
               then match GoMap.get doc k with
                    | Some val => Some val
                    | None => GoMap.get projectedDoc k
                    end
               else GoMap.get projectedDoc k
           | _ => GoMap.get projectedDoc k
           end.
Proof.
  intros Hall. revert projectedDoc.
  induction Hall as [|[field raw] params [spec Hraw] _ IH];
    intros projectedDoc Hnodup.
  - exists projectedDoc. by split.
  - simpl in Hraw. subst raw. apply NoDup_cons in Hnodup as [Hfresh Hnodup].
    cbn [projectFields].
    assert (forall projected' : Doc,
              (forall k, k <> field ->
                         GoMap.get projected' k = GoMap.get projectedDoc k) ->
              GoMap.get projected' field
              = (if F64.eqb spec F64.one
                 then match GoMap.get doc field with
                      | Some val => Some val
                      | None => GoMap.get projectedDoc field
                      end
                 else GoMap.get projectedDoc field) ->
              exists result,
                projectFields include doc params projected' = Ret result
                /\ forall k,
                     GoMap.get result k
                     = match GoMap.get ((field, VNum spec) :: params) k with
                       | Some (VNum spec) =>
                           if F64.eqb spec F64.one
                           then match GoMap.get doc k with
                                | Some val => Some val
                                | None => GoMap.get projectedDoc k
                                end
                           else GoMap.get projectedDoc k
                       | _ => GoMap.get projectedDoc k
                       end) as Hstep.
    { intros projected' Hother Hfield.
      destruct (IH projected' Hnodup) as (result & -> & Hresult).
      exists result. split; [done|]. intros k. rewrite Hresult. simpl.
      destruct (String.eqb_spec field k) as [<-|Hne].
      - by rewrite (get_None_keys params field).
      - rewrite Hother by done. done. }
    destruct (F64.eqb spec F64.one) eqn:Hone.
    + destruct (GoMap.get doc field) as [val|] eqn:Hval.
      * apply Hstep; [|by rewrite get_set_eq].
        intros k Hk. by apply get_set_ne.
      * by apply Hstep.
    + by apply Hstep.
Qed.

(** X25.  A [$project] that includes keeps, of every document, the fields
    for which the specification has 1, and [_id] unless the specification
    names it; it returns one document for each document of its input, in
    the same order, and nothing else in them. *)
Theorem project_of_ones_keeps_the_named_fields (input : list Doc)
  (params : Doc) :
  determineProjectionMode params = Ok include ->
  Forall (fun entry : string * Value => exists spec, entry.2 = VNum spec)
    params ->
  NoDup (GoMap.keys params) ->
  exists output,
    projectStage input params = Ret output
    /\ Forall2 (fun doc doc' =>
                  forall k, GoMap.get doc' k = included params doc k)
         input output.
Proof.
  intros Hmode Hall Hnodup. unfold projectStage. rewrite Hmode.
  induction input as [|doc input (output & Hout & Hrest)].
  - exists []. split; [done|constructor].
  - cbn [projectLoop]. unfold projectDoc.
    destruct (projectFields_include doc params [] Hall Hnodup)
      as (projected & -> & Hprojected).
    rewrite Hout. cbn [mbind outcome_bind]. eexists. split; [done|].
    constructor; [|done]. intros k. unfold included.
    destruct (GoMap.get params "_id") as [idSpec|] eqn:Hid.
    + rewrite Hprojected.
      destruct (GoMap.get params k) as [[| |spec| | | | |]|] eqn:Hk;
        try done.
      * destruct (F64.eqb spec F64.one); [|done].
        by destruct (GoMap.get doc k).
      * destruct (String.eqb_spec k "_id") as [->|_]; [congruence|done].
    + destruct (GoMap.get doc "_id") as [val|] eqn:Hval.
      * destruct (String.eqb_spec k "_id") as [->|Hne].
        -- by rewrite get_set_eq, Hid.
        -- rewrite get_set_ne by done. rewrite Hprojected.
           destruct (GoMap.get params k) as [[| |spec| | | | |]|];
             try done.
           destruct (F64.eqb spec F64.one); [|done].
           by destruct (GoMap.get doc k).
      * rewrite Hprojected.
        destruct (GoMap.get params k) as [[| |spec| | | | |]|] eqn:Hk;
          try done.
        -- destruct (F64.eqb spec F64.one); [|done].
           by destruct (GoMap.get doc k).
        -- destruct (String.eqb_spec k "_id") as [->|_]; done.
Qed.

End InclusionFacts.

Lemma project_of_ones_keeps_the_named_fields_witness :
  exists output,
    projectStage [[("_id", num 7); ("a", num 1); ("b", num 2)]]
      [("a", num 1)] = Ret output
    /\ Forall2 (fun doc doc' =>
                  forall k, GoMap.get doc' k = included [("a", num 1)] doc k)
         [[("_id", num 7); ("a", num 1); ("b", num 2)]] output.
Proof.
  apply (project_of_ones_keeps_the_named_fields
           [[("_id", num 7); ("a", num 1); ("b", num 2)]] [("a", num 1)]
           eq_refl).
  - repeat constructor. by eexists.
  - repeat constructor. apply not_elem_of_nil.
Defined.

(** ** Documents without the field of [$bucket] *)

Section BucketMissing.
Context `{GoRuntime}.

(** X26.  [$bucket] takes [groupBy] as the name of a field, as it is
    written: a leading dollar sign is part of the name.  Without a
    [default], documents that have no field of that name change nothing in
    the result, which is that of an empty input. *)
Theorem bucket_drops_documents_without_the_field (input : list Doc)
  (params : Doc) (groupBy : string) :
  index params "groupBy" = VStr groupBy ->
  (forall other, index params "default" <> VStr other) ->
  Forall (fun doc => GoMap.get doc groupBy = None) input ->
  Bucket.bucketStage input params = Bucket.bucketStage [] params.
Proof.
  intros HgroupBy Hdefault Hall. unfold Bucket.bucketStage. rewrite HgroupBy.
  destruct (index params "boundaries") as [| | | | | |boundaries|]; try done.
  destruct (Bucket.toBoundaries boundaries) as [unsorted|]; [|done].
  destruct (index params "default") as [| | | |other| | |] eqn:Hother;
    try (by destruct (Hdefault other)); f_equal; rewrite app_nil_r;
    generalize (Bucket.rangeBuckets (Bucket.Float64s unsorted));
    (induction Hall as [|doc input Hdoc _ IH]; intros buckets; [done|]);
    simpl; unfold Bucket.assignDoc at 2; rewrite Hdoc; apply IH.
Qed.

End BucketMissing.

Lemma bucket_drops_documents_without_the_field_witness :
  Bucket.bucketStage [[("price", num 3)]; [("price", num 8)]]
    [("groupBy", VStr "$price"); ("boundaries", VArr [num 0; num 5; num 10]);
     ("output", VDoc [("n", VDoc [("$sum", num 1)])])]
  = Bucket.bucketStage []
      [("groupBy", VStr "$price"); ("boundaries", VArr [num 0; num 5; num 10]);
       ("output", VDoc [("n", VDoc [("$sum", num 1)])])].
Proof.
  apply (bucket_drops_documents_without_the_field
           [[("price", num 3)]; [("price", num 8)]]
           [("groupBy", VStr "$price");
            ("boundaries", VArr [num 0; num 5; num 10]);
            ("output", VDoc [("n", VDoc [("$sum", num 1)])])] "$price"
           eq_refl).
  - intros other. discriminate.
  - by repeat constructor.
Defined.

(** ** [$lookup] with an empty name *)

(** X27.  The validator of [$lookup] asks for four strings and accepts the
    empty string, which the stage refuses: a [$lookup] with an empty [from],
    [localField], [foreignField] or [as] passes validation and returns its
    input unchanged. *)
Theorem lookup_with_an_empty_name_does_nothing (db : DB) (input : list Doc)
  (params : Doc) (fromName localName foreignName asName : string) :
  GoMap.get params "from" = Some (VStr fromName) ->
  GoMap.get params "localField" = Some (VStr localName) ->
  GoMap.get params "foreignField" = Some (VStr foreignName) ->
  GoMap.get params "as" = Some (VStr asName) ->
  fromName = "" \/ localName = "" \/ foreignName = "" \/ asName = "" ->
  validateLookupStage params = None
  /\ lookupStage db input params = Ret input.
Proof.
  intros Hfrom Hlocal Hforeign Has Hempty. split.
  - unfold validateLookupStage. simpl. by rewrite Hfrom, Hlocal, Hforeign, Has.
  - unfold lookupStage, validateLookupParams, index.
    rewrite Hfrom, Hlocal, Hforeign, Has.
    destruct Hempty as [-> | [-> | [-> | ->]]]; simpl;
      rewrite ?orb_true_r; done.
Qed.

Lemma lookup_with_an_empty_name_does_nothing_witness :
  validateLookupStage
    [("from", VStr "orders"); ("localField", VStr "k");
     ("foreignField", VStr "k"); ("as", VStr "")] = None
  /\ lookupStage (oneCollection "orders" [[("k", num 1)]]) [[("k", num 1)]]
       [("from", VStr "orders"); ("localField", VStr "k");
        ("foreignField", VStr "k"); ("as", VStr "")]
     = Ret [[("k", num 1)]].
Proof.
  apply (lookup_with_an_empty_name_does_nothing
           (oneCollection "orders" [[("k", num 1)]]) [[("k", num 1)]]
           [("from", VStr "orders"); ("localField", VStr "k");
            ("foreignField", VStr "k"); ("as", VStr "")]
           "orders" "k" "k" "" eq_refl eq_refl eq_refl eq_refl).
  tauto.
Defined.

(** ** What [$unwind] keeps *)

Lemma unwoundDoc_agrees (doc : Doc) (path includeArrayIndexField : string)
  (idx : nat) (itemMap : Doc) :
  agreeOutside path includeArrayIndexField
    (unwoundDoc doc path includeArrayIndexField idx itemMap) doc.
Proof.
  intros k Hpath Hidx. unfold unwoundDoc, cloneDocument.
  destruct (String.eqb includeArrayIndexField "").
  - by rewrite get_set_ne.
  - by rewrite !get_set_ne.
Qed.

Lemma unwindDoc_agrees (doc : Doc) (path : string)
  (preserveNullAndEmptyArrays : bool) (includeArrayIndexField : string) :
  Forall (fun out => agreeOutside path includeArrayIndexField out doc)
    (unwindDoc doc path preserveNullAndEmptyArrays includeArrayIndexField)
  /\ (preserveNullAndEmptyArrays = true ->
      unwindDoc doc path preserveNullAndEmptyArrays includeArrayIndexField
      <> []).
Proof.
  assert (Forall (fun out => agreeOutside path includeArrayIndexField out doc)
            (if preserveNullAndEmptyArrays then [doc] else [])
          /\ (preserveNullAndEmptyArrays = true ->
              (if preserveNullAndEmptyArrays then [doc] else []) <> []))
    as Hkept.
  { destruct preserveNullAndEmptyArrays; split; try done.
    by repeat constructor. }
  unfold unwindDoc.
  destruct (GoMap.get doc path) as [[| | | | | |arr|arr]|]; try done.
  - split; [|done]. repeat constructor. intros k Hpath _.
    unfold cloneDocument. by rewrite get_set_ne.
  - split; [|done]. repeat constructor. intros k Hpath _.
    unfold cloneDocument. by rewrite get_set_ne.
  - split; [|done]. repeat constructor. intros k Hpath _.
    unfold cloneDocument. by rewrite get_set_ne.
  - split; [|done]. repeat constructor. intros k Hpath _.
    unfold cloneDocument. by rewrite get_set_ne.
  - split; [|done]. repeat constructor. intros k Hpath _.
    unfold cloneDocument. by rewrite get_set_ne.
  - destruct arr as [|item arr]; [done|]. split; [|done].
    apply Forall_forall. intros out (i & x & -> & _)%elem_of_lookup_imap.
    apply unwoundDoc_agrees.
  - destruct arr as [|item arr]; [done|]. split; [|done].
    apply Forall_forall. intros out (i & x & -> & _)%elem_of_lookup_imap.
    apply unwoundDoc_agrees.
Qed.

(** X28.  [$unwind] changes two fields at most: every document of the
    output comes from a document of the input and has its fields, the
    unwound field and the field of the index apart; and with
    [preserveNullAndEmptyArrays] no document of the input is lost. *)
Theorem unwind_keeps_the_other_fields (input : list Doc) (params : Doc)
  (pathParam : string) :
  index params "path" = VStr pathParam ->
  pathParam <> "" ->
  Forall (fun out =>
            exists doc,
              doc ∈ input
              /\ agreeOutside (trimDollar pathParam)
                   (match index params "includeArrayIndex" with
                    | VStr s => s
                    | _ => ""
                    end) out doc)
    (unwindStage input params)
  /\ (index params "preserveNullAndEmptyArrays" = VBool true ->
      Forall (fun doc =>
                exists out,
                  out ∈ unwindStage input params
                  /\ agreeOutside (trimDollar pathParam)
                       (match index params "includeArrayIndex" with
                        | VStr s => s
                        | _ => ""
                        end) out doc)
        input).
Proof.
  intros Hpath Hne. unfold unwindStage. rewrite Hpath.
  destruct (String.eqb_spec pathParam "") as [|_]; [done|].
  set (path := trimDollar pathParam).
  set (idx := match index params "includeArrayIndex" with
              | VStr s => s
              | _ => ""
              end).
  split.
  - induction input as [|doc input IH]; simpl; [constructor|].
    apply Forall_app. split.
    + eapply Forall_impl; [apply unwindDoc_agrees|].
      intros out Hout. exists doc. split; [left|done].
    + eapply Forall_impl; [exact IH|].
      intros out (doc' & Hin & Hout). exists doc'. split; [by right|done].
  - intros ->. induction input as [|doc input IH]; simpl; [constructor|].
    constructor.
    + destruct (unwindDoc_agrees doc path true idx) as [Hall Hsome].
      destruct (unwindDoc doc path true idx) as [|out outs] eqn:Hdoc;
        [by destruct Hsome|].
      exists out. split; [left|]. by apply Forall_cons in Hall as [? _].
    + eapply Forall_impl; [exact IH|].
      intros doc' (out & Hin & Hout). exists out. split; [|done].
      apply elem_of_app. by right.
Qed.

Lemma unwind_keeps_the_other_fields_witness :
  Forall (fun out =>
            exists doc,
              doc ∈ [[("a", num 1); ("t", VArr [num 1; num 2])];
                     [("a", num 2)]]
              /\ agreeOutside (trimDollar "$t")
                   (match index [("path", VStr "$t");
                                 ("preserveNullAndEmptyArrays", VBool true)]
                            "includeArrayIndex" with
                    | VStr s => s
                    | _ => ""
                    end) out doc)
    (unwindStage [[("a", num 1); ("t", VArr [num 1; num 2])]; [("a", num 2)]]
       [("path", VStr "$t"); ("preserveNullAndEmptyArrays", VBool true)]).
Proof.
  apply (unwind_keeps_the_other_fields
           [[("a", num 1); ("t", VArr [num 1; num 2])]; [("a", num 2)]]
           [("path", VStr "$t"); ("preserveNullAndEmptyArrays", VBool true)]
           "$t" eq_refl).
  discriminate.
Defined.
